(** * A shell emulator over an in-memory virtual file system

    Shallow embedding of [shell_emulator.py]: the [VirtualFile] objects live
    in a store addressed by references, because the program shares them
    (the session's [cwd] is a reference into the same tree that [rm] and
    [chmod] mutate) and compares them by identity in [_find_parent]. *)

From Stdlib Require Import ZArith Lia Bool Ascii String List.
From stdpp Require Import base list strings.
Import ListNotations.

Local Open Scope Z_scope.
Local Open Scope nat_scope.
Local Open Scope string_scope.
Local Open Scope list_scope.

(** ** Outcomes of running Python code *)

(** A call returns a value, dies with an uncaught exception, or exhausts the
    recursion budget handed to the recursive walks over the store. *)
Inductive outcome (A : Type) : Type :=
| Ret (a : A)
| Raise (e : string)
| OutOfFuel.

Arguments Ret {A} a.
Arguments Raise {A} e.
Arguments OutOfFuel {A}.

Definition bind {A B : Type} (m : outcome A) (k : A -> outcome B) : outcome B :=
  match m with
  | Ret a => k a
  | Raise e => Raise e
  | OutOfFuel => OutOfFuel
  end.

Notation "'let*' x ':=' m 'in' k" := (bind m (fun x => k))
  (at level 10, x name, m at level 100, k at level 200).

(** ** Python string primitives used by the program *)

Definition slash : ascii := "/"%char.

Definition is_slash (c : ascii) : bool := Ascii.eqb c slash.

(** [s.lstrip('/')] *)
Fixpoint lstrip_slash (s : string) : string :=
  match s with
  | EmptyString => EmptyString
  | String c s' => if is_slash c then lstrip_slash s' else s
  end.

(** [s.rstrip('/')] *)
Fixpoint rstrip_slash (s : string) : string :=
  match s with
  | EmptyString => EmptyString
  | String c s' =>
      match rstrip_slash s' with
      | EmptyString => if is_slash c then EmptyString else String c EmptyString
      | r => String c r
      end
  end.

(** [s.strip('/')] *)
Definition strip_slash (s : string) : string := rstrip_slash (lstrip_slash s).

(** [s.split('/')]: never empty, [''.split('/') == ['']]. *)
Fixpoint split_slash (s : string) : list string :=
  match s with
  | EmptyString => [EmptyString]
  | String c s' =>
      if is_slash c then EmptyString :: split_slash s'
      else match split_slash s' with
           | [] => [String c EmptyString]
           | w :: ws => String c w :: ws
           end
  end.

(** [s.startswith('/')] *)
Definition startswith_slash (s : string) : bool :=
  match s with
  | String c _ => is_slash c
  | EmptyString => false
  end.

(** [s.endswith('/')] *)
Fixpoint endswith_slash (s : string) : bool :=
  match s with
  | EmptyString => false
  | String c EmptyString => is_slash c
  | String _ s' => endswith_slash s'
  end.

(** [os.path.basename(p)] of posixpath: what follows the last separator. *)
Fixpoint basename (p : string) : string :=
  match p with
  | EmptyString => EmptyString
  | String c p' =>
      if existsb is_slash (list_ascii_of_string p') then basename p'
      else if is_slash c then p' else p
  end.

(** [os.path.join(a, b)] of posixpath, for two components. *)
Definition path_join (a b : string) : string :=
  if startswith_slash b then b
  else if orb (String.eqb a EmptyString) (endswith_slash a) then a +:+ b
  else a +:+ "/" +:+ b.

(** [c.isspace()] for a code point below 256. *)
Definition is_space (c : ascii) : bool :=
  let n := nat_of_ascii c in
  (Nat.leb 9 n && Nat.leb n 13) || (Nat.leb 28 n && Nat.leb n 32)
  || Nat.eqb n 133 || Nat.eqb n 160.

Fixpoint lstrip (s : string) : string :=
  match s with
  | EmptyString => EmptyString
  | String c s' => if is_space c then lstrip s' else s
  end.

Fixpoint rstrip (s : string) : string :=
  match s with
  | EmptyString => EmptyString
  | String c s' =>
      match rstrip s' with
      | EmptyString => if is_space c then EmptyString else String c EmptyString
      | r => String c r
      end
  end.

(** [s.strip()] *)
Definition strip (s : string) : string := rstrip (lstrip s).

(** ** The data model *)

(** A reference to a [VirtualFile] object: its index in the store. *)
Abbreviation ref := nat.

(** A Python [dict] from names to objects, in insertion order. *)
Abbreviation dict := (list (string * nat)).

Fixpoint dict_get (k : string) (d : dict) : option ref :=
  match d with
  | [] => None
  | (k', v) :: d' => if String.eqb k k' then Some v else dict_get k d'
  end.

(** [k in d] *)
Definition dict_mem (k : string) (d : dict) : bool :=
  match dict_get k d with Some _ => true | None => false end.

(** [d[k] = v]: replaces in place, or appends a new key. *)
Fixpoint dict_set (k : string) (v : ref) (d : dict) : dict :=
  match d with
  | [] => [(k, v)]
  | (k', v') :: d' =>
      if String.eqb k k' then (k', v) :: d' else (k', v') :: dict_set k v d'
  end.

(** [del d[k]] *)
Fixpoint dict_del (k : string) (d : dict) : dict :=
  match d with
  | [] => []
  | (k', v') :: d' =>
      if String.eqb k k' then d' else (k', v') :: dict_del k d'
  end.

(** [d.values()] *)
Definition dict_values (d : dict) : list ref := map snd d.

(** [d.keys()] *)
Definition dict_keys (d : dict) : list string := map fst d.

Record VirtualFile : Type := mkVirtualFile {
  name : string;
  is_dir : bool;
  permissions : Z;
  children : dict
}.

Definition set_permissions (f : VirtualFile) (mode : Z) : VirtualFile :=
  {| name := name f; is_dir := is_dir f; permissions := mode;
     children := children f |}.

Definition set_children (f : VirtualFile) (d : dict) : VirtualFile :=
  {| name := name f; is_dir := is_dir f; permissions := permissions f;
     children := d |}.

(** The store of objects: an object's reference is its position. *)
Abbreviation store := (list VirtualFile).

Definition deref (h : store) (r : ref) : outcome VirtualFile :=
  match h !! r with
  | Some f => Ret f
  | None => Raise "dangling reference"
  end.

Record VirtualFileSystem : Type := mkVirtualFileSystem {
  heap : store;
  root : ref;
  cwd : ref
}.

Definition set_heap (s : VirtualFileSystem) (h : store) : VirtualFileSystem :=
  {| heap := h; root := root s; cwd := cwd s |}.

Definition set_cwd (s : VirtualFileSystem) (r : ref) : VirtualFileSystem :=
  {| heap := heap s; root := root s; cwd := r |}.

(** One entry of [zipf.infolist()]: the archive reader is outside the
    program, so an entry is the three things the program reads from it. *)
Record ZipInfo : Type := mkZipInfo {
  filename : string;
  info_is_dir : bool;
  external_attr : Z
}.

(** ** Building the tree: [load_zip] and [_add_file] *)

(** The mode a new node gets from an archive entry ([_add_file], the lines
    that compute [permissions]). *)
Definition entry_permissions (file_info : ZipInfo) : Z :=
  let permissions := Z.land (Z.shiftr (external_attr file_info) 16) 511%Z in
  if Z.eqb permissions 0 then 493%Z else permissions.

Fixpoint _add_file (h : store) (current_dir : ref) (path_parts : list string)
    (file_info : ZipInfo) : outcome store :=
  match path_parts with
  | [] => Ret h
  | nm :: rest =>
      let* d := deref h current_dir in
      match dict_get nm (children d) with
      | Some child => _add_file h child rest file_info
      | None =>
          let child := length h in
          let node := mkVirtualFile nm (info_is_dir file_info)
                        (entry_permissions file_info) [] in
          let h1 := h ++ [node] in
          let h2 := <[current_dir := set_children d (dict_set nm child (children d))]> h1 in
          _add_file h2 child rest file_info
      end
  end.

Fixpoint load_zip (h : store) (rt : ref) (infolist : list ZipInfo) : outcome store :=
  match infolist with
  | [] => Ret h
  | file_info :: more =>
      let path_parts := split_slash (strip_slash (filename file_info)) in
      let* h' := _add_file h rt path_parts file_info in
      load_zip h' rt more
  end.

(** [VirtualFileSystem(zip_path)]: the root object is allocated first, the
    archive is loaded under it, and the session starts at the root. *)
Definition root_node : VirtualFile := mkVirtualFile "/" true 493%Z [].

Definition VirtualFileSystem_init (infolist : list ZipInfo) : outcome VirtualFileSystem :=
  let* h := load_zip [root_node] 0 infolist in
  Ret (mkVirtualFileSystem h 0 0).

(** ** Permission test *)

Definition has_permission (file_obj : VirtualFile) (permission_type : string) : bool :=
  let mode := permissions file_obj in
  if String.eqb permission_type "r" then negb (Z.eqb (Z.land mode 256%Z) 0)
  else if String.eqb permission_type "w" then negb (Z.eqb (Z.land mode 128%Z) 0)
  else if String.eqb permission_type "x" then negb (Z.eqb (Z.land mode 64%Z) 0)
  else false.

(** ** Parent lookup: [_find_parent] *)

(** The [for child in current.children.values()] loop of [_find_parent];
    [rec] is the recursive call on a child. *)
Fixpoint find_parent_loop (rec : ref -> outcome (option ref)) (h : store)
    (current target : ref) (vals : list ref) : outcome (option ref) :=
  match vals with
  | [] => Ret None
  | child :: rest =>
      if Nat.eqb child target then Ret (Some current)
      else
        let* c := deref h child in
        if is_dir c then
          let* parent := rec child in
          match parent with
          | Some p => Ret (Some p)
          | None => find_parent_loop rec h current target rest
          end
        else find_parent_loop rec h current target rest
  end.

Fixpoint _find_parent (fuel : nat) (h : store) (current target : ref)
    : outcome (option ref) :=
  match fuel with
  | O => OutOfFuel
  | S fuel' =>
      let* d := deref h current in
      find_parent_loop (fun child => _find_parent fuel' h child target)
        h current target (dict_values (children d))
  end.

(** ** Path resolution: [_navigate_path] *)

(** The [for part in parts] loop of [_navigate_path]. *)
Fixpoint navigate_loop (fuel : nat) (s : VirtualFileSystem) (current : ref)
    (parts : list string) : outcome (option ref) :=
  match parts with
  | [] => Ret (Some current)
  | part :: rest =>
      if orb (String.eqb part EmptyString) (String.eqb part ".") then
        navigate_loop fuel s current rest
      else if String.eqb part ".." then
        let* parent_dir := _find_parent fuel (heap s) (root s) current in
        match parent_dir with
        | Some p => navigate_loop fuel s p rest
        | None => navigate_loop fuel s (root s) rest
        end
      else
        let* d := deref (heap s) current in
        match dict_get part (children d) with
        | Some child => navigate_loop fuel s child rest
        | None => Ret None
        end
  end.

Definition _navigate_path (fuel : nat) (s : VirtualFileSystem) (path : string)
    (parent : bool) : outcome (option ref) :=
  let parts := split_slash (strip_slash path) in
  let current := if startswith_slash path then root s else cwd s in
  let parts :=
    if parent then
      if Nat.ltb 0 (length parts) then removelast parts else parts
    else parts in
  navigate_loop fuel s current parts.

(** ** Commands.  Each returns the new state and the lines it printed. *)

Abbreviation printed := (list string).

Definition _get_target_dir (fuel : nat) (s : VirtualFileSystem) (args : list string)
    : outcome (option ref * printed) :=
  match args with
  | [] => Ret (Some (cwd s), [])
  | arg :: _ =>
      let* target := _navigate_path fuel s arg false in
      let missing :=
        (None, ["ls: cannot access '" +:+ arg +:+ "': No such file or directory"]) in
      match target with
      | Some t =>
          let* f := deref (heap s) t in
          if is_dir f then Ret (Some t, []) else Ret missing
      | None => Ret missing
      end
  end.

(** [for item in target_dir.children.values(): print(item.name)] *)
Fixpoint print_names (h : store) (vals : list ref) : outcome printed :=
  match vals with
  | [] => Ret []
  | item :: rest =>
      let* f := deref h item in
      let* more := print_names h rest in
      Ret (name f :: more)
  end.

Definition ls (fuel : nat) (s : VirtualFileSystem) (args : list string)
    : outcome (VirtualFileSystem * printed) :=
  let* r := _get_target_dir fuel s args in
  match r with
  | (Some target_dir, out) =>
      let* d := deref (heap s) target_dir in
      if has_permission d "r" then
        let* names := print_names (heap s) (dict_values (children d)) in
        Ret (s, out ++ names)
      else
        Ret (s, out ++ ["ls: cannot open directory '" +:+ name d
                          +:+ "': Permission denied"])
  | (None, out) => Ret (s, out)
  end.

Definition cd (fuel : nat) (s : VirtualFileSystem) (args : list string)
    : outcome (VirtualFileSystem * printed) :=
  match args with
  | [] => Ret (set_cwd s (root s), [])
  | arg :: _ =>
      let* target_dir := _navigate_path fuel s arg false in
      let missing := (s, ["cd: no such file or directory: " +:+ arg]) in
      match target_dir with
      | Some t =>
          let* d := deref (heap s) t in
          if is_dir d then
            if has_permission d "x" then Ret (set_cwd s t, [])
            else Ret (s, ["cd: permission denied: " +:+ arg])
          else Ret missing
      | None => Ret missing
      end
  end.

(** [sys.exit(0)] raises [SystemExit]. *)
Definition exit (s : VirtualFileSystem) (args : list string)
    : outcome (VirtualFileSystem * printed) :=
  Raise "SystemExit".

Definition rm (fuel : nat) (s : VirtualFileSystem) (args : list string)
    : outcome (VirtualFileSystem * printed) :=
  match args with
  | [] => Ret (s, ["rm: missing operand"])
  | target_path :: _ =>
      let target_name := basename target_path in
      let* target_parent := _navigate_path fuel s target_path true in
      let missing :=
        (s, ["rm: cannot remove '" +:+ target_path
               +:+ "': No such file or directory"]) in
      match target_parent with
      | None => Ret missing
      | Some p =>
          let* d := deref (heap s) p in
          if dict_mem target_name (children d) then
            if has_permission d "w" then
              Ret (set_heap s
                     (<[p := set_children d (dict_del target_name (children d))]>
                        (heap s)), [])
            else
              Ret (s, ["rm: cannot remove '" +:+ target_path
                         +:+ "': Permission denied"])
          else Ret missing
      end
  end.

Definition denied_line (path : string) : string :=
  "find: cannot access '" +:+ path +:+ "': Permission denied".

(** The loop body of [_list_recursive] for one child. *)
Definition list_item (rec : ref -> string -> outcome printed) (h : store)
    (current_path : string) (entry : string * ref) : outcome printed :=
  let item_path := path_join current_path (fst entry) in
  let* item := deref h (snd entry) in
  let line := if has_permission item "r" then item_path else denied_line item_path in
  if is_dir item then
    let* sub := rec (snd entry) item_path in
    Ret (line :: sub)
  else Ret [line].

(** Run a loop body over [d.items()], concatenating what it prints. *)
Fixpoint for_items (body : string * ref -> outcome printed) (items : dict)
    : outcome printed :=
  match items with
  | [] => Ret []
  | entry :: rest =>
      let* out := body entry in
      let* more := for_items body rest in
      Ret (out ++ more)
  end.

Fixpoint _list_recursive (fuel : nat) (h : store) (current_dir : ref)
    (current_path : string) : outcome printed :=
  match fuel with
  | O => OutOfFuel
  | S fuel' =>
      let* d := deref h current_dir in
      if negb (has_permission d "x") then Ret [denied_line current_path]
      else for_items (list_item (_list_recursive fuel' h) h current_path) (children d)
  end.

(** The loop body of [_find_recursive] for one child. *)
Definition find_item (rec : ref -> string -> outcome printed)
    (list_rec : ref -> string -> outcome printed) (h : store)
    (search_term current_path : string) (entry : string * ref) : outcome printed :=
  let item_path := path_join current_path (fst entry) in
  let* item := deref h (snd entry) in
  if String.eqb search_term (fst entry) then
    if has_permission item "r" then
      if is_dir item then
        let* sub := list_rec (snd entry) item_path in
        Ret (item_path :: sub)
      else Ret [item_path]
    else Ret [denied_line item_path]
  else
    if is_dir item then rec (snd entry) item_path else Ret [].

Fixpoint _find_recursive (fuel : nat) (h : store) (current_dir : ref)
    (search_term current_path : string) : outcome printed :=
  match fuel with
  | O => OutOfFuel
  | S fuel' =>
      let* d := deref h current_dir in
      if negb (has_permission d "x") then Ret [denied_line current_path]
      else
        for_items
          (find_item (fun c p => _find_recursive fuel' h c search_term p)
             (_list_recursive fuel' h) h search_term current_path)
          (children d)
  end.

Definition find (fuel : nat) (s : VirtualFileSystem) (args : list string)
    : outcome (VirtualFileSystem * printed) :=
  let search_term := match args with [] => EmptyString | a :: _ => a end in
  let* out := _find_recursive fuel (heap s) (cwd s) search_term "." in
  Ret (s, out).

(** ** Path reconstruction: [_get_path] *)

(** The [while dir_obj != self.root] loop; [steps] bounds its iterations and
    [fuel] is handed to each [_find_parent].  [dir_obj] is [None] once
    [_find_parent] found no parent: [None != self.root] holds and
    [None.name] raises. *)
Fixpoint get_path_loop (steps fuel : nat) (s : VirtualFileSystem)
    (dir_obj : option ref) (path : string) : outcome string :=
  match steps with
  | O => OutOfFuel
  | S steps' =>
      match dir_obj with
      | None => Raise "AttributeError"
      | Some d =>
          if Nat.eqb d (root s) then Ret path
          else
            let* f := deref (heap s) d in
            let* parent := _find_parent fuel (heap s) (root s) d in
            get_path_loop steps' fuel s parent ("/" +:+ name f +:+ path)
      end
  end.

Definition _get_path (fuel : nat) (s : VirtualFileSystem) (dir_obj : ref)
    : outcome string :=
  let* path := get_path_loop fuel fuel s (Some dir_obj) EmptyString in
  Ret (if String.eqb path EmptyString then "/" else path).

(** ** [chmod] and the command dispatcher *)

Section Shell.

(** [int(text, 8)]: Python's own parser of base-8 literals, [None] where it
    raises [ValueError]. *)
Variable int_base8 : string -> option Z.

Definition chmod (fuel : nat) (s : VirtualFileSystem) (args : list string)
    : outcome (VirtualFileSystem * printed) :=
  match args with
  | [mode_text; path] =>
      match int_base8 mode_text with
      | None => Ret (s, ["chmod: invalid mode: '" +:+ mode_text +:+ "'"])
      | Some mode =>
          let* target := _navigate_path fuel s path false in
          match target with
          | Some t =>
              let* f := deref (heap s) t in
              if has_permission f "w" then
                Ret (set_heap s (<[t := set_permissions f mode]> (heap s)), [])
              else
                Ret (s, ["chmod: cannot change permissions of '" +:+ path
                           +:+ "': Permission denied"])
          | None =>
              Ret (s, ["chmod: cannot access '" +:+ path
                         +:+ "': No such file or directory"])
          end
      end
  | _ => Ret (s, ["chmod: missing operand"])
  end.

(** [shlex.split(text)]: the standard library's splitter of a command line
    into words, [None] where it raises [ValueError] (an unclosed quote, a
    trailing escape character). *)
Variable shlex_split : string -> option (list string).

(** [self.builtins]: the table of commands, bound to the file system. *)
Definition builtins (fuel : nat) (s : VirtualFileSystem) (command : string)
    : option (list string -> outcome (VirtualFileSystem * printed)) :=
  if String.eqb command "ls" then Some (ls fuel s)
  else if String.eqb command "cd" then Some (cd fuel s)
  else if String.eqb command "exit" then Some (exit s)
  else if String.eqb command "chmod" then Some (chmod fuel s)
  else if String.eqb command "rm" then Some (rm fuel s)
  else if String.eqb command "find" then Some (find fuel s)
  else None.

Definition execute_command (fuel : nat) (s : VirtualFileSystem) (command_line : string)
    : outcome (VirtualFileSystem * printed) :=
  match shlex_split command_line with
  | None => Raise "ValueError"
  | Some [] => Ret (s, [])
  | Some (command :: rest) =>
      match builtins fuel s command with
      | Some builtin => builtin rest
      | None => Ret (s, [command +:+ ": command not found"])
      end
  end.

(** [run_script], on the lines of the script file:
    [for line in f: self.execute_command(line.strip())].  Opening the
    file, and the message printed when it is missing, are left out. *)
Fixpoint run_script (fuel : nat) (s : VirtualFileSystem) (lines : list string)
    : outcome (VirtualFileSystem * printed) :=
  match lines with
  | [] => Ret (s, [])
  | line :: more =>
      let* r := execute_command fuel s (strip line) in
      let* r' := run_script fuel (fst r) more in
      Ret (fst r', snd r ++ snd r')
  end.

End Shell.

(** A parser of plain octal digit strings, enough to run examples. *)
Definition octal_digit (c : ascii) : option Z :=
  let n := nat_of_ascii c in
  if andb (Nat.leb 48 n) (Nat.leb n 55) then Some (Z.of_nat (n - 48)) else None.

Fixpoint octal_digits (acc : Z) (s : string) : option Z :=
  match s with
  | EmptyString => Some acc
  | String c s' =>
      match octal_digit c with
      | Some d => octal_digits (8 * acc + d)%Z s'
      | None => None
      end
  end.

Definition plain_octal (s : string) : option Z :=
  match s with
  | EmptyString => None
  | _ => octal_digits 0%Z s
  end.

(** A splitter of command lines that hold neither quotes nor escape
    characters, enough to run examples: the words between blanks, tabs and
    line ends.  On a line with a quote or an escape character it gives up,
    whatever [shlex.split] makes of that line. *)
Definition is_blank (c : ascii) : bool :=
  let n := nat_of_ascii c in
  Nat.eqb n 32 || Nat.eqb n 9 || Nat.eqb n 13 || Nat.eqb n 10.

Definition is_quoting (c : ascii) : bool :=
  let n := nat_of_ascii c in
  Nat.eqb n 34 || Nat.eqb n 39 || Nat.eqb n 92.

Fixpoint words_from (word : string) (s : string) : list string :=
  match s with
  | EmptyString => match word with EmptyString => [] | _ => [word] end
  | String c s' =>
      if is_blank c then
        match word with
        | EmptyString => words_from EmptyString s'
        | _ => word :: words_from EmptyString s'
        end
      else words_from (word +:+ String c EmptyString) s'
  end.

Definition plain_split (line : string) : option (list string) :=
  if existsb is_quoting (list_ascii_of_string line) then None
  else Some (words_from EmptyString line).

(** * Specification vocabulary *)

(** ** The shape of the store *)

(** [c] is stored under key [k] in the [children] of [p]. *)
Definition is_child (h : store) (p : ref) (k : string) (c : ref) : Prop :=
  exists f, h !! p = Some f /\ In (k, c) (children f).

(** The store holds a forest: objects are allocated parent first, every
    child is stored under its own name, and no object is stored twice.
    ([load_zip] allocates so; any other forest can be numbered so.) *)
Record wf_store (h : store) : Prop := {
  wf_ordered : forall p k c, is_child h p k c -> p < c /\ c < length h;
  wf_names : forall p k c, is_child h p k c ->
      exists fc, h !! c = Some fc /\ name fc = k;
  wf_keys : forall p f, h !! p = Some f -> List.NoDup (dict_keys (children f));
  wf_parent : forall p1 k1 p2 k2 c,
      is_child h p1 k1 c -> is_child h p2 k2 c -> p1 = p2
}.

Record wf (s : VirtualFileSystem) : Prop := {
  wf_heap : wf_store (heap s);
  wf_root : root s < length (heap s);
  wf_root_top : forall p k, ~ is_child (heap s) p k (root s);
  wf_cwd : cwd s < length (heap s)
}.

(** [b] is reached from [a] by following [children] entries. *)
Inductive reachable (h : store) (a : ref) : ref -> Prop :=
| reach_refl : reachable h a a
| reach_step (b : ref) (k : string) (c : ref) :
    reachable h a b -> is_child h b k c -> reachable h a c.

(** Reached through directories only: every object after [a] on the way,
    [b] included, has [is_dir] set.  [_find_parent] descends exactly so. *)
Inductive dir_reachable (h : store) (a : ref) : ref -> Prop :=
| dreach_refl : dir_reachable h a a
| dreach_step (b : ref) (k : string) (c : ref) (fc : VirtualFile) :
    dir_reachable h a b -> is_child h b k c ->
    h !! c = Some fc -> is_dir fc = true -> dir_reachable h a c.

(** ** Sessions *)

Definition is_directory (h : store) (r : ref) : Prop :=
  exists f, h !! r = Some f /\ is_dir f = true.

(** What one command can do to the state.  [with_rm] tells whether the
    command may detach an entry. *)
Inductive transition (with_rm : bool) (s : VirtualFileSystem)
    : VirtualFileSystem -> Prop :=
| tr_same : transition with_rm s s
| tr_cd (t : ref) :
    is_directory (heap s) t ->
    (reachable (heap s) (root s) (cwd s) -> reachable (heap s) (root s) t) ->
    transition with_rm s (set_cwd s t)
| tr_chmod (t : ref) (f : VirtualFile) (mode : Z) :
    heap s !! t = Some f ->
    transition with_rm s (set_heap s (<[t := set_permissions f mode]> (heap s)))
| tr_rm (p : ref) (d : VirtualFile) (k : string) :
    with_rm = true -> heap s !! p = Some d ->
    transition with_rm s
      (set_heap s (<[p := set_children d (dict_del k (children d))]> (heap s))).

Record session_ok (s : VirtualFileSystem) : Prop := {
  ok_wf : wf s;
  ok_root : is_directory (heap s) (root s);
  ok_cwd : is_directory (heap s) (cwd s)
}.

(** The command a line invokes: the first word of its argument vector. *)
Definition command_name (args : list string) : string :=
  match args with
  | [] => EmptyString
  | command :: _ => command
  end.

(** A line of a script that [shlex.split] accepts and whose command name
    satisfies [P]. *)
Definition invokes (shlex_split : string -> option (list string))
    (P : string -> Prop) (line : string) : Prop :=
  exists args, shlex_split (strip line) = Some args /\ P (command_name args).

(** ** Plain lookup along a list of names *)

(** [cur.children[k1].children[k2]...]: no special names, no permissions. *)
Fixpoint resolve (h : store) (cur : ref) (segs : list string) : option ref :=
  match segs with
  | [] => Some cur
  | k :: rest =>
      match h !! cur with
      | Some d =>
          match dict_get k (children d) with
          | Some c => resolve h c rest
          | None => None
          end
      | None => None
      end
  end.

(** The store after [_add_file] has created the missing child [nm] of
    [current_dir]. *)
Definition alloc_child (h : store) (current_dir : ref) (d : VirtualFile)
    (nm : string) (file_info : ZipInfo) : store :=
  <[current_dir := set_children d (dict_set nm (length h) (children d))]>
    (h ++ [mkVirtualFile nm (info_is_dir file_info)
             (entry_permissions file_info) []]).

(** ** Growth of the store while the archive is loaded *)

(** [h'] extends [h]: old objects keep their name, kind and mode and only
    gain [children] entries; the kind and mode of each new object satisfy
    [P]; new entries point to new objects. *)
Record extends (P : bool -> Z -> Prop) (h h' : store) : Prop := {
  ext_length : length h <= length h';
  ext_old : forall q f, h !! q = Some f ->
      exists f', h' !! q = Some f' /\ name f' = name f /\
                 is_dir f' = is_dir f /\ permissions f' = permissions f /\
                 exists more, children f' = children f ++ more;
  ext_new : forall q f', h' !! q = Some f' -> length h <= q ->
      P (is_dir f') (permissions f');
  ext_child : forall q k c, is_child h' q k c ->
      is_child h q k c \/ length h <= c
}.

(** The kind and mode [_add_file] gives to the objects it creates. *)
Definition from_entry (file_info : ZipInfo) (dir : bool) (mode : Z) : Prop :=
  dir = info_is_dir file_info /\ mode = entry_permissions file_info.

Definition from_entries (infolist : list ZipInfo) (dir : bool) (mode : Z) : Prop :=
  exists file_info, In file_info infolist /\ from_entry file_info dir mode.

(** ** Example archives and scripts *)

(** The external attributes of an entry whose Unix mode is [mode]. *)
Definition unix_attr (mode : Z) : Z := Z.shiftl mode 16.

(** An archive holding the one directory [dir1/]. *)
Definition detach_archive : list ZipInfo :=
  [mkZipInfo "dir1/" true (unix_attr 493)].

Definition detach_script : list string :=
  ["cd dir1"; "rm /dir1"].

(** An archive that stores a file without an entry for its directory. *)
Definition nested_file_archive : list ZipInfo :=
  [mkZipInfo "a/f.txt" false (unix_attr 420)].

(** The tree of the repository's tests, with the root made read-only
    (mode 0o555) as in [test_rm_no_write_permission]. *)
Definition readonly_root_state : VirtualFileSystem :=
  {| heap := [ mkVirtualFile "/" true 365 [("file1.txt", 1); ("dir1", 2)];
               mkVirtualFile "file1.txt" false 420 [];
               mkVirtualFile "dir1" true 493 [("file2.txt", 3); ("subdir1", 4)];
               mkVirtualFile "file2.txt" false 384 [];
               mkVirtualFile "subdir1" true 448 [("file3.txt", 5)];
               mkVirtualFile "file3.txt" false 420 [] ];
     root := 0; cwd := 0 |}.

(** A directory [d] holding a directory [s] of mode 0o200: neither read nor
    execute. *)
Definition closed_dir_archive : list ZipInfo :=
  [mkZipInfo "d/" true (unix_attr 493); mkZipInfo "d/s/" true (unix_attr 128)].

(** An archive with an empty path segment: [d] gets a child named by the
    empty string. *)
Definition empty_segment_archive : list ZipInfo :=
  [mkZipInfo "d//x/" true (unix_attr 493); mkZipInfo "d/y/" true (unix_attr 493)].

(** A directory [a] of mode 0o600 (no execute bit) holding a directory [b]. *)
Definition locked_parent_archive : list ZipInfo :=
  [mkZipInfo "a/" true (unix_attr 384); mkZipInfo "a/b/" true (unix_attr 493)].

(** A file entry under [a] comes before the directory entry [a/b/], and
    [a] itself has no entry. *)
Definition file_first_archive : list ZipInfo :=
  [mkZipInfo "a/f.txt" false (unix_attr 420); mkZipInfo "a/b/" true (unix_attr 493)].

(** How often a line was printed. *)
Definition count_line (line : string) (out : list string) : nat :=
  length (filter (String.eqb line) out).

(** ** Paths as text *)

(** A name that path resolution treats as an ordinary child name: not
    empty, not [.] or [..], and free of the separator. *)
Definition plain_name (k : string) : bool :=
  negb (String.eqb k EmptyString) && negb (String.eqb k ".")
  && negb (String.eqb k "..")
  && negb (existsb is_slash (list_ascii_of_string k)).

(** [/k1/k2/.../kn] *)
Fixpoint abs_path (ks : list string) : string :=
  match ks with
  | [] => EmptyString
  | k :: rest => "/" +:+ k +:+ abs_path rest
  end.

(** Plain lookup along [segs] that passes through directories only: every
    object between the start and the result must have [is_dir] set. *)
Fixpoint resolve_dirs (h : store) (cur : ref) (segs : list string) : option ref :=
  match segs with
  | [] => Some cur
  | k :: rest =>
      match h !! cur with
      | Some d =>
          match dict_get k (children d), rest with
          | Some c, [] => Some c
          | Some c, _ :: _ =>
              match h !! c with
              | Some fc => if is_dir fc then resolve_dirs h c rest else None
              | None => None
              end
          | None, _ => None
          end
      | None => None
      end
  end.

(** ** Paths of archive entries *)

(** The [path_parts] that [load_zip] hands to [_add_file] for an entry. *)
Definition entry_parts (file_info : ZipInfo) : list string :=
  split_slash (strip_slash (filename file_info)).

Fixpoint is_prefix (ks parts : list string) : bool :=
  match ks, parts with
  | [], _ => true
  | k :: ks', p :: parts' => String.eqb k p && is_prefix ks' parts'
  | _ :: _, [] => false
  end.

(** The first entry of the archive whose path passes through [ks]. *)
Definition first_through (ks : list string) (infolist : list ZipInfo)
    : option ZipInfo :=
  List.find (fun file_info => is_prefix ks (entry_parts file_info)) infolist.

(** ** Archives that declare their directories *)

(** The paths of the intermediate segments of a path: its proper non-empty
    prefixes. *)
Definition intermediate_paths (parts : list string) : list (list string) :=
  map (fun n => firstn n parts) (seq 1 (length parts - 1)).

(** Every intermediate segment of every entry is created as a directory:
    the first entry whose path passes through it declares a directory.
    (An archive that lists each directory before what it holds is so.) *)
Definition containers_declared (infolist : list ZipInfo) : bool :=
  forallb
    (fun file_info =>
       forallb
         (fun ks =>
            match first_through ks infolist with
            | Some first => info_is_dir first
            | None => false
            end)
         (intermediate_paths (entry_parts file_info)))
    infolist.

(** The directory [a/b/], and after it an entry of the same path that
    declares a file. *)
Definition shadowed_file_archive : list ZipInfo :=
  [mkZipInfo "a/b/" true (unix_attr 493); mkZipInfo "a/b" false (unix_attr 420)].

(** A directory and a file in it, the directory first. *)
Definition listed_dir_archive : list ZipInfo :=
  [mkZipInfo "dir1/" true (unix_attr 493);
   mkZipInfo "dir1/file2.txt" false (unix_attr 384)].

(** Two files, the second without a stored mode. *)
Definition mixed_mode_archive : list ZipInfo :=
  [mkZipInfo "a" false (unix_attr 384); mkZipInfo "b" false 0].

(** The archive of the tree of the repository's tests. *)
Definition test_archive : list ZipInfo :=
  [mkZipInfo "file1.txt" false (unix_attr 420);
   mkZipInfo "dir1/" true (unix_attr 493);
   mkZipInfo "dir1/file2.txt" false (unix_attr 384);
   mkZipInfo "dir1/subdir1/" true (unix_attr 448);
   mkZipInfo "dir1/subdir1/file3.txt" false (unix_attr 420)].

(** ** Steps that detach the cursor *)

(** The step from [s] to [s'] took away the entry of an object from which
    the cursor of [s] is reached: of the cursor's own object or of one of
    its ancestors. *)
Definition detaches (s s' : VirtualFileSystem) : Prop :=
  exists p k c, is_child (heap s) p k c /\ ~ is_child (heap s') p k c /\
                reachable (heap s) c (cwd s).

Section Sessions.

Variable int_base8 : string -> option Z.
Variable shlex_split : string -> option (list string).

(** No command of the script detaches the cursor of the state it runs in. *)
Fixpoint cursor_kept (fuel : nat) (s : VirtualFileSystem) (script : list string)
    : Prop :=
  match script with
  | [] => True
  | line :: more =>
      match execute_command int_base8 shlex_split fuel s (strip line) with
      | Ret (s', _) => ~ detaches s s' /\ cursor_kept fuel s' more
      | _ => True
      end
  end.

End Sessions.

(** A session that removes a file of the root and then stays in [dir1]. *)
Definition kept_script : list string :=
  ["rm file1.txt"; "cd dir1"; "rm"; "rm nope"].

(** ** What one command does *)

(** The changes a command can make, with what it prints when it makes
    them: nothing at all, a move of the cursor, a new mode for an object
    that has the write bit, or the removal of an entry from an object that
    has the write bit. *)
Inductive effect (s : VirtualFileSystem) : VirtualFileSystem -> list string -> Prop :=
| eff_none (out : list string) : effect s s out
| eff_cd (t : ref) : effect s (set_cwd s t) []
| eff_chmod (t : ref) (f : VirtualFile) (mode : Z) :
    heap s !! t = Some f -> Z.land (permissions f) 128 <> 0%Z ->
    effect s (set_heap s (<[t := set_permissions f mode]> (heap s))) []
| eff_rm (p : ref) (d : VirtualFile) (k : string) :
    heap s !! p = Some d -> Z.land (permissions d) 128 <> 0%Z ->
    effect s
      (set_heap s (<[p := set_children d (dict_del k (children d))]> (heap s))) [].

(** Objects are never created, renamed or turned from file to directory,
    and entries are only ever removed. *)
Definition only_shrinks (s s' : VirtualFileSystem) : Prop :=
  length (heap s') = length (heap s) /\ root s' = root s /\
  forall r f, heap s !! r = Some f ->
    exists f', heap s' !! r = Some f' /\ name f' = name f /\
               is_dir f' = is_dir f /\
               forall e, In e (children f') -> In e (children f).

(** Objects without the write bit keep their mode. *)
Definition keeps_locked_modes (s s' : VirtualFileSystem) : Prop :=
  forall t f, heap s !! t = Some f -> Z.land (permissions f) 128 = 0%Z ->
    exists f', heap s' !! t = Some f' /\ permissions f' = permissions f.

(** The tree of the tests after [chmod 444 file1.txt]. *)
Definition locked_file_state : VirtualFileSystem :=
  {| heap := [ mkVirtualFile "/" true 493 [("file1.txt", 1); ("dir1", 2)];
               mkVirtualFile "file1.txt" false 292 [];
               mkVirtualFile "dir1" true 493 [("file2.txt", 3); ("subdir1", 4)];
               mkVirtualFile "file2.txt" false 384 [];
               mkVirtualFile "subdir1" true 448 [("file3.txt", 5)];
               mkVirtualFile "file3.txt" false 420 [] ];
     root := 0; cwd := 0 |}.

(** A session of three commands on the tree of the tests. *)
Definition sample_script : list string :=
  ["chmod 444 file1.txt"; "chmod 644 file1.txt"; "rm dir1/file2.txt"].

(** The tree of the tests as the repository's [setUp] builds it. *)
Definition test_state : VirtualFileSystem :=
  {| heap := [ mkVirtualFile "/" true 493 [("file1.txt", 1); ("dir1", 2)];
               mkVirtualFile "file1.txt" false 420 [];
               mkVirtualFile "dir1" true 493 [("file2.txt", 3); ("subdir1", 4)];
               mkVirtualFile "file2.txt" false 384 [];
               mkVirtualFile "subdir1" true 448 [("file3.txt", 5)];
               mkVirtualFile "file3.txt" false 420 [] ];
     root := 0; cwd := 0 |}.

(** A root of mode 0o600, without the execute bit, holding the directory
    [d], in which the cursor is. *)
Definition closed_root_state : VirtualFileSystem :=
  {| heap := [ mkVirtualFile "/" true 384 [("d", 1)];
               mkVirtualFile "d" true 493 [] ];
     root := 0; cwd := 1 |}.

(** A segment that path resolution acts on: neither empty nor [.]. *)
Definition real_segment (part : string) : bool :=
  negb (orb (String.eqb part EmptyString) (String.eqb part ".")).

(** Two stores that differ in modes only. *)
Definition same_shape (h h' : store) : Prop :=
  forall q,
    match h !! q, h' !! q with
    | Some f, Some f' => children f' = children f /\ is_dir f' = is_dir f
    | None, None => True
    | _, _ => False
    end.

(** ** Where [find] reports a match *)

(** The object at the end of the names [ks] from [cur], when [find] gets
    there and reports it: each directory on the way has the execute bit,
    each name before the last differs from [term] and names a directory,
    and the last name is [term] and names a readable object. *)
Fixpoint find_route (h : store) (cur : ref) (term : string) (ks : list string)
    : option ref :=
  match ks with
  | [] => None
  | k :: rest =>
      match h !! cur with
      | Some d =>
          if has_permission d "x" then
            match dict_get k (children d) with
            | Some c =>
                match h !! c with
                | Some fc =>
                    match rest with
                    | [] =>
                        if String.eqb term k && has_permission fc "r"
                        then Some c else None
                    | _ :: _ =>
                        if negb (String.eqb term k) && is_dir fc
                        then find_route h c term rest else None
                    end
                | None => None
                end
            | None => None
            end
          else None
      | None => None
      end
  end.

(** A line of the form that [find] prints for a refused access. *)
Definition is_denied_line (line : string) : Prop :=
  exists path, line = denied_line path.

(** ** Measures of an archive *)

(** The number of path segments of all entries together. *)
Definition total_segments (infolist : list ZipInfo) : nat :=
  list_sum (map (fun file_info => length (entry_parts file_info)) infolist).

(** The first segment of an entry's path. *)
Definition first_segment (file_info : ZipInfo) : string :=
  hd EmptyString (entry_parts file_info).

(** The names of [l] that are not in [seen], each at its first occurrence. *)
Fixpoint first_occurrences (seen l : list string) : list string :=
  match l with
  | [] => []
  | k :: l' =>
      if existsb (String.eqb k) seen then first_occurrences seen l'
      else k :: first_occurrences (seen ++ [k]) l'
  end.

(** ** The prompt *)

Record ShellEmulator : Type := mkShellEmulator {
  user : string;
  host : string;
  fs : VirtualFileSystem
}.

Definition prompt (fuel : nat) (shell : ShellEmulator) : outcome string :=
  let* path := _get_path fuel (fs shell) (cwd (fs shell)) in
  Ret (user shell +:+ "@" +:+ host shell +:+ ":" +:+ path +:+ "$ ").

(** An archive in which a directory entry follows an entry inside it. *)
Definition late_dir_archive : list ZipInfo :=
  [mkZipInfo "docs/a.txt" false (unix_attr 420)].

Definition late_dir_entries : list ZipInfo :=
  [mkZipInfo "docs/" true (unix_attr 448); mkZipInfo "docs/a.txt" false (unix_attr 384)].

(** Three top-level names, one of them twice. *)
Definition ordered_archive : list ZipInfo :=
  [mkZipInfo "b.txt" false (unix_attr 420); mkZipInfo "a/" true (unix_attr 493);
   mkZipInfo "a/x" false (unix_attr 420); mkZipInfo "c" false (unix_attr 420)].

(** * Verification *)

(** ** Outcomes *)

Lemma bind_Ret {A B : Type} (m : outcome A) (k : A -> outcome B) (b : B) :
  bind m k = Ret b <-> exists a, m = Ret a /\ k a = Ret b.
Proof.
  split.
  - destruct m as [a| |]; simpl; intros H; try discriminate. eauto.
  - intros (a & -> & H). exact H.
Qed.

(** Case analysis of a computation known to return. *)
Ltac ret_cases H :=
  repeat first
    [ discriminate H
    | match type of H with
      | bind ?m _ = Ret _ =>
          let a := fresh "a" in
          let Ha := fresh "Ha" in
          apply bind_Ret in H as (a & Ha & H)
      | match ?x with _ => _ end = Ret _ => destruct x eqn:?
      end ].

Lemma deref_Ret (h : store) (r : ref) (f : VirtualFile) :
  deref h r = Ret f <-> h !! r = Some f.
Proof.
  unfold deref. destruct (h !! r); split; intros H; congruence.
Qed.

Lemma deref_lt (h : store) (r : ref) :
  r < length h -> exists f, h !! r = Some f /\ deref h r = Ret f.
Proof.
  intros Hlt. destruct (lookup_lt_is_Some_2 h r Hlt) as [f Hf].
  exists f. split; [exact Hf|]. apply deref_Ret, Hf.
Qed.

(** ** Dictionaries *)

Lemma dict_get_In (k : string) (d : dict) (v : ref) :
  dict_get k d = Some v -> In (k, v) d.
Proof.
  induction d as [|[k' v'] d IH]; simpl; [discriminate|].
  destruct (String.eqb_spec k k') as [->|Hne].
  - intros [= ->]. now left.
  - intros H. right. auto.
Qed.

Lemma dict_get_None (k : string) (d : dict) :
  dict_get k d = None <-> ~ In k (dict_keys d).
Proof.
  induction d as [|[k' v'] d IH]; simpl.
  - tauto.
  - destruct (String.eqb_spec k k') as [->|Hne].
    + split; [discriminate|]. intros H. exfalso. apply H. now left.
    + rewrite IH. split; intros H; [intros [E|E]; [congruence|tauto]|tauto].
Qed.

Lemma In_dict_get (k : string) (v : ref) (d : dict) :
  List.NoDup (dict_keys d) -> In (k, v) d -> dict_get k d = Some v.
Proof.
  induction d as [|[k' v'] d IH]; simpl; [tauto|].
  intros Hnd HIn. apply NoDup_cons_iff in Hnd as [Hk Hnd].
  destruct HIn as [[= -> ->]|HIn].
  - now rewrite String.eqb_refl.
  - destruct (String.eqb_spec k k') as [->|Hne]; [|auto].
    exfalso. apply Hk. change (In (fst (k', v)) (map fst d)). now apply in_map.
Qed.

Lemma dict_set_fresh (k : string) (v : ref) (d : dict) :
  dict_get k d = None -> dict_set k v d = d ++ [(k, v)].
Proof.
  induction d as [|[k' v'] d IH]; simpl; [reflexivity|].
  destruct (String.eqb k k'); [discriminate|].
  intros H. now rewrite IH.
Qed.

Lemma dict_del_In (k : string) (d : dict) (e : string * ref) :
  In e (dict_del k d) -> In e d.
Proof.
  induction d as [|[k' v'] d IH]; simpl; [tauto|].
  destruct (String.eqb k k'); simpl; tauto.
Qed.

Lemma dict_del_keys (k : string) (d : dict) :
  List.NoDup (dict_keys d) -> List.NoDup (dict_keys (dict_del k d)).
Proof.
  induction d as [|[k' v'] d IH]; simpl; [auto|].
  intros Hnd. apply NoDup_cons_iff in Hnd as [Hk Hnd].
  destruct (String.eqb k k'); [exact Hnd|]. simpl.
  apply NoDup_cons_iff. split; [|auto].
  intros HIn. apply Hk. unfold dict_keys in *.
  apply in_map_iff in HIn as ([k2 v2] & <- & HIn).
  apply dict_del_In in HIn. change (In (fst (k2, v2)) (map fst d)).
  now apply in_map.
Qed.

Lemma dict_values_In (d : dict) (c : ref) :
  In c (dict_values d) <-> exists k, In (k, c) d.
Proof.
  unfold dict_values. rewrite in_map_iff. split.
  - intros ([k c'] & <- & H). eauto.
  - intros (k & H). exists (k, c). auto.
Qed.

Lemma dict_del_get_same (k : string) (d : list (string * nat)) :
  List.NoDup (dict_keys d) -> dict_get k (dict_del k d) = None.
Proof.
  induction d as [|[k' v] d IH]; simpl; [reflexivity|].
  intros Hnd. apply NoDup_cons_iff in Hnd as [Hk Hnd].
  destruct (String.eqb_spec k k') as [->|Hne].
  - now apply dict_get_None.
  - simpl. destruct (String.eqb_spec k k'); [contradiction|auto].
Qed.

Lemma dict_del_get_other (k k2 : string) (d : list (string * nat)) :
  k2 <> k -> dict_get k2 (dict_del k d) = dict_get k2 d.
Proof.
  intros Hne. induction d as [|[k' v] d IH]; simpl; [reflexivity|].
  destruct (String.eqb_spec k k') as [->|Hne'].
  - destruct (String.eqb_spec k2 k'); [contradiction|reflexivity].
  - simpl. now rewrite IH.
Qed.

Lemma dict_del_keys_filter (k : string) (d : list (string * nat)) :
  List.NoDup (dict_keys d) ->
  dict_keys (dict_del k d) =
    List.filter (fun k2 => negb (String.eqb k2 k)) (dict_keys d).
Proof.
  induction d as [|[k' v] d IH]; simpl; [reflexivity|].
  intros Hnd. apply NoDup_cons_iff in Hnd as [Hk Hnd].
  destruct (String.eqb_spec k k') as [->|Hne].
  - rewrite String.eqb_refl. simpl. symmetry. apply List.forallb_filter_id.
    apply forallb_forall. intros x Hx. apply negb_true_iff, String.eqb_neq.
    intros ->. contradiction.
  - simpl. destruct (String.eqb_spec k' k) as [E|_]; [congruence|].
    simpl. now rewrite IH.
Qed.

Lemma has_permission_w (f : VirtualFile) :
  has_permission f "w" = true <-> Z.land (permissions f) 128 <> 0%Z.
Proof.
  unfold has_permission. simpl.
  destruct (Z.eqb_spec (Z.land (permissions f) 128) 0); simpl; split;
    congruence.
Qed.

(** ** Reachability *)

Lemma dir_reachable_reachable (h : store) (a b : ref) :
  dir_reachable h a b -> reachable h a b.
Proof. induction 1; [constructor|econstructor; eauto]. Qed.

Lemma reachable_trans (h : store) (a b c : ref) :
  reachable h a b -> reachable h b c -> reachable h a c.
Proof. intros Hab Hbc. induction Hbc; [exact Hab|econstructor; eauto]. Qed.

Lemma dir_reachable_trans (h : store) (a b c : ref) :
  dir_reachable h a b -> dir_reachable h b c -> dir_reachable h a c.
Proof. intros Hab Hbc. induction Hbc; [exact Hab|econstructor; eauto]. Qed.

Lemma dir_reachable_first (h : store) (a c : ref) :
  dir_reachable h a c ->
  a = c \/ exists k b fb, is_child h a k b /\ h !! b = Some fb /\
                          is_dir fb = true /\ dir_reachable h b c.
Proof.
  induction 1 as [|b k c fc Hab IH Hbc Hc Hd]; [now left|]. right.
  destruct IH as [->|(k' & b' & fb' & H1 & H2 & H3 & H4)].
  - exists k, c, fc. repeat split; auto. constructor.
  - exists k', b', fb'. repeat split; auto. econstructor; eauto.
Qed.

Lemma reachable_lt (h : store) (a b : ref) :
  wf_store h -> a < length h -> reachable h a b -> a <= b /\ b < length h.
Proof.
  intros Hwf Ha. induction 1 as [|b k c Hab IH Hbc]; [lia|].
  apply (wf_ordered h Hwf) in Hbc. lia.
Qed.

(** ** Parent lookup *)

Lemma find_parent_loop_sound (rec : ref -> outcome (option ref)) (h : store)
    (cur t : ref) (vals : list ref) (q : ref) :
  find_parent_loop rec h cur t vals = Ret (Some q) ->
  (q = cur /\ In t vals) \/
  (exists c fc, In c vals /\ h !! c = Some fc /\ is_dir fc = true /\
                rec c = Ret (Some q)).
Proof.
  induction vals as [|c vals IH]; simpl; [discriminate|].
  destruct (Nat.eqb_spec c t) as [->|Hne].
  - intros [= <-]. left. auto.
  - intros H. apply bind_Ret in H as (fc & Hfc & H). apply deref_Ret in Hfc.
    assert (Hrest : find_parent_loop rec h cur t vals = Ret (Some q) ->
                    (q = cur /\ (c = t \/ In t vals)) \/
                    (exists c0 fc0, (c = c0 \/ In c0 vals) /\ h !! c0 = Some fc0 /\
                                    is_dir fc0 = true /\ rec c0 = Ret (Some q))).
    { intros H'. destruct (IH H') as [[-> HIn]|(c0 & fc0 & HIn & Hr)];
        [left; auto|right; exists c0, fc0; tauto]. }
    destruct (is_dir fc) eqn:Hd; [|auto].
    apply bind_Ret in H as (r & Hr & H). destruct r as [p|]; [|auto].
    injection H as <-. right. exists c, fc. auto.
Qed.

Lemma find_parent_sound (h : store) (t : ref) (fuel : nat) :
  forall cur q, _find_parent fuel h cur t = Ret (Some q) ->
    dir_reachable h cur q /\ exists k, is_child h q k t.
Proof.
  induction fuel as [|fuel IH]; intros cur q; simpl; [discriminate|].
  intros H. apply bind_Ret in H as (d & Hd & H). apply deref_Ret in Hd.
  apply find_parent_loop_sound in H as [[-> HIn]|(c & fc & HIn & Hc & Hdir & Hr)].
  - split; [constructor|]. apply dict_values_In in HIn as [k HIn].
    exists k, d. auto.
  - apply IH in Hr as [Hreach Hch]. split; [|exact Hch].
    apply dict_values_In in HIn as [k HIn].
    apply dir_reachable_trans with c; [|exact Hreach].
    apply dreach_step with cur k fc; auto; [constructor|exists d; auto].
Qed.

Lemma find_parent_loop_total (rec : ref -> outcome (option ref)) (h : store)
    (cur t : ref) (vals : list ref) :
  (forall c, In c vals -> c < length h /\ exists r, rec c = Ret r) ->
  exists r, find_parent_loop rec h cur t vals = Ret r.
Proof.
  induction vals as [|c vals IH]; simpl; intros Hall; [eauto|].
  destruct (Nat.eqb c t); [eauto|].
  destruct (Hall c (or_introl eq_refl)) as [Hlt [r Hr]].
  destruct (deref_lt h c Hlt) as (fc & _ & ->). simpl.
  destruct (is_dir fc); [|auto]. rewrite Hr. simpl.
  destruct r; [eauto|auto].
Qed.

Lemma find_parent_total (h : store) (t : ref) :
  wf_store h ->
  forall fuel cur, cur < length h -> length h <= fuel + cur ->
    exists r, _find_parent fuel h cur t = Ret r.
Proof.
  intros Hwf. induction fuel as [|fuel IH]; intros cur Hcur Hfuel; [simpl in *; lia|].
  simpl. destruct (deref_lt h cur Hcur) as (d & Hd & ->). simpl.
  apply find_parent_loop_total. intros c HIn.
  apply dict_values_In in HIn as [k HIn].
  assert (Hch : is_child h cur k c) by (exists d; auto).
  apply (wf_ordered h Hwf) in Hch as [H1 H2].
  split; [exact H2|]. apply IH; lia.
Qed.

Lemma find_parent_loop_complete (rec : ref -> outcome (option ref)) (h : store)
    (cur t : ref) (vals : list ref) :
  (forall c, In c vals -> c < length h /\ exists r, rec c = Ret r) ->
  (In t vals \/
   exists c fc q, In c vals /\ h !! c = Some fc /\ is_dir fc = true /\
                  rec c = Ret (Some q)) ->
  exists q, find_parent_loop rec h cur t vals = Ret (Some q).
Proof.
  induction vals as [|c vals IH]; simpl; intros Hall Hex.
  - destruct Hex as [[]|(c & fc & q & [] & _)].
  - destruct (Nat.eqb_spec c t) as [->|Hne]; [eauto|].
    destruct (Hall c (or_introl eq_refl)) as [Hlt [r Hr]].
    destruct (deref_lt h c Hlt) as (fc & Hfc & ->). simpl.
    assert (Hrest : (In t vals \/
                     exists c0 fc0 q, In c0 vals /\ h !! c0 = Some fc0 /\
                                      is_dir fc0 = true /\ rec c0 = Ret (Some q)) ->
                    exists q, find_parent_loop rec h cur t vals = Ret (Some q)).
    { apply IH. intros c0 H0. apply Hall. now right. }
    destruct (is_dir fc) eqn:Hd.
    + rewrite Hr. simpl. destruct r as [p|]; [eauto|].
      apply Hrest. destruct Hex as [[E|HIn]|(c0 & fc0 & q & [E|HIn] & H1 & H2 & H3)].
      * congruence.
      * now left.
      * subst c0. congruence.
      * right. exists c0, fc0, q. auto.
    + apply Hrest. destruct Hex as [[E|HIn]|(c0 & fc0 & q & [E|HIn] & H1 & H2 & H3)].
      * congruence.
      * now left.
      * subst c0. congruence.
      * right. exists c0, fc0, q. auto.
Qed.

Lemma find_parent_complete (h : store) (t p : ref) (k : string) :
  wf_store h -> is_child h p k t ->
  forall fuel cur, cur < length h -> length h <= fuel + cur ->
    dir_reachable h cur p ->
    exists q, _find_parent fuel h cur t = Ret (Some q).
Proof.
  intros Hwf Hpt. induction fuel as [|fuel IH]; intros cur Hcur Hfuel Hreach;
    [simpl in *; lia|].
  simpl. destruct (deref_lt h cur Hcur) as (d & Hd & ->). simpl.
  assert (Hkids : forall c, In c (dict_values (children d)) ->
                    cur < c /\ c < length h).
  { intros c HIn. apply dict_values_In in HIn as [k' HIn].
    apply (wf_ordered h Hwf cur k' c). exists d. auto. }
  apply find_parent_loop_complete.
  - intros c HIn. destruct (Hkids c HIn) as [H1 H2]. split; [exact H2|].
    apply find_parent_total; [exact Hwf|lia|lia].
  - apply dir_reachable_first in Hreach
      as [->|(k' & b & fb & Hb & Hfb & Hdir & Hbp)].
    + left. destruct Hpt as (f & Hf & HIn). apply dict_values_In.
      exists k. congruence.
    + right. assert (HIn : In b (dict_values (children d))).
      { destruct Hb as (f & Hf & HIn). apply dict_values_In. exists k'. congruence. }
      destruct (Hkids b HIn) as [H1 H2].
      destruct (IH b H2 ltac:(lia) Hbp) as [q Hq].
      exists b, fb, q. auto.
Qed.

(** With enough fuel, [_find_parent] from [cur] returns the one object that
    holds [t], when that object is reached from [cur] through directories. *)
Lemma find_parent_exact (h : store) (t p : ref) (k : string) (fuel cur : nat) :
  wf_store h -> is_child h p k t -> cur < length h -> length h <= fuel + cur ->
  dir_reachable h cur p ->
  _find_parent fuel h cur t = Ret (Some p).
Proof.
  intros Hwf Hpt Hcur Hfuel Hreach.
  destruct (find_parent_complete h t p k Hwf Hpt fuel cur Hcur Hfuel Hreach) as [q Hq].
  rewrite Hq. destruct (find_parent_sound h t fuel cur q Hq) as [_ [k' Hq']].
  now rewrite (wf_parent h Hwf q k' p k t Hq' Hpt).
Qed.

(** An object that nothing holds has no parent. *)
Lemma find_parent_orphan (h : store) (t : ref) (fuel cur : nat) :
  wf_store h -> (forall p k, ~ is_child h p k t) ->
  cur < length h -> length h <= fuel + cur ->
  _find_parent fuel h cur t = Ret None.
Proof.
  intros Hwf Htop Hcur Hfuel.
  destruct (find_parent_total h t Hwf fuel cur Hcur Hfuel) as [[q|] Hq]; [|exact Hq].
  destruct (find_parent_sound h t fuel cur q Hq) as [_ [k Hk]].
  now apply Htop in Hk.
Qed.

(** ** Path resolution *)

Lemma navigate_loop_spec (s : VirtualFileSystem) (fuel : nat) :
  wf s -> length (heap s) <= fuel ->
  forall parts cur, cur < length (heap s) ->
    exists r, navigate_loop fuel s cur parts = Ret r /\
      forall t, r = Some t ->
        t < length (heap s) /\
        (reachable (heap s) (root s) cur -> reachable (heap s) (root s) t).
Proof.
  intros Hwf Hfuel. pose proof (wf_heap s Hwf) as Hst.
  induction parts as [|part rest IH]; intros cur Hcur; simpl.
  - exists (Some cur). split; [reflexivity|]. intros t [= <-]. auto.
  - destruct (orb (String.eqb part EmptyString) (String.eqb part ".")); [auto|].
    destruct (String.eqb part "..").
    + destruct (find_parent_total (heap s) cur Hst fuel (root s)
                  (wf_root s Hwf) ltac:(lia)) as [r Hr].
      rewrite Hr. simpl. destruct r as [p|].
      * destruct (find_parent_sound _ _ _ _ _ Hr) as [Hreach _].
        apply dir_reachable_reachable in Hreach.
        destruct (reachable_lt _ _ _ Hst (wf_root s Hwf) Hreach) as [_ Hp].
        destruct (IH p Hp) as (r & Hnav & Hprop). exists r. split; [exact Hnav|].
        intros t Ht. destruct (Hprop t Ht) as [H1 H2]. auto.
      * destruct (IH (root s) (wf_root s Hwf)) as (r & Hnav & Hprop).
        exists r. split; [exact Hnav|].
        intros t Ht. destruct (Hprop t Ht) as [H1 H2].
        split; [exact H1|]. intros _. apply H2. constructor.
    + destruct (deref_lt (heap s) cur Hcur) as (d & Hd & ->). simpl.
      destruct (dict_get part (children d)) as [c|] eqn:Hget.
      * apply dict_get_In in Hget.
        assert (Hch : is_child (heap s) cur part c) by (exists d; auto).
        destruct (wf_ordered _ Hst _ _ _ Hch) as [_ Hc].
        destruct (IH c Hc) as (r & Hnav & Hprop). exists r. split; [exact Hnav|].
        intros t Ht. destruct (Hprop t Ht) as [H1 H2].
        split; [exact H1|]. intros Hreach. apply H2. econstructor; eauto.
      * exists None. split; [reflexivity|]. discriminate.
Qed.

Lemma navigate_path_spec (s : VirtualFileSystem) (fuel : nat) (path : string)
    (parent : bool) :
  wf s -> length (heap s) <= fuel ->
  exists r, _navigate_path fuel s path parent = Ret r /\
    forall t, r = Some t ->
      t < length (heap s) /\
      (reachable (heap s) (root s) (cwd s) -> reachable (heap s) (root s) t).
Proof.
  intros Hwf Hfuel. unfold _navigate_path.
  destruct (startswith_slash path).
  - destruct (navigate_loop_spec s fuel Hwf Hfuel
                (if parent
                 then if Nat.ltb 0 (length (split_slash (strip_slash path)))
                      then removelast (split_slash (strip_slash path))
                      else split_slash (strip_slash path)
                 else split_slash (strip_slash path))
                (root s) (wf_root s Hwf)) as (r & Hnav & Hprop).
    exists r. split; [exact Hnav|]. intros t Ht.
    destruct (Hprop t Ht) as [H1 H2]. split; [exact H1|].
    intros _. apply H2. constructor.
  - apply navigate_loop_spec; auto using wf_cwd.
Qed.

Lemma navigate_loop_filter (fuel : nat) (s : VirtualFileSystem) (parts : list string) :
  forall cur, navigate_loop fuel s cur parts =
              navigate_loop fuel s cur (List.filter real_segment parts).
Proof.
  induction parts as [|part rest IH]; intros cur; [reflexivity|].
  cbn [List.filter]. unfold real_segment at 1.
  destruct (orb (String.eqb part EmptyString) (String.eqb part ".")) eqn:E.
  - cbn [negb]. cbn [navigate_loop]. rewrite E. apply IH.
  - cbn [negb]. cbn [navigate_loop]. rewrite E.
    destruct (String.eqb part "..").
    + destruct (_find_parent fuel (heap s) (root s) cur) as [[p|]| |];
        cbn [bind]; auto.
    + destruct (deref (heap s) cur) as [d| |]; cbn [bind]; auto.
      destruct (dict_get part (children d)); auto.
Qed.

Lemma navigate_loop_app (fuel : nat) (s : VirtualFileSystem) (p1 p2 : list string) :
  forall cur,
    navigate_loop fuel s cur (p1 ++ p2) =
    bind (navigate_loop fuel s cur p1)
      (fun r => match r with
                | Some m => navigate_loop fuel s m p2
                | None => Ret None
                end).
Proof.
  induction p1 as [|part rest IH]; intros cur; [reflexivity|].
  cbn [app navigate_loop].
  destruct (orb (String.eqb part EmptyString) (String.eqb part ".")); [apply IH|].
  destruct (String.eqb part "..").
  - destruct (_find_parent fuel (heap s) (root s) cur) as [[p|]| |];
      cbn [bind]; auto.
  - destruct (deref (heap s) cur) as [d| |]; cbn [bind]; auto.
    destruct (dict_get part (children d)); auto.
Qed.

Lemma navigate_loop_state (fuel : nat) (s1 s2 : VirtualFileSystem)
    (parts : list string) :
  heap s1 = heap s2 -> root s1 = root s2 ->
  forall cur, navigate_loop fuel s1 cur parts = navigate_loop fuel s2 cur parts.
Proof.
  intros Hh Hr. induction parts as [|part rest IH]; intros cur; [reflexivity|].
  cbn [navigate_loop]. rewrite Hh, Hr.
  destruct (orb (String.eqb part EmptyString) (String.eqb part ".")); [apply IH|].
  destruct (String.eqb part "..").
  - destruct (_find_parent fuel (heap s2) (root s2) cur) as [[p|]| |];
      cbn [bind]; auto.
  - destruct (deref (heap s2) cur) as [d| |]; cbn [bind]; auto.
    destruct (dict_get part (children d)); auto.
Qed.

(** ** Updating one object of the store *)

Lemma is_child_update (h : store) (p : ref) (d d' : VirtualFile) (q : ref)
    (k : string) (c : ref) :
  h !! p = Some d ->
  (forall e, In e (children d') -> In e (children d)) ->
  is_child (<[p := d']> h) q k c -> is_child h q k c.
Proof.
  intros Hp Hsub (f & Hf & HIn).
  destruct (Nat.eq_dec p q) as [->|Hne].
  - rewrite list_lookup_insert_eq in Hf by (eapply lookup_lt_Some; eauto).
    injection Hf as <-. exists d. auto.
  - rewrite list_lookup_insert_ne in Hf by exact Hne. exists f. auto.
Qed.

Lemma lookup_update_name (h : store) (p : ref) (d d' : VirtualFile) (c : ref)
    (fc : VirtualFile) :
  h !! p = Some d -> name d' = name d -> is_dir d' = is_dir d ->
  h !! c = Some fc ->
  exists fc', <[p := d']> h !! c = Some fc' /\
              name fc' = name fc /\ is_dir fc' = is_dir fc.
Proof.
  intros Hp Hn Hd Hc. destruct (Nat.eq_dec p c) as [->|Hne].
  - rewrite list_lookup_insert_eq by (eapply lookup_lt_Some; eauto).
    exists d'. replace fc with d by congruence. auto.
  - rewrite list_lookup_insert_ne by exact Hne. exists fc. auto.
Qed.

(** Replacing an object by one of the same name whose [children] are among
    the old ones keeps the store a forest. *)
Lemma wf_store_update (h : store) (p : ref) (d d' : VirtualFile) :
  wf_store h -> h !! p = Some d -> name d' = name d -> is_dir d' = is_dir d ->
  (forall e, In e (children d') -> In e (children d)) ->
  List.NoDup (dict_keys (children d')) ->
  wf_store (<[p := d']> h).
Proof.
  intros Hwf Hp Hn Hdir Hsub Hnd.
  assert (Hold : forall q k c, is_child (<[p := d']> h) q k c -> is_child h q k c)
    by (intros q k c; apply is_child_update with d; auto).
  split.
  - intros q k c Hch. rewrite length_insert. apply (wf_ordered h Hwf q k c); auto.
  - intros q k c Hch. apply Hold in Hch.
    destruct (wf_names h Hwf q k c Hch) as (fc & Hfc & Hname).
    destruct (lookup_update_name h p d d' c fc Hp Hn Hdir Hfc) as (fc' & H1 & H2 & _).
    exists fc'. split; [exact H1|congruence].
  - intros q f Hf. destruct (Nat.eq_dec p q) as [->|Hne].
    + rewrite list_lookup_insert_eq in Hf by (eapply lookup_lt_Some; eauto).
      now injection Hf as <-.
    + rewrite list_lookup_insert_ne in Hf by exact Hne.
      apply (wf_keys h Hwf q f Hf).
  - intros p1 k1 p2 k2 c H1 H2. apply (wf_parent h Hwf p1 k1 p2 k2 c); auto.
Qed.

Lemma wf_update (s : VirtualFileSystem) (p : ref) (d d' : VirtualFile) :
  wf s -> heap s !! p = Some d -> name d' = name d -> is_dir d' = is_dir d ->
  (forall e, In e (children d') -> In e (children d)) ->
  List.NoDup (dict_keys (children d')) ->
  wf (set_heap s (<[p := d']> (heap s))).
Proof.
  intros Hwf Hp Hn Hdir Hsub Hnd. split; simpl.
  - apply wf_store_update with d; auto using wf_heap.
  - rewrite length_insert. apply (wf_root s Hwf).
  - intros q k Hch. apply (wf_root_top s Hwf q k).
    apply is_child_update with p d d'; auto.
  - rewrite length_insert. apply (wf_cwd s Hwf).
Qed.

Lemma wf_set_cwd (s : VirtualFileSystem) (t : ref) :
  wf s -> t < length (heap s) -> wf (set_cwd s t).
Proof.
  intros Hwf Ht. split; simpl; auto using wf_heap, wf_root, wf_root_top.
Qed.

(** ** The recursive walks of [find] return *)

Lemma for_items_total (body : string * nat -> outcome (list string))
    (items : list (string * nat)) :
  (forall e, In e items -> exists out, body e = Ret out) ->
  exists out, for_items body items = Ret out.
Proof.
  induction items as [|e items IH]; simpl; intros Hall; [eauto|].
  destruct (Hall e (or_introl eq_refl)) as [out ->]. simpl.
  destruct IH as [more ->]; [intros e' He'; apply Hall; now right|].
  simpl. eauto.
Qed.

Lemma list_recursive_total (h : list VirtualFile) :
  wf_store h ->
  forall fuel cur path, cur < length h -> length h <= fuel + cur ->
    exists out, _list_recursive fuel h cur path = Ret out.
Proof.
  intros Hwf. induction fuel as [|fuel IH]; intros cur path Hcur Hfuel;
    [simpl in *; lia|].
  simpl. destruct (deref_lt h cur Hcur) as (d & Hd & ->). simpl.
  destruct (negb (has_permission d "x")); [eauto|].
  apply for_items_total. intros [k c] HIn. unfold list_item. simpl.
  assert (Hch : is_child h cur k c) by (exists d; auto).
  destruct (wf_ordered h Hwf _ _ _ Hch) as [H1 H2].
  destruct (deref_lt h c H2) as (fc & _ & ->). simpl.
  destruct (is_dir fc); [|eauto].
  destruct (IH c (path_join path k) H2 ltac:(lia)) as [sub ->]. simpl. eauto.
Qed.

Lemma find_recursive_total (h : list VirtualFile) (term : string) :
  wf_store h ->
  forall fuel cur path, cur < length h -> length h <= fuel + cur ->
    exists out, _find_recursive fuel h cur term path = Ret out.
Proof.
  intros Hwf. induction fuel as [|fuel IH]; intros cur path Hcur Hfuel;
    [simpl in *; lia|].
  simpl. destruct (deref_lt h cur Hcur) as (d & Hd & ->). simpl.
  destruct (negb (has_permission d "x")); [eauto|].
  apply for_items_total. intros [k c] HIn. unfold find_item. simpl.
  assert (Hch : is_child h cur k c) by (exists d; auto).
  destruct (wf_ordered h Hwf _ _ _ Hch) as [H1 H2].
  destruct (deref_lt h c H2) as (fc & _ & ->). simpl.
  destruct (String.eqb term k).
  - destruct (has_permission fc "r"); [|eauto].
    destruct (is_dir fc); [|eauto].
    destruct (list_recursive_total h Hwf fuel c (path_join path k) H2 ltac:(lia))
      as [sub ->].
    simpl. eauto.
  - destruct (is_dir fc); [|eauto]. apply IH; lia.
Qed.

Lemma print_names_total (h : list VirtualFile) (vals : list nat) :
  (forall c, In c vals -> c < length h) ->
  exists out, print_names h vals = Ret out.
Proof.
  induction vals as [|c vals IH]; simpl; intros Hall; [eauto|].
  destruct (deref_lt h c (Hall c (or_introl eq_refl))) as (fc & _ & ->). simpl.
  destruct IH as [more ->]; [intros c' Hc'; apply Hall; now right|].
  simpl. eauto.
Qed.

(** ** Commands as transitions *)

Lemma is_directory_update (h : list VirtualFile) (p : nat) (d d' : VirtualFile)
    (r : nat) :
  h !! p = Some d -> name d' = name d -> is_dir d' = is_dir d ->
  is_directory h r -> is_directory (<[p := d']> h) r.
Proof.
  intros Hp Hn Hd (f & Hf & Hdir).
  destruct (lookup_update_name h p d d' r f Hp Hn Hd Hf) as (f' & H1 & _ & H2).
  exists f'. split; [exact H1|congruence].
Qed.

Lemma transition_session_ok (b : bool) (s s' : VirtualFileSystem) :
  transition b s s' -> session_ok s -> session_ok s'.
Proof.
  intros Htr [Hwf Hroot Hcwd]. destruct Htr as [|t Ht Hreach|t f mode Ht|p d k _ Hp].
  - split; auto.
  - split; simpl; auto. apply wf_set_cwd; [exact Hwf|].
    destruct Ht as (f & Hf & _). eapply lookup_lt_Some; eauto.
  - split; simpl.
    + apply wf_update with f; auto.
      apply (wf_keys _ (wf_heap s Hwf) t f Ht).
    + apply is_directory_update with f; auto.
    + apply is_directory_update with f; auto.
  - split; simpl.
    + apply wf_update with d; auto.
      * intros e. apply dict_del_In.
      * apply dict_del_keys. apply (wf_keys _ (wf_heap s Hwf) p d Hp).
    + apply is_directory_update with d; auto.
    + apply is_directory_update with d; auto.
Qed.

Lemma transition_frame (b : bool) (s s' : VirtualFileSystem) :
  transition b s s' ->
  length (heap s') = length (heap s) /\ root s' = root s.
Proof.
  intros [|t Ht Hreach|t f mode Ht|p d k _ Hp]; simpl;
    rewrite ?length_insert; auto.
Qed.

Lemma is_child_chmod (h : list VirtualFile) (t : nat) (f : VirtualFile) (mode : Z)
    (q : nat) (k : string) (c : nat) :
  h !! t = Some f -> is_child h q k c ->
  is_child (<[t := set_permissions f mode]> h) q k c.
Proof.
  intros Ht (g & Hg & HIn). destruct (Nat.eq_dec t q) as [->|Hne].
  - exists (set_permissions f mode).
    rewrite list_lookup_insert_eq by (eapply lookup_lt_Some; eauto).
    split; [reflexivity|]. simpl. congruence.
  - exists g. rewrite list_lookup_insert_ne by exact Hne. auto.
Qed.

Lemma reachable_chmod (h : list VirtualFile) (t : nat) (f : VirtualFile) (mode : Z)
    (a b : nat) :
  h !! t = Some f -> reachable h a b ->
  reachable (<[t := set_permissions f mode]> h) a b.
Proof.
  intros Ht. induction 1 as [|b k c Hab IH Hbc]; [constructor|].
  econstructor; [exact IH|]. apply is_child_chmod; eauto.
Qed.

Lemma transition_weaken (s s' : VirtualFileSystem) (b : bool) :
  transition false s s' -> transition b s s'.
Proof.
  intros [|t Ht Hreach|t f mode Ht|p d k Hb Hp].
  - constructor.
  - now constructor.
  - now constructor.
  - discriminate.
Qed.

Lemma ls_transition (fuel : nat) (s : VirtualFileSystem) (args : list string) :
  wf s -> length (heap s) <= fuel ->
  exists out, ls fuel s args = Ret (s, out).
Proof.
  intros Hwf Hfuel. pose proof (wf_heap s Hwf) as Hst.
  assert (Hlist : forall t out0, t < length (heap s) ->
            exists out,
              bind (deref (heap s) t) (fun d =>
                if has_permission d "r"
                then bind (print_names (heap s) (dict_values (children d)))
                       (fun names => Ret (s, out0 ++ names))
                else Ret (s, out0 ++ ["ls: cannot open directory '" +:+ name d
                                        +:+ "': Permission denied"]))
              = Ret (s, out)).
  { intros t out0 Ht. destruct (deref_lt (heap s) t Ht) as (d & Hd & ->). simpl.
    destruct (has_permission d "r"); [|eauto].
    destruct (print_names_total (heap s) (dict_values (children d))) as [names ->].
    - intros c HIn. apply dict_values_In in HIn as [k HIn].
      apply (wf_ordered _ Hst t k c). exists d. auto.
    - simpl. eauto. }
  unfold ls, _get_target_dir. destruct args as [|arg rest].
  - exact (Hlist (cwd s) [] (wf_cwd s Hwf)).
  - destruct (navigate_path_spec s fuel arg false Hwf Hfuel) as (r & -> & Hprop).
    simpl. destruct r as [t|]; [|simpl; eauto].
    destruct (Hprop t eq_refl) as [Ht _].
    destruct (deref_lt (heap s) t Ht) as (d & Hd & Hderef). rewrite Hderef. simpl.
    destruct (is_dir d); simpl; [|eauto].
    specialize (Hlist t [] Ht). rewrite Hderef in Hlist |- *. simpl in Hlist |- *.
    exact Hlist.
Qed.

Lemma cd_transition (fuel : nat) (s : VirtualFileSystem) (args : list string) :
  session_ok s -> length (heap s) <= fuel ->
  exists s' out, cd fuel s args = Ret (s', out) /\ transition false s s'.
Proof.
  intros [Hwf Hroot Hcwd] Hfuel. unfold cd. destruct args as [|arg rest].
  - exists (set_cwd s (root s)), []. split; [reflexivity|].
    apply tr_cd; [exact Hroot|]. intros _. constructor.
  - destruct (navigate_path_spec s fuel arg false Hwf Hfuel) as (r & -> & Hprop).
    simpl. destruct r as [t|]; [|exists s; eexists; split; [reflexivity|constructor]].
    destruct (Hprop t eq_refl) as [Ht Hreach].
    destruct (deref_lt (heap s) t Ht) as (d & Hd & ->). simpl.
    destruct (is_dir d) eqn:Hdir;
      [|exists s; eexists; split; [reflexivity|constructor]].
    destruct (has_permission d "x");
      [|exists s; eexists; split; [reflexivity|constructor]].
    exists (set_cwd s t), []. split; [reflexivity|].
    apply tr_cd; [exists d; auto|exact Hreach].
Qed.

Lemma rm_transition (fuel : nat) (s : VirtualFileSystem) (args : list string) :
  wf s -> length (heap s) <= fuel ->
  exists s' out, rm fuel s args = Ret (s', out) /\ transition true s s'.
Proof.
  intros Hwf Hfuel. unfold rm. destruct args as [|path rest].
  - exists s. eexists. split; [reflexivity|constructor].
  - destruct (navigate_path_spec s fuel path true Hwf Hfuel) as (r & -> & Hprop).
    simpl. destruct r as [p|]; [|exists s; eexists; split; [reflexivity|constructor]].
    destruct (Hprop p eq_refl) as [Hp _].
    destruct (deref_lt (heap s) p Hp) as (d & Hd & ->). simpl.
    destruct (dict_mem (basename path) (children d));
      [|exists s; eexists; split; [reflexivity|constructor]].
    destruct (has_permission d "w");
      [|exists s; eexists; split; [reflexivity|constructor]].
    eexists. eexists. split; [reflexivity|]. now apply tr_rm.
Qed.

Lemma find_transition (fuel : nat) (s : VirtualFileSystem) (args : list string) :
  wf s -> length (heap s) <= fuel ->
  exists out, find fuel s args = Ret (s, out).
Proof.
  intros Hwf Hfuel. unfold find.
  destruct (find_recursive_total (heap s)
              (match args with [] => EmptyString | a :: _ => a end)
              (wf_heap s Hwf) fuel (cwd s) "." (wf_cwd s Hwf) ltac:(lia))
    as [out ->].
  simpl. eauto.
Qed.

(** ** Allocation of one child *)

Section Alloc.

Variables (h : list VirtualFile) (cur : nat) (d : VirtualFile) (nm : string)
  (file_info : ZipInfo).
Hypothesis Hcur : h !! cur = Some d.
Hypothesis Hfresh : dict_get nm (children d) = None.

Local Abbreviation node :=
  (mkVirtualFile nm (info_is_dir file_info) (entry_permissions file_info) []).
Local Abbreviation h2 := (alloc_child h cur d nm file_info).

Lemma alloc_length : length h2 = S (length h).
Proof using Type.
  unfold alloc_child. rewrite length_insert, length_app. simpl. lia.
Qed.

Lemma alloc_lookup (q : nat) :
  h2 !! q =
    if Nat.eqb q cur then Some (set_children d (children d ++ [(nm, length h)]))
    else if Nat.eqb q (length h) then Some node
    else h !! q.
Proof using Hcur Hfresh.
  pose proof (lookup_lt_Some _ _ _ Hcur) as Hlt.
  unfold alloc_child. rewrite (dict_set_fresh _ _ _ Hfresh).
  destruct (Nat.eqb_spec q cur) as [->|Hne].
  - rewrite list_lookup_insert_eq; [reflexivity|]. rewrite length_app. simpl. lia.
  - rewrite list_lookup_insert_ne by congruence.
    destruct (Nat.eqb_spec q (length h)) as [->|Hne2].
    + rewrite lookup_app_r by lia. now rewrite Nat.sub_diag.
    + destruct (Nat.lt_ge_cases q (length h)) as [Hq|Hq].
      * now rewrite lookup_app_l by exact Hq.
      * rewrite lookup_app_r by lia.
        rewrite (lookup_ge_None_2 h q) by lia.
        apply lookup_ge_None_2. simpl. lia.
Qed.

Lemma alloc_lookup_old (q : nat) (f : VirtualFile) :
  h !! q = Some f ->
  exists f', h2 !! q = Some f' /\ name f' = name f /\ is_dir f' = is_dir f /\
             permissions f' = permissions f /\
             exists more, children f' = children f ++ more.
Proof using Hcur Hfresh.
  intros Hq. rewrite alloc_lookup.
  destruct (Nat.eqb_spec q cur) as [->|Hne].
  - replace f with d by congruence. eexists. split; [reflexivity|]. simpl. eauto 6.
  - destruct (Nat.eqb_spec q (length h)) as [->|Hne2].
    + apply lookup_lt_Some in Hq. lia.
    + exists f. repeat split; auto. exists []. now rewrite app_nil_r.
Qed.

Lemma alloc_is_child (q : nat) (k : string) (c : nat) :
  is_child h2 q k c <->
  is_child h q k c \/ (q = cur /\ k = nm /\ c = length h).
Proof using Hcur Hfresh.
  unfold is_child. split.
  - intros (f & Hf & HIn). rewrite alloc_lookup in Hf.
    destruct (Nat.eqb_spec q cur) as [->|Hne].
    + injection Hf as <-. simpl in HIn. apply in_app_or in HIn as [HIn|[[= <- <-]|[]]].
      * left. eauto.
      * right. auto.
    + destruct (Nat.eqb_spec q (length h)) as [->|Hne2].
      * injection Hf as <-. destruct HIn.
      * left. eauto.
  - intros [(f & Hf & HIn)|(-> & -> & ->)].
    + destruct (alloc_lookup_old q f Hf) as (f' & Hf' & _ & _ & _ & more & Hch).
      exists f'. split; [exact Hf'|]. rewrite Hch. apply in_or_app. now left.
    + eexists. rewrite alloc_lookup, Nat.eqb_refl. split; [reflexivity|].
      simpl. apply in_or_app. right. now left.
Qed.

Lemma alloc_wf : wf_store h -> wf_store h2.
Proof using Hcur Hfresh.
  intros Hwf. pose proof (lookup_lt_Some _ _ _ Hcur) as Hlt. split.
  - intros p k c Hch. rewrite alloc_length.
    apply alloc_is_child in Hch as [Hch|(-> & -> & ->)]; [|lia].
    apply (wf_ordered h Hwf) in Hch. lia.
  - intros p k c Hch. apply alloc_is_child in Hch as [Hch|(-> & -> & ->)].
    + destruct (wf_names h Hwf p k c Hch) as (fc & Hfc & Hname).
      destruct (alloc_lookup_old c fc Hfc) as (fc' & H1 & H2 & _).
      exists fc'. split; [exact H1|congruence].
    + exists node. rewrite alloc_lookup.
      destruct (Nat.eqb_spec (length h) cur) as [E|_]; [lia|].
      now rewrite Nat.eqb_refl.
  - intros p f Hf. rewrite alloc_lookup in Hf.
    destruct (Nat.eqb_spec p cur) as [->|Hne].
    + injection Hf as <-. simpl. unfold dict_keys. rewrite map_app. simpl.
      apply List.NoDup_app; [apply (wf_keys h Hwf cur d Hcur)| |].
      * repeat constructor; simpl; tauto.
      * intros x Hx [<-|[]]. now apply dict_get_None in Hfresh.
    + destruct (Nat.eqb_spec p (length h)) as [->|Hne2].
      * injection Hf as <-. constructor.
      * apply (wf_keys h Hwf p f Hf).
  - intros p1 k1 p2 k2 c H1 H2.
    apply alloc_is_child in H1 as [H1|(E1 & _ & Ec1)];
      apply alloc_is_child in H2 as [H2|(E2 & _ & Ec2)].
    + apply (wf_parent h Hwf p1 k1 p2 k2 c); auto.
    + apply (wf_ordered h Hwf) in H1. lia.
    + apply (wf_ordered h Hwf) in H2. lia.
    + congruence.
Qed.

End Alloc.

(** ** [_add_file] extends the store *)

Lemma extends_refl (P : bool -> Z -> Prop) (h : list VirtualFile) : extends P h h.
Proof.
  split.
  - lia.
  - intros q f Hf. exists f. repeat split; auto. exists []. now rewrite app_nil_r.
  - intros q f' Hf Hq. apply lookup_lt_Some in Hf. lia.
  - auto.
Qed.

Lemma extends_trans (P : bool -> Z -> Prop) (h h1 h2 : list VirtualFile) :
  extends P h h1 -> extends P h1 h2 -> extends P h h2.
Proof.
  intros [L1 O1 N1 C1] [L2 O2 N2 C2]. split.
  - lia.
  - intros q f Hf.
    destruct (O1 q f Hf) as (f1 & Hf1 & Hn1 & Hd1 & Hp1 & m1 & Hc1).
    destruct (O2 q f1 Hf1) as (f2 & Hf2 & Hn2 & Hd2 & Hp2 & m2 & Hc2).
    exists f2. repeat split; try congruence.
    exists (m1 ++ m2). now rewrite Hc2, Hc1, app_assoc.
  - intros q f2 Hf2 Hq. destruct (Nat.lt_ge_cases q (length h1)) as [Hlt|Hge].
    + destruct (lookup_lt_is_Some_2 h1 q Hlt) as [f1 Hf1].
      destruct (O2 q f1 Hf1) as (f2' & Hf2' & _ & Hd2 & Hp2 & _).
      replace f2 with f2' by congruence. rewrite Hd2, Hp2. eauto.
    + eauto.
  - intros q k c Hch. destruct (C2 q k c Hch) as [Hch1|Hc]; [|right; lia].
    destruct (C1 q k c Hch1) as [Hch0|Hc]; auto.
Qed.

Lemma extends_weaken (P Q : bool -> Z -> Prop) (h h' : list VirtualFile) :
  (forall b m, P b m -> Q b m) -> extends P h h' -> extends Q h h'.
Proof. intros HPQ [L O N C]. split; eauto. Qed.

Lemma alloc_extends (h : list VirtualFile) (cur : nat) (d : VirtualFile)
    (nm : string) (file_info : ZipInfo) :
  h !! cur = Some d -> dict_get nm (children d) = None ->
  extends (from_entry file_info) h (alloc_child h cur d nm file_info).
Proof.
  intros Hcur Hfresh. split.
  - rewrite alloc_length. lia.
  - intros q f Hf. now apply alloc_lookup_old.
  - intros q f' Hf Hq. rewrite (alloc_lookup h cur d nm file_info Hcur Hfresh) in Hf.
    pose proof (lookup_lt_Some _ _ _ Hcur) as Hlt.
    destruct (Nat.eqb_spec q cur) as [->|_]; [lia|].
    destruct (Nat.eqb_spec q (length h)) as [->|Hne].
    + injection Hf as <-. split; reflexivity.
    + apply lookup_lt_Some in Hf. lia.
  - intros q k c Hch.
    apply (alloc_is_child h cur d nm file_info Hcur Hfresh) in Hch
      as [Hch|(_ & _ & ->)]; auto.
Qed.

Lemma add_file_extends (file_info : ZipInfo) (parts : list string) :
  forall (h : list VirtualFile) (cur : nat),
    wf_store h -> cur < length h ->
    exists h', _add_file h cur parts file_info = Ret h' /\
               wf_store h' /\ extends (from_entry file_info) h h'.
Proof.
  induction parts as [|nm rest IH]; intros h cur Hwf Hcur; simpl.
  - exists h. auto using extends_refl.
  - destruct (deref_lt h cur Hcur) as (d & Hd & ->). simpl.
    destruct (dict_get nm (children d)) as [c|] eqn:Hget.
    + apply IH; [exact Hwf|]. apply dict_get_In in Hget.
      apply (wf_ordered h Hwf cur nm c). exists d. auto.
    + change (<[cur := set_children d (dict_set nm (length h) (children d))]>
                (h ++ [mkVirtualFile nm (info_is_dir file_info)
                         (entry_permissions file_info) []]))
        with (alloc_child h cur d nm file_info).
      destruct (IH (alloc_child h cur d nm file_info) (length h)) as (h' & H1 & H2 & H3).
      * now apply alloc_wf.
      * rewrite alloc_length. lia.
      * exists h'. split; [exact H1|]. split; [exact H2|].
        eapply extends_trans; [|exact H3]. now apply alloc_extends.
Qed.

(** ** [load_zip] and start-up *)

Lemma load_zip_extends (infolist : list ZipInfo) :
  forall (h : list VirtualFile) (rt : nat),
    wf_store h -> rt < length h ->
    exists h', load_zip h rt infolist = Ret h' /\
               wf_store h' /\ extends (from_entries infolist) h h'.
Proof.
  induction infolist as [|file_info more IH]; intros h rt Hwf Hrt; simpl.
  - exists h. auto using extends_refl.
  - destruct (add_file_extends file_info
                (split_slash (strip_slash (filename file_info))) h rt Hwf Hrt)
      as (h1 & -> & Hwf1 & Hext1).
    simpl. destruct (IH h1 rt Hwf1) as (h' & H1 & H2 & H3).
    { pose proof (ext_length _ _ _ Hext1). lia. }
    exists h'. split; [exact H1|]. split; [exact H2|].
    apply extends_trans with h1.
    + apply extends_weaken with (from_entry file_info); [|exact Hext1].
      intros b m Hbm. exists file_info. split; [now left|exact Hbm].
    + apply extends_weaken with (from_entries more); [|exact H3].
      intros b m (r & Hr & Hbm). exists r. split; [now right|exact Hbm].
Qed.

Lemma wf_store_root_node : wf_store [root_node].
Proof.
  assert (Hno : forall p k c, ~ is_child [root_node] p k c).
  { intros p k c (f & Hf & HIn). destruct p as [|p]; simpl in Hf.
    - injection Hf as <-. destruct HIn.
    - discriminate. }
  split.
  - intros p k c Hch. now apply Hno in Hch.
  - intros p k c Hch. now apply Hno in Hch.
  - intros p f Hf. destruct p as [|p]; simpl in Hf; [|discriminate].
    injection Hf as <-. constructor.
  - intros p1 k1 p2 k2 c Hch. now apply Hno in Hch.
Qed.

Lemma init_spec (infolist : list ZipInfo) :
  exists s, VirtualFileSystem_init infolist = Ret s /\ session_ok s /\
            root s = 0 /\ cwd s = 0 /\
            extends (from_entries infolist) [root_node] (heap s).
Proof.
  unfold VirtualFileSystem_init.
  destruct (load_zip_extends infolist [root_node] 0 wf_store_root_node)
    as (h & -> & Hwf & Hext); [simpl; lia|].
  simpl. eexists. split; [reflexivity|].
  pose proof (ext_length _ _ _ Hext) as Hlen. simpl in Hlen.
  destruct (ext_old _ _ _ Hext 0 root_node eq_refl) as (f & Hf & _ & Hdir & _).
  assert (Hrootdir : is_directory h 0) by (exists f; auto).
  split; [|auto]. split; simpl; [|exact Hrootdir|exact Hrootdir].
  split; simpl; [exact Hwf|lia| |lia].
  intros p k Hch.
  apply (ext_child _ _ _ Hext) in Hch as [(g & Hg & HIn)|Hc]; [|simpl in Hc; lia].
  destruct p as [|p]; simpl in Hg; [|discriminate].
  injection Hg as <-. destruct HIn.
Qed.

(** ** What commands leave alone *)

Lemma ls_state (fuel : nat) (s s' : VirtualFileSystem) (args out : list string) :
  ls fuel s args = Ret (s', out) -> s' = s.
Proof.
  unfold ls. intros H. ret_cases H; congruence.
Qed.

Lemma find_state (fuel : nat) (s s' : VirtualFileSystem) (args out : list string) :
  find fuel s args = Ret (s', out) -> s' = s.
Proof.
  unfold find. intros H. ret_cases H; congruence.
Qed.

Lemma rm_cursor (fuel : nat) (s s' : VirtualFileSystem) (args out : list string) :
  rm fuel s args = Ret (s', out) -> cwd s' = cwd s /\ root s' = root s.
Proof.
  unfold rm. intros H. ret_cases H; injection H as <- <-; auto.
Qed.

Section ShellFacts.

Variable int_base8 : string -> option Z.

Lemma chmod_cursor (fuel : nat) (s s' : VirtualFileSystem) (args out : list string) :
  chmod int_base8 fuel s args = Ret (s', out) -> cwd s' = cwd s /\ root s' = root s.
Proof.
  unfold chmod. intros H. ret_cases H; injection H as <- <-; auto.
Qed.

Lemma chmod_transition (fuel : nat) (s : VirtualFileSystem) (args : list string) :
  wf s -> length (heap s) <= fuel ->
  exists s' out, chmod int_base8 fuel s args = Ret (s', out) /\ transition false s s'.
Proof.
  intros Hwf Hfuel. unfold chmod.
  destruct args as [|mode_text [|path [|x rest]]];
    try (exists s; eexists; split; [reflexivity|constructor]).
  destruct (int_base8 mode_text) as [mode|];
    [|exists s; eexists; split; [reflexivity|constructor]].
  destruct (navigate_path_spec s fuel path false Hwf Hfuel) as (r & -> & Hprop).
  simpl. destruct r as [t|]; [|exists s; eexists; split; [reflexivity|constructor]].
  destruct (Hprop t eq_refl) as [Ht _].
  destruct (deref_lt (heap s) t Ht) as (f & Hf & ->). simpl.
  destruct (has_permission f "w");
    [|exists s; eexists; split; [reflexivity|constructor]].
  eexists. eexists. split; [reflexivity|]. now apply tr_chmod.
Qed.

Variable shlex_split : string -> option (list string).

Lemma execute_command_transition (fuel : nat) (s : VirtualFileSystem)
    (command_line : string) (args : list string) :
  session_ok s -> length (heap s) <= fuel ->
  shlex_split command_line = Some args -> command_name args <> "exit" ->
  exists s' out,
    execute_command int_base8 shlex_split fuel s command_line = Ret (s', out) /\
    transition (String.eqb (command_name args) "rm") s s'.
Proof.
  intros Hok Hfuel Hsplit Hexit. pose proof (ok_wf s Hok) as Hwf.
  unfold execute_command. rewrite Hsplit.
  destruct args as [|command rest]; simpl in *.
  - exists s, []. split; [reflexivity|constructor].
  - unfold builtins. destruct (String.eqb command "ls") eqn:E1.
    { destruct (ls_transition fuel s rest Hwf Hfuel) as [out ->].
      exists s, out. split; [reflexivity|constructor]. }
    destruct (String.eqb command "cd") eqn:E2.
    { destruct (cd_transition fuel s rest Hok Hfuel) as (s' & out & -> & Htr).
      exists s', out. split; [reflexivity|]. now apply transition_weaken. }
    destruct (String.eqb_spec command "exit") as [E3|E3]; [contradiction|].
    destruct (String.eqb command "chmod") eqn:E4.
    { destruct (chmod_transition fuel s rest Hwf Hfuel) as (s' & out & -> & Htr).
      exists s', out. split; [reflexivity|]. now apply transition_weaken. }
    destruct (String.eqb command "rm") eqn:E5.
    { destruct (rm_transition fuel s rest Hwf Hfuel) as (s' & out & -> & Htr).
      exists s', out. split; [reflexivity|exact Htr]. }
    destruct (String.eqb command "find") eqn:E6.
    { destruct (find_transition fuel s rest Hwf Hfuel) as [out ->].
      exists s, out. split; [reflexivity|constructor]. }
    exists s. eexists. split; [reflexivity|constructor].
Qed.

Lemma execute_command_cursor (fuel : nat) (s s' : VirtualFileSystem)
    (command_line : string) (args out : list string) :
  shlex_split command_line = Some args -> command_name args <> "cd" ->
  execute_command int_base8 shlex_split fuel s command_line = Ret (s', out) ->
  cwd s' = cwd s.
Proof.
  intros Hsplit Hcd. unfold execute_command. rewrite Hsplit.
  destruct args as [|command rest]; simpl in *.
  - now intros [= <- <-].
  - unfold builtins. destruct (String.eqb command "ls") eqn:E1.
    { intros H. apply ls_state in H. now subst. }
    destruct (String.eqb_spec command "cd") as [E2|E2]; [contradiction|].
    destruct (String.eqb command "exit") eqn:E3; [discriminate|].
    destruct (String.eqb command "chmod") eqn:E4.
    { intros H. now apply chmod_cursor in H. }
    destruct (String.eqb command "rm") eqn:E5.
    { intros H. now apply rm_cursor in H. }
    destruct (String.eqb command "find") eqn:E6.
    { intros H. apply find_state in H. now subst. }
    now intros [= <- <-].
Qed.

Lemma run_script_spec (fuel : nat) (script : list string) :
  forall s, session_ok s -> length (heap s) <= fuel ->
    Forall (invokes shlex_split (fun command => command <> "exit")) script ->
    exists s' out,
      run_script int_base8 shlex_split fuel s script = Ret (s', out) /\
      session_ok s' /\ length (heap s') = length (heap s) /\ root s' = root s.
Proof.
  induction script as [|line more IH]; intros s Hok Hfuel Hexit; simpl.
  - exists s, []. auto.
  - apply Forall_cons_iff in Hexit as [(args & Hsplit & Hargs) Hmore].
    destruct (execute_command_transition fuel s (strip line) args Hok Hfuel
                Hsplit Hargs) as (s1 & out1 & -> & Htr).
    simpl. pose proof (transition_session_ok _ _ _ Htr Hok) as Hok1.
    destruct (transition_frame _ _ _ Htr) as [Hlen1 Hroot1].
    destruct (IH s1 Hok1 ltac:(lia) Hmore) as (s2 & out2 & -> & Hok2 & Hlen2 & Hroot2).
    simpl. exists s2, (out1 ++ out2). split; [reflexivity|].
    split; [exact Hok2|]. split; [lia|congruence].
Qed.

End ShellFacts.

(** ** Trailing separators *)

Lemma endswith_has_slash (p : string) :
  endswith_slash p = true -> existsb is_slash (list_ascii_of_string p) = true.
Proof.
  induction p as [|c p IH]; simpl; [discriminate|].
  destruct p as [|c' p'].
  - intros ->. reflexivity.
  - intros H. rewrite (IH H). apply orb_true_r.
Qed.

(** The basename of a path that ends in the separator is empty. *)
Lemma basename_trailing_slash (p : string) :
  endswith_slash p = true -> basename p = EmptyString.
Proof.
  induction p as [|c p IH]; simpl; [discriminate|].
  destruct p as [|c' p'].
  - intros ->. reflexivity.
  - intros H. rewrite (endswith_has_slash _ H). auto.
Qed.

Lemma wf_readonly_root_state : wf readonly_root_state.
Proof.
  assert (Hch : forall p k c, is_child (heap readonly_root_state) p k c ->
            In (p, k, c) [(0, "file1.txt", 1); (0, "dir1", 2); (2, "file2.txt", 3);
                          (2, "subdir1", 4); (4, "file3.txt", 5)]).
  { intros p k c (f & Hf & HIn). simpl in Hf.
    do 6 (destruct p as [|p]; simpl in Hf;
          [injection Hf as <-; simpl in HIn; simpl;
           intuition (try congruence)|]).
    discriminate. }
  split; [split| | |]; simpl; try lia.
  - intros p k c H. apply Hch in H. simpl in H.
    intuition (match goal with E : (_, _, _) = _ |- _ => injection E as <- <- <- end;
               simpl; lia).
  - intros p k c H. apply Hch in H. simpl in H.
    intuition (match goal with E : (_, _, _) = _ |- _ => injection E as <- <- <- end;
               simpl; eauto).
  - intros p f Hf.
    do 6 (destruct p as [|p]; simpl in Hf;
          [injection Hf as <-; simpl; repeat constructor; simpl;
           intuition discriminate|]).
    discriminate.
  - intros p1 k1 p2 k2 c H1 H2. apply Hch in H1. apply Hch in H2. simpl in *.
    intuition congruence.
  - intros p k H. apply Hch in H. simpl in H. intuition discriminate.
Qed.

(** ** Text of paths *)

Lemma string_app_cons (c : ascii) (a b : string) :
  String c a +:+ b = String c (a +:+ b).
Proof. reflexivity. Qed.

Lemma string_app_nil_l (a : string) : EmptyString +:+ a = a.
Proof. reflexivity. Qed.

Lemma string_app_nil_r (a : string) : a +:+ EmptyString = a.
Proof.
  induction a as [|c a IH]; [reflexivity|]. now rewrite string_app_cons, IH.
Qed.

Lemma string_app_assoc (a b c : string) : (a +:+ b) +:+ c = a +:+ (b +:+ c).
Proof.
  induction a as [|x a IH]; [reflexivity|]. now rewrite !string_app_cons, IH.
Qed.

Lemma split_slash_cons (s : string) : exists w ws, split_slash s = w :: ws.
Proof.
  induction s as [|c s (w & ws & IH)]; simpl; [eauto|].
  destruct (is_slash c); [eauto|]. rewrite IH. eauto.
Qed.

Lemma split_slash_app (k s : string) :
  existsb is_slash (list_ascii_of_string k) = false ->
  split_slash (k +:+ s) =
    (k +:+ hd EmptyString (split_slash s)) :: tl (split_slash s).
Proof.
  induction k as [|c k IH]; simpl.
  - intros _. rewrite string_app_nil_l.
    destruct (split_slash_cons s) as (w & ws & ->). reflexivity.
  - intros H. apply orb_false_elim in H as [Hc Hk].
    rewrite string_app_cons. simpl. rewrite Hc, (IH Hk). reflexivity.
Qed.

Lemma plain_name_spec (k : string) :
  plain_name k = true ->
  k <> EmptyString /\ String.eqb k EmptyString = false /\
  String.eqb k "." = false /\ String.eqb k ".." = false /\
  existsb is_slash (list_ascii_of_string k) = false.
Proof.
  unfold plain_name. intros H.
  apply andb_true_iff in H as [H H4]. apply andb_true_iff in H as [H H3].
  apply andb_true_iff in H as [H1 H2].
  apply negb_true_iff in H1, H2, H3, H4. repeat split; auto.
  intros ->. discriminate.
Qed.

Lemma split_abs_path (k : string) (ks : list string) :
  forallb plain_name (k :: ks) = true ->
  split_slash (k +:+ abs_path ks) = k :: ks.
Proof.
  revert k. induction ks as [|k2 ks IH]; intros k H; simpl in H.
  - apply andb_true_iff in H as [Hk _].
    destruct (plain_name_spec k Hk) as (_ & _ & _ & _ & Hns).
    simpl. rewrite split_slash_app by exact Hns. simpl.
    now rewrite string_app_nil_r.
  - apply andb_true_iff in H as [Hk Hrest].
    destruct (plain_name_spec k Hk) as (_ & _ & _ & _ & Hns).
    rewrite split_slash_app by exact Hns.
    change (abs_path (k2 :: ks)) with (String slash (k2 +:+ abs_path ks)).
    simpl. rewrite (IH k2 Hrest). simpl. now rewrite string_app_nil_r.
Qed.

Lemma rstrip_slash_id (s : string) :
  endswith_slash s = false -> rstrip_slash s = s.
Proof.
  induction s as [|c s IH]; simpl; [reflexivity|].
  destruct s as [|c' s'].
  - intros ->. reflexivity.
  - intros H. rewrite (IH H). reflexivity.
Qed.

Lemma endswith_slash_app (a b : string) :
  b <> EmptyString -> endswith_slash (a +:+ b) = endswith_slash b.
Proof.
  intros Hb. induction a as [|c a IH]; [reflexivity|].
  rewrite string_app_cons. simpl.
  destruct (a +:+ b) eqn:E; [|exact IH].
  destruct a; [rewrite string_app_nil_l in E; contradiction|discriminate].
Qed.

Lemma endswith_slash_plain (k : string) :
  existsb is_slash (list_ascii_of_string k) = false -> endswith_slash k = false.
Proof.
  intros H. destruct (endswith_slash k) eqn:E; [|reflexivity].
  apply endswith_has_slash in E. congruence.
Qed.

Lemma endswith_abs_path (k : string) (ks : list string) :
  forallb plain_name (k :: ks) = true ->
  endswith_slash (k +:+ abs_path ks) = false.
Proof.
  revert k. induction ks as [|k2 ks IH]; intros k H; simpl in H.
  - apply andb_true_iff in H as [Hk _].
    destruct (plain_name_spec k Hk) as (_ & _ & _ & _ & Hns).
    simpl. rewrite string_app_nil_r. now apply endswith_slash_plain.
  - apply andb_true_iff in H as [Hk Hrest].
    rewrite endswith_slash_app.
    + change (abs_path (k2 :: ks)) with (String slash (k2 +:+ abs_path ks)).
      simpl. pose proof (IH k2 Hrest) as IH2.
      destruct (k2 +:+ abs_path ks) eqn:E; [|exact IH2].
      simpl in Hrest. apply andb_true_iff in Hrest as [Hk2 _].
      destruct (plain_name_spec k2 Hk2) as (Hne & _).
      destruct k2; [contradiction|discriminate].
    + discriminate.
Qed.

(** The text that [_get_path] builds splits back into its names. *)
Lemma parts_of_abs_path (k : string) (ks : list string) :
  forallb plain_name (k :: ks) = true ->
  startswith_slash (abs_path (k :: ks)) = true /\
  split_slash (strip_slash (abs_path (k :: ks))) = k :: ks.
Proof.
  intros H. split; [reflexivity|].
  assert (Hk : plain_name k = true) by (simpl in H; now apply andb_true_iff in H).
  destruct (plain_name_spec k Hk) as (Hne & _ & _ & _ & Hns).
  unfold strip_slash.
  change (abs_path (k :: ks)) with (String slash (k +:+ abs_path ks)).
  simpl. destruct k as [|c k']; [contradiction|].
  simpl in Hns. apply orb_false_elim in Hns as [Hc _].
  rewrite string_app_cons. simpl. rewrite Hc. rewrite <- string_app_cons.
  rewrite rstrip_slash_id by (now apply endswith_abs_path).
  now apply split_abs_path.
Qed.

(** ** Path reconstruction *)

Lemma resolve_dirs_resolve (h : list VirtualFile) (ks : list string) :
  forall a n, resolve_dirs h a ks = Some n -> resolve h a ks = Some n.
Proof.
  induction ks as [|k rest IH]; intros a n; simpl; [auto|].
  destruct (h !! a) as [d|]; [|discriminate].
  destruct (dict_get k (children d)) as [c|]; [|discriminate].
  destruct rest as [|k2 rest']; [now intros [= <-]|].
  destruct (h !! c) as [fc|]; [|discriminate].
  destruct (is_dir fc); [|discriminate]. apply IH.
Qed.

Lemma resolve_reachable (h : list VirtualFile) (ks : list string) :
  forall a n, resolve h a ks = Some n -> reachable h a n.
Proof.
  induction ks as [|k rest IH]; intros a n; simpl.
  - intros [= <-]. constructor.
  - destruct (h !! a) as [d|] eqn:Hd; [|discriminate].
    destruct (dict_get k (children d)) as [c|] eqn:Hget; [|discriminate].
    intros H. apply reachable_trans with c; [|now apply IH].
    apply reach_step with a k; [constructor|].
    exists d. split; [exact Hd|]. now apply dict_get_In.
Qed.

Lemma resolve_depth (h : list VirtualFile) (ks : list string) :
  wf_store h ->
  forall a n, resolve h a ks = Some n -> a + length ks <= n.
Proof.
  intros Hwf. induction ks as [|k rest IH]; intros a n; simpl.
  - intros [= <-]. lia.
  - destruct (h !! a) as [d|] eqn:Hd; [|discriminate].
    destruct (dict_get k (children d)) as [c|] eqn:Hget; [|discriminate].
    intros H. apply IH in H. apply dict_get_In in Hget.
    assert (Hch : is_child h a k c) by (exists d; auto).
    apply (wf_ordered h Hwf) in Hch. lia.
Qed.

Lemma navigate_loop_plain (s : VirtualFileSystem) (fuel : nat) (ks : list string) :
  forallb plain_name ks = true ->
  forall a n, resolve (heap s) a ks = Some n ->
    navigate_loop fuel s a ks = Ret (Some n).
Proof.
  induction ks as [|k rest IH]; intros Hplain a n; simpl.
  - now intros [= <-].
  - simpl in Hplain. apply andb_true_iff in Hplain as [Hk Hrest].
    destruct (plain_name_spec k Hk) as (_ & -> & -> & -> & _). simpl.
    unfold deref. destruct (heap s !! a) as [d|]; [|discriminate]. simpl.
    destruct (dict_get k (children d)) as [c|]; [|discriminate].
    now apply IH.
Qed.

(** One turn of the loop of [_get_path]: from a child to the object that
    holds it. *)
Lemma get_path_step (s : VirtualFileSystem) (fuel steps : nat) (a c : nat)
    (k acc : string) :
  wf s -> length (heap s) <= fuel ->
  is_child (heap s) a k c -> dir_reachable (heap s) (root s) a ->
  get_path_loop (S steps) fuel s (Some c) acc =
  get_path_loop steps fuel s (Some a) ("/" +:+ k +:+ acc).
Proof.
  intros Hwf Hfuel Hch Hreach. pose proof (wf_heap s Hwf) as Hst. simpl.
  destruct (Nat.eqb_spec c (root s)) as [->|_].
  { now apply (wf_root_top s Hwf) in Hch. }
  destruct (wf_names _ Hst _ _ _ Hch) as (fc & Hfc & Hname).
  apply deref_Ret in Hfc. rewrite Hfc. simpl.
  rewrite (find_parent_exact (heap s) c a k fuel (root s) Hst Hch
             (wf_root s Hwf) ltac:(lia) Hreach).
  simpl. now rewrite Hname.
Qed.

Lemma get_path_climb (s : VirtualFileSystem) (fuel : nat) :
  wf s -> length (heap s) <= fuel ->
  forall ks a n acc steps,
    (ks <> [] -> dir_reachable (heap s) (root s) a) ->
    resolve_dirs (heap s) a ks = Some n ->
    get_path_loop (length ks + steps) fuel s (Some n) acc =
    get_path_loop steps fuel s (Some a) (abs_path ks +:+ acc).
Proof.
  intros Hwf Hfuel. induction ks as [|k rest IH]; intros a n acc steps Hreach.
  - simpl. now intros [= <-].
  - specialize (Hreach ltac:(discriminate)). simpl resolve_dirs.
    destruct (heap s !! a) as [d|] eqn:Hd; [|discriminate].
    destruct (dict_get k (children d)) as [c|] eqn:Hget; [|discriminate].
    assert (Hch : is_child (heap s) a k c).
    { exists d. split; [exact Hd|]. now apply dict_get_In. }
    change (abs_path (k :: rest)) with ("/" +:+ k +:+ abs_path rest).
    rewrite !string_app_assoc.
    destruct rest as [|k2 rest'].
    + intros [= <-]. simpl abs_path. rewrite string_app_nil_l.
      now apply get_path_step.
    + destruct (heap s !! c) as [fc|] eqn:Hfc; [|discriminate].
      destruct (is_dir fc) eqn:Hdir; [|discriminate]. intros Hres.
      replace (length (k :: k2 :: rest') + steps)
        with (length (k2 :: rest') + S steps) by (simpl; lia).
      rewrite (IH c n acc (S steps)); [|intros _|exact Hres].
      * now apply get_path_step.
      * eapply dreach_step; eauto.
Qed.

(** ** Paths in a growing store *)

Lemma is_prefix_spec (ks parts : list string) :
  is_prefix ks parts = true <-> exists post, parts = ks ++ post.
Proof.
  revert parts. induction ks as [|k ks IH]; intros parts; simpl.
  - split; eauto.
  - destruct parts as [|p parts].
    + split; [discriminate|]. intros [post H]. discriminate.
    + rewrite andb_true_iff, IH. split.
      * intros [Hk [post ->]]. apply String.eqb_eq in Hk as ->. eauto.
      * intros [post [= -> ->]]. split; [apply String.eqb_refl|eauto].
Qed.

Lemma dict_get_app (k : string) (d more : list (string * nat)) :
  dict_get k (d ++ more) =
    match dict_get k d with Some c => Some c | None => dict_get k more end.
Proof.
  induction d as [|[k' v] d IH]; simpl; [reflexivity|].
  now destruct (String.eqb k k').
Qed.

Lemma resolve_app (h : list VirtualFile) (s1 s2 : list string) :
  forall a, resolve h a (s1 ++ s2) =
    match resolve h a s1 with Some b => resolve h b s2 | None => None end.
Proof.
  induction s1 as [|k s1 IH]; intros a; simpl; [reflexivity|].
  destruct (h !! a) as [d|]; [|reflexivity].
  destruct (dict_get k (children d)); [apply IH|reflexivity].
Qed.

Lemma resolve_extends (P : bool -> Z -> Prop) (h h1 : list VirtualFile)
    (ks : list string) :
  extends P h h1 ->
  forall a n, resolve h a ks = Some n -> resolve h1 a ks = Some n.
Proof.
  intros Hext. induction ks as [|k rest IH]; intros a n; simpl; [auto|].
  destruct (h !! a) as [d|] eqn:Hd; [|discriminate].
  destruct (ext_old _ _ _ Hext a d Hd) as (d1 & -> & _ & _ & _ & more & ->).
  rewrite dict_get_app.
  destruct (dict_get k (children d)) as [c|]; [apply IH|discriminate].
Qed.

(** A path of the extended store that ends at an old object is a path of
    the old store. *)
Lemma resolve_old (P : bool -> Z -> Prop) (h h1 : list VirtualFile)
    (ks : list string) :
  wf_store h -> wf_store h1 -> extends P h h1 ->
  forall a n, a < length h -> resolve h1 a ks = Some n -> n < length h ->
    resolve h a ks = Some n.
Proof.
  intros Hwf Hwf1 Hext. induction ks as [|k rest IH]; intros a n Ha; simpl; [auto|].
  destruct (lookup_lt_is_Some_2 h a Ha) as [d Hd]. rewrite Hd.
  destruct (ext_old _ _ _ Hext a d Hd) as (d1 & Hd1 & _ & _ & _ & more & Hmore).
  rewrite Hd1.
  destruct (dict_get k (children d1)) as [c|] eqn:Hget; [|discriminate].
  intros Hres Hn.
  pose proof (resolve_depth h1 rest Hwf1 c n Hres) as Hdepth.
  assert (Hch1 : is_child h1 a k c).
  { exists d1. split; [exact Hd1|]. now apply dict_get_In. }
  destruct (ext_child _ _ _ Hext a k c Hch1) as [(d' & Hd' & HIn)|Hc]; [|lia].
  replace d' with d in HIn by congruence.
  rewrite (In_dict_get k c (children d) (wf_keys h Hwf a d Hd) HIn).
  apply IH; [lia|exact Hres|exact Hn].
Qed.

(** In a forest an object has one path from a given start. *)
Lemma resolve_unique (h : list VirtualFile) (a : nat) :
  wf_store h ->
  forall s1 s2 n, resolve h a s1 = Some n -> resolve h a s2 = Some n -> s1 = s2.
Proof.
  intros Hwf. induction s1 as [|k1 p1 IH] using rev_ind; intros s2 n H1 H2.
  - simpl in H1. injection H1 as <-.
    apply (resolve_depth h s2 Hwf) in H2. destruct s2; [reflexivity|simpl in H2; lia].
  - destruct s2 as [|k2 p2 _] using rev_ind.
    + simpl in H2. injection H2 as <-.
      apply (resolve_depth h _ Hwf) in H1. rewrite length_app in H1. simpl in H1. lia.
    + rewrite resolve_app in H1, H2.
      destruct (resolve h a p1) as [b1|] eqn:Hb1; [|discriminate].
      destruct (resolve h a p2) as [b2|] eqn:Hb2; [|discriminate].
      simpl in H1, H2.
      destruct (h !! b1) as [d1|] eqn:Hd1; [|discriminate].
      destruct (h !! b2) as [d2|] eqn:Hd2; [|discriminate].
      destruct (dict_get k1 (children d1)) as [c1|] eqn:Hg1; [|discriminate].
      destruct (dict_get k2 (children d2)) as [c2|] eqn:Hg2; [|discriminate].
      injection H1 as ->. injection H2 as ->.
      apply dict_get_In in Hg1, Hg2.
      assert (Hc1 : is_child h b1 k1 n) by (exists d1; auto).
      assert (Hc2 : is_child h b2 k2 n) by (exists d2; auto).
      pose proof (wf_parent h Hwf _ _ _ _ _ Hc1 Hc2) as Hb. subst b2.
      destruct (wf_names h Hwf _ _ _ Hc1) as (f1 & Hf1 & Hn1).
      destruct (wf_names h Hwf _ _ _ Hc2) as (f2 & Hf2 & Hn2).
      rewrite Hf1 in Hf2. injection Hf2 as <-.
      rewrite <- Hn1, <- Hn2. now rewrite (IH p2 b1 eq_refl Hb2).
Qed.

(** After [_add_file] its whole path resolves, and every object it created
    lies on that path. *)
Lemma add_file_paths (file_info : ZipInfo) (parts : list string) :
  forall (h : list VirtualFile) (cur : nat) (h1 : list VirtualFile),
    wf_store h -> cur < length h ->
    _add_file h cur parts file_info = Ret h1 ->
    (exists m, resolve h1 cur parts = Some m) /\
    (forall n, length h <= n -> n < length h1 ->
       exists pre post, parts = pre ++ post /\ pre <> [] /\
                        resolve h1 cur pre = Some n).
Proof.
  induction parts as [|nm rest IH]; intros h cur h1 Hwf Hcur; cbn [_add_file].
  - intros [= <-]. split; [simpl; eauto|]. intros n H1 H2. lia.
  - destruct (deref_lt h cur Hcur) as (d & Hd & ->). cbn [bind].
    destruct (dict_get nm (children d)) as [c|] eqn:Hget.
    + intros Hadd.
      assert (Hc : c < length h).
      { apply (wf_ordered h Hwf cur nm c). exists d.
        split; [exact Hd|]. now apply dict_get_In. }
      destruct (add_file_extends file_info rest h c Hwf Hc) as (h1' & E & _ & Hext).
      replace h1' with h1 in * by congruence.
      destruct (ext_old _ _ _ Hext cur d Hd) as (d1 & Hd1 & _ & _ & _ & more & Hmore).
      assert (Hstep : forall x, resolve h1 cur (nm :: x) = resolve h1 c x).
      { intros x. simpl. now rewrite Hd1, Hmore, dict_get_app, Hget. }
      destruct (IH h c h1 Hwf Hc Hadd) as [[m Hm] Hnew]. split.
      * exists m. now rewrite Hstep.
      * intros n H1 H2. destruct (Hnew n H1 H2) as (pre & post & -> & Hpre & Hres).
        exists (nm :: pre), post. split; [reflexivity|].
        split; [discriminate|]. now rewrite Hstep.
    + change (<[cur := set_children d (dict_set nm (length h) (children d))]>
                (h ++ [mkVirtualFile nm (info_is_dir file_info)
                         (entry_permissions file_info) []]))
        with (alloc_child h cur d nm file_info).
      intros Hadd. set (h2 := alloc_child h cur d nm file_info) in *.
      assert (Hwf2 : wf_store h2) by now apply alloc_wf.
      assert (Hlen2 : length h2 = S (length h)) by apply alloc_length.
      destruct (add_file_extends file_info rest h2 (length h) Hwf2 ltac:(lia))
        as (h1' & E & _ & Hext).
      replace h1' with h1 in * by congruence.
      assert (Hd2 : h2 !! cur =
                Some (set_children d (children d ++ [(nm, length h)]))).
      { unfold h2. rewrite (alloc_lookup h cur d nm file_info Hd Hget).
        now rewrite Nat.eqb_refl. }
      destruct (ext_old _ _ _ Hext cur _ Hd2) as (d1 & Hd1 & _ & _ & _ & more & Hmore).
      assert (Hstep : forall x, resolve h1 cur (nm :: x) = resolve h1 (length h) x).
      { intros x. simpl. rewrite Hd1, Hmore. simpl.
        rewrite !dict_get_app, Hget. simpl. now rewrite String.eqb_refl. }
      destruct (IH h2 (length h) h1 Hwf2 ltac:(lia) Hadd) as [[m Hm] Hnew]. split.
      * exists m. now rewrite Hstep.
      * intros n H1 H2. destruct (Nat.eq_dec n (length h)) as [->|Hne].
        -- exists [nm], rest. split; [reflexivity|]. split; [discriminate|].
           now rewrite Hstep.
        -- destruct (Hnew n ltac:(lia) H2) as (pre & post & -> & Hpre & Hres).
           exists (nm :: pre), post. split; [reflexivity|].
           split; [discriminate|]. now rewrite Hstep.
Qed.

(** The paths that loading the rest of an archive adds to a store: a path
    absent so far resolves afterwards exactly when some entry passes
    through it, and the object it resolves to has the kind and mode of the
    first such entry. *)
Lemma load_zip_resolve (infolist : list ZipInfo) :
  forall (h : list VirtualFile) (rt : nat) (h' : list VirtualFile),
    wf_store h -> rt < length h ->
    load_zip h rt infolist = Ret h' ->
    forall ks, resolve h rt ks = None ->
      match first_through ks infolist with
      | Some file_info =>
          exists n f, resolve h' rt ks = Some n /\ h' !! n = Some f /\
                      is_dir f = info_is_dir file_info /\
                      permissions f = entry_permissions file_info
      | None => resolve h' rt ks = None
      end.
Proof.
  induction infolist as [|r more IH]; intros h rt h' Hwf Hrt; cbn [load_zip].
  - intros [= <-] ks Hnone. exact Hnone.
  - fold (entry_parts r). intros Hload ks Hnone.
    destruct (add_file_extends r (entry_parts r) h rt Hwf Hrt)
      as (h1 & Hadd & Hwf1 & Hext1).
    rewrite Hadd in Hload. cbn [bind] in Hload.
    pose proof (ext_length _ _ _ Hext1) as Hlen1.
    destruct (load_zip_extends more h1 rt Hwf1 ltac:(lia)) as (h2 & E & _ & Hext2).
    replace h2 with h' in * by congruence. clear E.
    destruct (add_file_paths r (entry_parts r) h rt h1 Hwf Hrt Hadd) as [[m Hm] Hnew].
    assert (Hvalid : forall n, resolve h1 rt ks = Some n -> length h <= n < length h1).
    { intros n Hn. split.
      - destruct (Nat.lt_ge_cases n (length h)) as [Hlt|Hge]; [|exact Hge].
        rewrite (resolve_old _ h h1 ks Hwf Hwf1 Hext1 rt n Hrt Hn Hlt) in Hnone.
        discriminate.
      - apply (reachable_lt h1 rt n Hwf1 ltac:(lia)).
        now apply resolve_reachable with ks. }
    unfold first_through. cbn [List.find].
    destruct (is_prefix ks (entry_parts r)) eqn:Hpre.
    + apply is_prefix_spec in Hpre as [post Hpost].
      rewrite Hpost, resolve_app in Hm.
      destruct (resolve h1 rt ks) as [n|] eqn:Hn; [|discriminate].
      destruct (Hvalid n eq_refl) as [Hge Hlt].
      destruct (lookup_lt_is_Some_2 h1 n Hlt) as [f1 Hf1].
      destruct (ext_new _ _ _ Hext1 n f1 Hf1 Hge) as [Hd1 Hp1].
      destruct (ext_old _ _ _ Hext2 n f1 Hf1) as (f & Hf & _ & Hd & Hp & _).
      exists n, f. split; [now apply (resolve_extends _ h1 h' ks Hext2)|].
      split; [exact Hf|]. split; congruence.
    + assert (Hnone1 : resolve h1 rt ks = None).
      { destruct (resolve h1 rt ks) as [n|] eqn:Hn; [|reflexivity].
        destruct (Hvalid n eq_refl) as [Hge Hlt].
        destruct (Hnew n Hge Hlt) as (pre & post & Hparts & _ & Hres).
        rewrite (resolve_unique h1 rt Hwf1 ks pre n Hn Hres) in Hpre.
        assert (is_prefix pre (entry_parts r) = true)
          by (apply is_prefix_spec; eauto).
        congruence. }
      apply (IH h1 rt h' Hwf1 ltac:(lia) Hload ks Hnone1).
Qed.

(** ** Directories on the way *)

Lemma intermediate_paths_spec (pre post : list string) :
  pre <> [] -> post <> [] -> In pre (intermediate_paths (pre ++ post)).
Proof.
  intros Hpre Hpost. unfold intermediate_paths. apply in_map_iff.
  exists (length pre). split; [apply take_app_length|].
  apply in_seq. rewrite length_app.
  destruct pre; [contradiction|]. destruct post; [contradiction|]. simpl. lia.
Qed.

(** A plain lookup all of whose proper prefixes end at directories is a
    lookup through directories. *)
Lemma resolve_through_dirs (h : list VirtualFile) (ks : list string) :
  forall a n, resolve h a ks = Some n ->
    (forall pre post, ks = pre ++ post -> pre <> [] -> post <> [] ->
       exists m f, resolve h a pre = Some m /\ h !! m = Some f /\ is_dir f = true) ->
    resolve_dirs h a ks = Some n.
Proof.
  induction ks as [|k rest IH]; intros a n; simpl; [auto|].
  destruct (h !! a) as [d|] eqn:Hd; [|discriminate].
  destruct (dict_get k (children d)) as [c|] eqn:Hget; [|discriminate].
  intros Hres Hdirs. destruct rest as [|k2 rest']; [exact Hres|].
  destruct (Hdirs [k] (k2 :: rest') eq_refl ltac:(discriminate) ltac:(discriminate))
    as (m & f & Hm & Hf & Hdir).
  simpl in Hm. rewrite Hd, Hget in Hm. injection Hm as <-.
  rewrite Hf, Hdir. apply IH; [exact Hres|].
  intros pre post Hsplit Hpre Hpost.
  destruct (Hdirs (k :: pre) post) as (m & f' & Hm & Hf' & Hdir');
    [simpl; congruence|discriminate|exact Hpost|].
  simpl in Hm. rewrite Hd, Hget in Hm. eauto.
Qed.

(** Every object that loading creates lies at a path from the root. *)
Lemma load_zip_paths (infolist : list ZipInfo) :
  forall (h : list VirtualFile) (rt : nat) (h' : list VirtualFile),
    wf_store h -> rt < length h ->
    load_zip h rt infolist = Ret h' ->
    forall n, length h <= n -> n < length h' ->
      exists ks, ks <> [] /\ resolve h' rt ks = Some n.
Proof.
  induction infolist as [|r more IH]; intros h rt h' Hwf Hrt; cbn [load_zip].
  - intros [= <-] n H1 H2. lia.
  - fold (entry_parts r). intros Hload n H1 H2.
    destruct (add_file_extends r (entry_parts r) h rt Hwf Hrt)
      as (h1 & Hadd & Hwf1 & Hext1).
    rewrite Hadd in Hload. cbn [bind] in Hload.
    pose proof (ext_length _ _ _ Hext1) as Hlen1.
    destruct (Nat.lt_ge_cases n (length h1)) as [Hlt|Hge].
    + destruct (load_zip_extends more h1 rt Hwf1 ltac:(lia)) as (h2 & E & _ & Hext2).
      replace h2 with h' in * by congruence.
      destruct (add_file_paths r (entry_parts r) h rt h1 Hwf Hrt Hadd) as [_ Hnew].
      destruct (Hnew n H1 Hlt) as (pre & post & _ & Hpre & Hres).
      exists pre. split; [exact Hpre|].
      now apply (resolve_extends _ h1 h' pre Hext2).
    + apply (IH h1 rt h' Hwf1 ltac:(lia) Hload n Hge H2).
Qed.

(** ** Steps that keep the cursor attached *)

Lemma dict_del_In_other (k k2 : string) (v : nat) (d : list (string * nat)) :
  k2 <> k -> In (k2, v) d -> In (k2, v) (dict_del k d).
Proof.
  intros Hne. induction d as [|[k' v'] d IH]; simpl; [tauto|].
  destruct (String.eqb_spec k k') as [->|Hne'].
  - intros [[= E _]|H]; [congruence|exact H].
  - simpl. tauto.
Qed.

Lemma dict_del_not_In (k : string) (v : nat) (d : list (string * nat)) :
  List.NoDup (dict_keys d) -> ~ In (k, v) (dict_del k d).
Proof.
  intros Hnd HIn.
  pose proof (dict_del_get_same k d Hnd) as Hnone.
  apply dict_get_None in Hnone. apply Hnone.
  change (In (fst (k, v)) (map fst (dict_del k d))). now apply in_map.
Qed.

(** Removing the entry [k] of [p] leaves reached every object that is not
    reached through the object stored under [k]. *)
Lemma rm_keeps_reachable (h : list VirtualFile) (p : nat) (d : VirtualFile)
    (k : string) (rt : nat) :
  h !! p = Some d ->
  forall x, reachable h rt x ->
    (forall c, In (k, c) (children d) -> ~ reachable h c x) ->
    reachable (<[p := set_children d (dict_del k (children d))]> h) rt x.
Proof.
  intros Hp x Hreach. induction Hreach as [|b k' x Hab IH Hbx]; intros Hno.
  - constructor.
  - apply reach_step with b k'.
    + apply IH. intros c HIn Hcb. apply (Hno c HIn). now apply reach_step with b k'.
    + destruct Hbx as (g & Hg & HIn). destruct (Nat.eq_dec b p) as [->|Hne].
      * replace g with d in HIn by congruence.
        exists (set_children d (dict_del k (children d))).
        split; [apply list_lookup_insert_eq; eapply lookup_lt_Some; eauto|].
        simpl. apply dict_del_In_other; [|exact HIn].
        intros ->. apply (Hno x HIn). constructor.
      * exists g. split; [|exact HIn]. now rewrite list_lookup_insert_ne by congruence.
Qed.

(** After the entry of [c] is gone, nothing that was reached from [c] is
    reached from the root. *)
Lemma detached_unreachable (h h' : list VirtualFile) (rt p : nat) (k : string)
    (c : nat) :
  wf_store h -> (forall q k', ~ is_child h q k' rt) ->
  (forall q k' x, is_child h' q k' x -> is_child h q k' x) ->
  is_child h p k c -> ~ is_child h' p k c ->
  forall x, reachable h' rt x -> ~ reachable h c x.
Proof.
  intros Hwf Htop Hsub Hpc Hgone x Hreach.
  induction Hreach as [|b k' x Hab IH Hbx]; intros Hcx.
  - inversion Hcx as [E|b k' x Hcb Hb E].
    + subst. now apply (Htop p k).
    + now apply (Htop b k').
  - pose proof (Hsub _ _ _ Hbx) as Hbx0.
    inversion Hcx as [E|b2 k2 x2 Hcb Hb2 E].
    + subst c. pose proof (wf_parent h Hwf _ _ _ _ _ Hbx0 Hpc) as ->.
      destruct (wf_names h Hwf _ _ _ Hbx0) as (f1 & Hf1 & Hn1).
      destruct (wf_names h Hwf _ _ _ Hpc) as (f2 & Hf2 & Hn2).
      rewrite Hf1 in Hf2. injection Hf2 as <-. subst k'. now subst k.
    + pose proof (wf_parent h Hwf _ _ _ _ _ Hb2 Hbx0) as ->. now apply IH.
Qed.

Lemma transition_entries (b : bool) (s s' : VirtualFileSystem) :
  transition b s s' ->
  forall q k x, is_child (heap s') q k x -> is_child (heap s) q k x.
Proof.
  intros [|t Ht Hreach|t f mode Ht|p d k0 _ Hp] q k x; simpl; auto.
  - intros (g & Hg & HIn). destruct (Nat.eq_dec q t) as [->|Hne].
    + rewrite list_lookup_insert_eq in Hg by (eapply lookup_lt_Some; eauto).
      injection Hg as <-. exists f. auto.
    + rewrite list_lookup_insert_ne in Hg by congruence. exists g. auto.
  - intros (g & Hg & HIn). destruct (Nat.eq_dec q p) as [->|Hne].
    + rewrite list_lookup_insert_eq in Hg by (eapply lookup_lt_Some; eauto).
      injection Hg as <-. exists d. split; [exact Hp|].
      simpl in HIn. now apply dict_del_In in HIn.
    + rewrite list_lookup_insert_ne in Hg by congruence. exists g. auto.
Qed.

(** Only [rm] takes entries away. *)
Lemma transition_no_detach (s s' : VirtualFileSystem) :
  transition false s s' -> ~ detaches s s'.
Proof.
  intros Htr (p & k & c & Hpc & Hgone & _). apply Hgone.
  destruct Htr as [|t Ht Hreach|t f mode Ht|p0 d k0 Hb Hp]; simpl; auto.
  - now apply is_child_chmod.
  - discriminate.
Qed.

Lemma transition_kept (b : bool) (s s' : VirtualFileSystem) :
  transition b s s' -> wf s ->
  reachable (heap s) (root s) (cwd s) -> ~ detaches s s' ->
  reachable (heap s') (root s') (cwd s').
Proof.
  intros Htr Hwf Hreach Hkept.
  destruct Htr as [|t Ht Hcd|t f mode Ht|p d k _ Hp]; simpl; auto.
  - now apply reachable_chmod.
  - apply rm_keeps_reachable; [exact Hp|exact Hreach|].
    intros c HIn Hc. apply Hkept. exists p, k, c.
    split; [exists d; auto|]. split; [|exact Hc].
    simpl. intros (g & Hg & HIn').
    rewrite list_lookup_insert_eq in Hg by (eapply lookup_lt_Some; eauto).
    injection Hg as <-. simpl in HIn'.
    apply (dict_del_not_In k c (children d)); [|exact HIn'].
    apply (wf_keys _ (wf_heap s Hwf) p d Hp).
Qed.

Lemma transition_detached (b : bool) (s s' : VirtualFileSystem) :
  transition b s s' -> wf s -> detaches s s' ->
  ~ reachable (heap s') (root s') (cwd s').
Proof.
  intros Htr Hwf (p & k & c & Hpc & Hgone & Hc).
  pose proof (transition_entries b s s' Htr) as Hsub.
  assert (Hsame : root s' = root s /\ (cwd s' = cwd s \/ heap s' = heap s)).
  { destruct Htr; simpl; auto. }
  destruct Hsame as [Hroot [Hcwd|Hheap]].
  - rewrite Hroot, Hcwd. intros Hreach.
    apply (detached_unreachable (heap s) (heap s') (root s) p k c
             (wf_heap s Hwf) (wf_root_top s Hwf) Hsub Hpc Hgone (cwd s) Hreach Hc).
  - rewrite Hheap in Hgone. contradiction.
Qed.

(** With the cursor at the root no step detaches it. *)
Lemma root_cursor_no_detach (s s' : VirtualFileSystem) :
  wf s -> cwd s = root s -> ~ detaches s s'.
Proof.
  intros Hwf Hcwd (p & k & c & Hpc & _ & Hc). rewrite Hcwd in Hc.
  inversion Hc as [E|b k' x Hcb Hb E].
  - subst. now apply (wf_root_top s Hwf p k).
  - now apply (wf_root_top s Hwf b k').
Qed.

Lemma same_heap_no_detach (s s' : VirtualFileSystem) :
  heap s' = heap s -> ~ detaches s s'.
Proof.
  intros Hheap (p & k & c & Hpc & Hgone & _). rewrite Hheap in Hgone. contradiction.
Qed.

Section SessionFacts.

Variable int_base8 : string -> option Z.
Variable shlex_split : string -> option (list string).

(** A session none of whose commands detaches the cursor leaves it reached
    from the root. *)
Lemma run_script_cursor (fuel : nat) (script : list string) :
  forall s, session_ok s -> length (heap s) <= fuel ->
    Forall (invokes shlex_split (fun command => command <> "exit")) script ->
    reachable (heap s) (root s) (cwd s) ->
    cursor_kept int_base8 shlex_split fuel s script ->
    forall s' out,
      run_script int_base8 shlex_split fuel s script = Ret (s', out) ->
      reachable (heap s') (root s') (cwd s').
Proof.
  induction script as [|line more IH]; intros s Hok Hfuel Hexit Hreach Hkept s' out;
    cbn [run_script cursor_kept] in *.
  - now intros [= <- <-].
  - apply Forall_cons_iff in Hexit as [(args & Hsplit & Hargs) Hmore].
    destruct (execute_command_transition int_base8 shlex_split fuel s (strip line)
                args Hok Hfuel Hsplit Hargs) as (s1 & out1 & Hexec & Htr).
    rewrite Hexec in Hkept |- *. destruct Hkept as [Hstep Hrest]. cbn [bind fst snd].
    intros Hrun. apply bind_Ret in Hrun as ([s2 out2] & Hrun & E).
    injection E as <- <-.
    destruct (transition_frame _ _ _ Htr) as [Hlen1 Hroot1].
    simpl in Hrun. apply (IH s1) with out2; auto.
    + now apply (transition_session_ok _ _ _ Htr).
    + lia.
    + now apply (transition_kept _ s s1 Htr (ok_wf s Hok)).
Qed.

(** What one more command does to the cursor. *)
Lemma execute_command_cursor_kept (fuel : nat) (s s1 : VirtualFileSystem)
    (command_line : string) (args out1 : list string) :
  session_ok s -> length (heap s) <= fuel ->
  shlex_split command_line = Some args ->
  execute_command int_base8 shlex_split fuel s command_line = Ret (s1, out1) ->
  (reachable (heap s) (root s) (cwd s) ->
   (reachable (heap s1) (root s1) (cwd s1) <-> ~ detaches s s1)) /\
  (detaches s s1 -> command_name args = "rm").
Proof.
  intros Hok Hfuel Hsplit Hexec.
  assert (Hexit : command_name args <> "exit").
  { intros E. unfold execute_command in Hexec. rewrite Hsplit in Hexec.
    destruct args as [|command rest]; simpl in E; [discriminate|]. subst command.
    discriminate. }
  destruct (execute_command_transition int_base8 shlex_split fuel s command_line
              args Hok Hfuel Hsplit Hexit) as (s' & out' & Hexec' & Htr).
  rewrite Hexec in Hexec'. injection Hexec' as <- <-.
  pose proof (ok_wf s Hok) as Hwf. split.
  - intros Hreach. split.
    + intros Hreach1 Hdet. now apply (transition_detached _ s s1 Htr Hwf Hdet).
    + now apply (transition_kept _ s s1 Htr Hwf).
  - intros Hdet. destruct (String.eqb_spec (command_name args) "rm") as [E|E];
      [exact E|]. now apply (transition_no_detach s s1) in Htr.
Qed.

End SessionFacts.

(** * Properties of the specification *)

(** C1 (counterexample): on the read-only root of the tests the argument
    [dir1/] resolves, to [dir1], and so does its parent, the root, which
    lacks the write bit; [rm] does not print "Permission denied" but "No
    such file or directory", because the root holds no entry under the
    basename of [dir1/], the empty string. *)
Lemma C1_rm_reports_missing :
  _navigate_path 6 readonly_root_state "dir1/" false = Ret (Some 2) /\
  _navigate_path 6 readonly_root_state "dir1/" true = Ret (Some 0) /\
  (exists fp, heap readonly_root_state !! 0 = Some fp /\
              Z.land (permissions fp) 128 = 0%Z) /\
  rm 6 readonly_root_state ["dir1/"] =
    Ret (readonly_root_state,
         ["rm: cannot remove 'dir1/': No such file or directory"]).
Proof.
  split; [reflexivity|]. split; [reflexivity|]. split; [|reflexivity].
  eexists. split; reflexivity.
Qed.

(** C1 (amended): for one and the same path argument, [chmod] gives the
    resolved target the new mode, and changes nothing else, exactly when
    the write bit (0o200) is set on the target itself, and otherwise prints
    "Permission denied" and changes nothing.  The parent of a path that
    resolves resolves too; [rm] takes the entry under the path's basename
    out of the resolved parent, and changes nothing else, exactly when the
    parent holds such an entry and has the write bit; it prints "Permission
    denied" when the parent holds the entry and lacks the write bit, and
    "No such file or directory" when the parent holds no such entry,
    whatever its mode, and then changes nothing.  Neither gate looks at
    the other object. *)
Theorem C1_write_gates (int_base8 : string -> option Z) (s : VirtualFileSystem)
    (fuel : nat) (path : string) :
  wf s ->
  (forall mode_text mode target ft,
     int_base8 mode_text = Some mode ->
     _navigate_path fuel s path false = Ret (Some target) ->
     heap s !! target = Some ft ->
     (Z.land (permissions ft) 128 <> 0%Z ->
      exists s' ft',
        chmod int_base8 fuel s [mode_text; path] = Ret (s', []) /\
        heap s' !! target = Some ft' /\ permissions ft' = mode /\
        name ft' = name ft /\ is_dir ft' = is_dir ft /\
        children ft' = children ft /\
        (forall q, q <> target -> heap s' !! q = heap s !! q) /\
        root s' = root s /\ cwd s' = cwd s) /\
     (Z.land (permissions ft) 128 = 0%Z ->
      chmod int_base8 fuel s [mode_text; path] =
        Ret (s, ["chmod: cannot change permissions of '" +:+ path
                   +:+ "': Permission denied"]))) /\
  (forall target, _navigate_path fuel s path false = Ret (Some target) ->
     exists parent, _navigate_path fuel s path true = Ret (Some parent)) /\
  (forall parent fp,
     _navigate_path fuel s path true = Ret (Some parent) ->
     heap s !! parent = Some fp ->
     (forall child, dict_get (basename path) (children fp) = Some child ->
        (Z.land (permissions fp) 128 <> 0%Z ->
         exists s' fp',
           rm fuel s [path] = Ret (s', []) /\
           heap s' !! parent = Some fp' /\
           dict_get (basename path) (children fp') = None /\
           (forall k, k <> basename path ->
              dict_get k (children fp') = dict_get k (children fp)) /\
           name fp' = name fp /\ is_dir fp' = is_dir fp /\
           permissions fp' = permissions fp /\
           (forall q, q <> parent -> heap s' !! q = heap s !! q) /\
           root s' = root s /\ cwd s' = cwd s) /\
        (Z.land (permissions fp) 128 = 0%Z ->
         rm fuel s [path] =
           Ret (s, ["rm: cannot remove '" +:+ path +:+ "': Permission denied"]))) /\
     (dict_get (basename path) (children fp) = None ->
      rm fuel s [path] =
        Ret (s, ["rm: cannot remove '" +:+ path
                   +:+ "': No such file or directory"]))).
Proof.
  intros Hwf. split; [|split].
  - intros mode_text mode target ft Hmode Hnav Hft.
    pose proof (lookup_lt_Some _ _ _ Hft) as Hlt. apply deref_Ret in Hft.
    unfold chmod. rewrite Hmode, Hnav. cbn [bind]. rewrite Hft. cbn [bind].
    split; intros Hbit.
    + apply has_permission_w in Hbit. rewrite Hbit.
      eexists. eexists. split; [reflexivity|]. simpl.
      split; [now apply list_lookup_insert_eq|].
      repeat (split; [reflexivity|]).
      split; [|split; reflexivity].
      intros q Hq. now apply list_lookup_insert_ne.
    + unfold has_permission. simpl. now rewrite Hbit.
  - intros target. unfold _navigate_path.
    destruct (split_slash_cons (strip_slash path)) as (w & ws & ->).
    change (Nat.ltb 0 (length (w :: ws))) with true. cbv iota.
    rewrite (app_removelast_last EmptyString (l := w :: ws)) at 1
      by discriminate.
    rewrite navigate_loop_app.
    destruct (navigate_loop fuel s _ (removelast (w :: ws))) as [[m|]| |];
      cbn [bind]; try discriminate.
    eauto.
  - intros parent fp Hnav Hfp.
    pose proof (lookup_lt_Some _ _ _ Hfp) as Hlt.
    pose proof (wf_keys _ (wf_heap s Hwf) parent fp Hfp) as Hnd.
    apply deref_Ret in Hfp.
    unfold rm. rewrite Hnav. cbn [bind]. rewrite Hfp. cbn [bind].
    unfold dict_mem. split.
    + intros child Hget. rewrite Hget. split; intros Hbit.
      * apply has_permission_w in Hbit. rewrite Hbit.
        eexists. eexists. split; [reflexivity|]. simpl.
        split; [now apply list_lookup_insert_eq|].
        split; [now apply dict_del_get_same|].
        split; [intros k Hk; now apply dict_del_get_other|].
        repeat (split; [reflexivity|]).
        split; [|split; reflexivity].
        intros q Hq. now apply list_lookup_insert_ne.
      * unfold has_permission. simpl. now rewrite Hbit.
    + intros Hget. now rewrite Hget.
Qed.

(** On the read-only root of the tests, [chmod 600 file1.txt] goes through
    (the file is writable) and gives the file the mode 0o600; [rm
    file1.txt] is denied (the root is not writable). *)
Lemma C1_write_gates_witness :
  (exists s',
     chmod plain_octal 6 readonly_root_state ["600"; "file1.txt"] = Ret (s', []) /\
     heap s' !! 1 = Some (mkVirtualFile "file1.txt" false 384 [])) /\
  rm 6 readonly_root_state ["file1.txt"] =
    Ret (readonly_root_state,
         ["rm: cannot remove 'file1.txt': Permission denied"]).
Proof.
  destruct (C1_write_gates plain_octal readonly_root_state 6 "file1.txt"
              wf_readonly_root_state) as (Hchmod & _ & Hrm).
  split.
  - destruct (Hchmod "600" 384%Z 1 (mkVirtualFile "file1.txt" false 420 [])
                eq_refl eq_refl eq_refl) as [Hallowed _].
    destruct Hallowed as (s' & ft' & Hrun & Hft' & Hmode & Hname & Hdir & Hch & _).
    { simpl. discriminate. }
    exists s'. split; [exact Hrun|]. rewrite Hft'.
    destruct ft' as [n d m c]. simpl in *. now subst.
  - destruct (Hrm 0 (mkVirtualFile "/" true 365 [("file1.txt", 1); ("dir1", 2)])
                eq_refl eq_refl) as [Hentry _].
    destruct (Hentry 1 eq_refl) as [_ Hdenied].
    apply Hdenied. reflexivity.
Defined.

(** C2 (counterexample): the tree built from [shadowed_file_archive], the
    entries [a/b/] and [a/b], holds the directory [a] besides [a/b]: the
    path [a] is enumerated, and no entry supplies it; and the object at
    [a/b] is a directory, although the second entry supplies this very
    path and declares a file. *)
Lemma C2_unsupplied_path :
  exists s,
    VirtualFileSystem_init shadowed_file_archive = Ret s /\
    resolve_dirs (heap s) (root s) ["a"] = Some 1 /\
    heap s !! 1 = Some (mkVirtualFile "a" true 493 [("b", 2)]) /\
    (forall file_info, In file_info shadowed_file_archive ->
       entry_parts file_info <> ["a"]) /\
    In (mkZipInfo "a/b" false (unix_attr 420)) shadowed_file_archive /\
    entry_parts (mkZipInfo "a/b" false (unix_attr 420)) = ["a"; "b"] /\
    resolve_dirs (heap s) (root s) ["a"; "b"] = Some 2 /\
    heap s !! 2 = Some (mkVirtualFile "b" true 493 []).
Proof.
  eexists. split; [reflexivity|]. split; [reflexivity|]. split; [reflexivity|].
  split.
  - intros file_info [<-|[<-|[]]]; discriminate.
  - split; [simpl; auto|]. split; [reflexivity|]. split; reflexivity.
Qed.

(** C2 (amended): for an archive in which every intermediate segment is
    created as a directory, the non-root paths that are enumerated by
    descending from the root into directories are exactly the non-empty
    prefixes of the entries' paths: each supplied path and each of its
    intermediate prefixes; and the object at such a path carries the
    [is_dir] flag declared by the first entry whose path passes through
    it, its own entry's flag when no earlier one does. *)
Theorem C2_paths_of_loaded_tree (infolist : list ZipInfo) :
  containers_declared infolist = true ->
  exists s, VirtualFileSystem_init infolist = Ret s /\
    forall ks, ks <> [] ->
      ((exists n, resolve_dirs (heap s) (root s) ks = Some n) <->
       (exists file_info, In file_info infolist /\
                          is_prefix ks (entry_parts file_info) = true)) /\
      (forall file_info,
         first_through ks infolist = Some file_info ->
         exists n f, resolve_dirs (heap s) (root s) ks = Some n /\
                     heap s !! n = Some f /\
                     is_dir f = info_is_dir file_info).
Proof.
  intros Hdecl. unfold VirtualFileSystem_init.
  destruct (load_zip_extends infolist [root_node] 0 wf_store_root_node)
    as (h & Hload & _ & _); [simpl; lia|].
  rewrite Hload. cbn [bind]. eexists. split; [reflexivity|]. simpl.
  assert (Hchar : forall ks, ks <> [] ->
            match first_through ks infolist with
            | Some file_info =>
                exists n f, resolve h 0 ks = Some n /\ h !! n = Some f /\
                            is_dir f = info_is_dir file_info /\
                            permissions f = entry_permissions file_info
            | None => resolve h 0 ks = None
            end).
  { intros ks Hks.
    apply (load_zip_resolve infolist [root_node] 0 h wf_store_root_node
             ltac:(simpl; lia) Hload ks).
    destruct ks; [contradiction|reflexivity]. }
  assert (Hdirs : forall ks r, In r infolist ->
            is_prefix ks (entry_parts r) = true ->
            forall n, resolve h 0 ks = Some n -> resolve_dirs h 0 ks = Some n).
  { intros ks r HIn Hpre n Hn. apply resolve_through_dirs; [exact Hn|].
    intros pre post -> Hne Hpost.
    apply is_prefix_spec in Hpre as [post' Hparts].
    rewrite <- app_assoc in Hparts.
    unfold containers_declared in Hdecl.
    rewrite forallb_forall in Hdecl. specialize (Hdecl r HIn).
    rewrite forallb_forall in Hdecl. specialize (Hdecl pre).
    rewrite Hparts in Hdecl.
    specialize (Hdecl (intermediate_paths_spec pre (post ++ post') Hne
                         ltac:(destruct post; [contradiction|discriminate]))).
    specialize (Hchar pre Hne).
    destruct (first_through pre infolist) as [first|]; [|discriminate].
    destruct Hchar as (m & f & Hm & Hf & Hd & _).
    exists m, f. split; [exact Hm|]. split; [exact Hf|congruence]. }
  intros ks Hks. specialize (Hchar ks Hks).
  unfold first_through in *. split; [split|].
  - intros [n Hn]. apply resolve_dirs_resolve in Hn.
    destruct (List.find _ infolist) as [r|] eqn:Hfind; [|congruence].
    apply List.find_some in Hfind. eauto.
  - intros (r & HIn & Hpre).
    destruct (List.find _ infolist) as [r'|] eqn:Hfind.
    + destruct Hchar as (n & _ & Hn & _). exists n. now apply (Hdirs ks r).
    + pose proof (List.find_none _ _ Hfind r HIn) as Hr. simpl in Hr. congruence.
  - intros r Hfind. rewrite Hfind in Hchar.
    destruct Hchar as (n & f & Hn & Hf & Hd & _).
    apply List.find_some in Hfind as [HIn Hpre].
    exists n, f. split; [now apply (Hdirs ks r)|]. auto.
Qed.

(** In the tree of [listed_dir_archive] the file [dir1/file2.txt] is
    found below the directory [dir1], and it is not a directory. *)
Lemma C2_paths_of_loaded_tree_witness :
  exists s, VirtualFileSystem_init listed_dir_archive = Ret s /\
    exists n f, resolve_dirs (heap s) (root s) ["dir1"; "file2.txt"] = Some n /\
                heap s !! n = Some f /\ is_dir f = false.
Proof.
  destruct (C2_paths_of_loaded_tree listed_dir_archive eq_refl) as (s & Hinit & H).
  exists s. split; [exact Hinit|].
  destruct (H ["dir1"; "file2.txt"] ltac:(discriminate)) as [_ Hflag].
  apply (Hflag (mkZipInfo "dir1/file2.txt" false (unix_attr 384))). reflexivity.
Defined.

(** C3 (the code on an archive without directory entries): loading an
    archive whose only entry is the file [a/f.txt] creates the missing
    intermediate segment [a] with the entry's own kind and mode, a non-directory of mode 0o644 that
    has a child, not a directory placeholder. *)
Theorem C3_intermediate_takes_entry_kind :
  VirtualFileSystem_init nested_file_archive =
    Ret {| heap := [ mkVirtualFile "/" true 493 [("a", 1)];
                     mkVirtualFile "a" false 420 [("f.txt", 2)];
                     mkVirtualFile "f.txt" false 420 [] ];
           root := 0; cwd := 0 |}.
Proof. reflexivity. Qed.

(** C4 (counterexample): after [cd dir1] and [rm /dir1] the cursor still
    refers to the detached [dir1] object, which is not reached from the
    root. *)
Lemma C4_cursor_detached :
  exists s0 s out,
    VirtualFileSystem_init detach_archive = Ret s0 /\
    run_script plain_octal plain_split 2 s0 detach_script = Ret (s, out) /\
    ~ reachable (heap s) (root s) (cwd s).
Proof.
  eexists. eexists. eexists. split; [reflexivity|]. split; [reflexivity|].
  simpl. intros H. inversion H as [|b k c Hb (f & Hf & HIn) E].
  destruct b as [|[|b]]; simpl in Hf; try discriminate;
    injection Hf as <-; destruct HIn.
Qed.

(** C4 (amended): from start-up, any sequence of [ls], [cd], [chmod], [rm]
    and [find] commands runs to completion; the cursor then refers to a
    directory object, and it is reached from the root when no command of
    the sequence took away the entry of the cursor's object or of one of
    its ancestors.  For any further command: unless it is [cd] it leaves
    the cursor where it is; a cursor reached from the root stays so
    exactly when the command does not take away the entry of the cursor's
    object or of one of its ancestors; and only [rm] does that. *)
Theorem C4_cursor_invariant (int_base8 : string -> option Z)
    (shlex_split : string -> option (list string))
    (infolist : list ZipInfo) (script : list string) :
  Forall (invokes shlex_split
            (fun command => In command ["ls"; "cd"; "chmod"; "rm"; "find"]))
    script ->
  exists s0, VirtualFileSystem_init infolist = Ret s0 /\
    forall fuel, length (heap s0) <= fuel ->
      exists s out,
        run_script int_base8 shlex_split fuel s0 script = Ret (s, out) /\
        is_directory (heap s) (cwd s) /\
        (cursor_kept int_base8 shlex_split fuel s0 script ->
         reachable (heap s) (root s) (cwd s)) /\
        (forall command_line args s1 out1,
           shlex_split command_line = Some args ->
           execute_command int_base8 shlex_split fuel s command_line
             = Ret (s1, out1) ->
           (command_name args <> "cd" -> cwd s1 = cwd s) /\
           (reachable (heap s) (root s) (cwd s) ->
            (reachable (heap s1) (root s1) (cwd s1) <-> ~ detaches s s1)) /\
           (detaches s s1 -> command_name args = "rm")).
Proof.
  intros Hcmds.
  assert (Hexit : Forall (invokes shlex_split (fun command => command <> "exit"))
                    script).
  { eapply Forall_impl; [exact Hcmds|]. intros line (args & Hsplit & HIn).
    exists args. split; [exact Hsplit|]. simpl in HIn.
    destruct HIn as [<-|[<-|[<-|[<-|[<-|[]]]]]]; discriminate. }
  destruct (init_spec infolist) as (s0 & Hinit & Hok & Hroot & Hcwd & _).
  exists s0. split; [exact Hinit|]. intros fuel Hfuel.
  destruct (run_script_spec int_base8 shlex_split fuel script s0 Hok Hfuel Hexit)
    as (s & out & Hrun & Hok' & Hlen & _).
  exists s, out. split; [exact Hrun|]. split; [apply (ok_cwd s Hok')|].
  split.
  - intros Hkept.
    apply (run_script_cursor int_base8 shlex_split fuel script s0 Hok Hfuel Hexit)
      with out; [|exact Hkept|exact Hrun].
    rewrite Hroot, Hcwd. constructor.
  - intros command_line args s1 out1 Hsplit Hexec. split.
    + intros Hcd.
      now apply (execute_command_cursor int_base8 shlex_split fuel s s1
                   command_line args out1).
    + apply (execute_command_cursor_kept int_base8 shlex_split fuel s s1
               command_line args out1); auto. lia.
Qed.

(** On the tree of the tests, after [rm file1.txt], [cd dir1], [rm] and
    [rm nope] the cursor is the directory [dir1], reached from the root:
    the one entry that was removed is not on the way to the cursor. *)
Lemma C4_cursor_invariant_witness :
  exists s0, VirtualFileSystem_init test_archive = Ret s0 /\
    exists s out,
      run_script plain_octal plain_split 6 s0 kept_script = Ret (s, out) /\
      cwd s = 2 /\ is_directory (heap s) (cwd s) /\
      reachable (heap s) (root s) (cwd s).
Proof.
  destruct (C4_cursor_invariant plain_octal plain_split test_archive kept_script)
    as (s0 & Hinit & H).
  { repeat constructor; eexists; (split; [reflexivity|]); simpl; tauto. }
  exists s0. split; [exact Hinit|].
  destruct (init_spec test_archive) as (s0' & Hinit' & Hok & _).
  rewrite Hinit in Hinit'. injection Hinit' as <-.
  pose proof Hinit as Hs0. vm_compute in Hs0. injection Hs0 as Hs0.
  destruct (H 6) as (s & out & Hrun & Hdir & Hreach & _).
  { rewrite <- Hs0. simpl. lia. }
  exists s, out. split; [exact Hrun|].
  split; [|split; [exact Hdir|]].
  - clear Hreach Hdir. rewrite <- Hs0 in Hrun. vm_compute in Hrun.
    injection Hrun as <- _. reflexivity.
  - apply Hreach. clear Hreach Hdir Hrun.
    cbn [cursor_kept kept_script].
    destruct (execute_command plain_octal plain_split 6 s0 (strip "rm file1.txt"))
      as [[s1 out1]| |] eqn:E1; [|exact I|exact I].
    split; [apply root_cursor_no_detach; [apply Hok|]; now rewrite <- Hs0|].
    rewrite <- Hs0 in E1. vm_compute in E1. injection E1 as <- _.
    split; [now apply same_heap_no_detach|].
    split; [now apply same_heap_no_detach|].
    split; [now apply same_heap_no_detach|exact I].
Defined.

(** C5 (counterexample): [find d] from the root of [closed_dir_archive]
    visits the directory [s], which lacks the execute bit, and prints the
    permission-denied line naming [./d/s] twice. *)
Lemma C5_two_denied_lines :
  exists s out,
    VirtualFileSystem_init closed_dir_archive = Ret s /\
    find 3 s ["d"] = Ret (s, out) /\
    resolve (heap s) (cwd s) ["d"; "s"] = Some 2 /\
    (exists f, heap s !! 2 = Some f /\ is_dir f = true /\
               Z.land (permissions f) 64 = 0%Z) /\
    count_line (denied_line "./d/s") out = 2.
Proof.
  eexists. eexists. split; [reflexivity|]. split; [reflexivity|].
  split; [reflexivity|]. split; [|reflexivity].
  eexists. split; [reflexivity|]. split; reflexivity.
Qed.

(** C5 (amended): a visit of [find] ([_find_recursive] or [_list_recursive])
    to a directory without the execute bit (0o100) prints exactly one
    permission-denied line naming its path and nothing about what lies
    beneath it; the listing of a matched directory prints, for a child
    directory without the execute bit, the line of its read gate and then
    that one line: its path and one denied line when it is readable, two
    denied lines when it is not. *)
Theorem C5_closed_directory (h : list VirtualFile) (fuel : nat) (cur : nat)
    (d : VirtualFile) (term path : string) :
  h !! cur = Some d -> Z.land (permissions d) 64 = 0%Z ->
  _find_recursive (S fuel) h cur term path = Ret [denied_line path] /\
  _list_recursive (S fuel) h cur path = Ret [denied_line path] /\
  (is_dir d = true ->
   forall parent_path key,
     list_item (_list_recursive (S fuel) h) h parent_path (key, cur) =
       Ret (if Z.eqb (Z.land (permissions d) 256) 0
            then [denied_line (path_join parent_path key);
                  denied_line (path_join parent_path key)]
            else [path_join parent_path key;
                  denied_line (path_join parent_path key)])).
Proof.
  intros Hd Hx. apply deref_Ret in Hd.
  assert (Hperm : has_permission d "x" = false).
  { unfold has_permission. simpl. now rewrite Hx. }
  split; [|split].
  - simpl. rewrite Hd. simpl. now rewrite Hperm.
  - simpl. rewrite Hd. simpl. now rewrite Hperm.
  - intros Hdir parent_path key. unfold list_item. simpl fst. simpl snd.
    rewrite Hd. cbn [bind]. rewrite Hdir.
    cbn [_list_recursive]. rewrite Hd. cbn [bind]. rewrite Hperm. cbn [negb bind].
    unfold has_permission. simpl.
    now destruct (Z.eqb (Z.land (permissions d) 256) 0).
Qed.

(** A visit to a directory of mode 0o200 prints one line and does not look
    at the file it holds. *)
Lemma C5_closed_directory_witness :
  _find_recursive 1 [mkVirtualFile "s" true 128 [("t", 1)];
                     mkVirtualFile "t" false 420 []] 0 "t" "./s"
    = Ret [denied_line "./s"].
Proof.
  apply (C5_closed_directory
           [mkVirtualFile "s" true 128 [("t", 1)]; mkVirtualFile "t" false 420 []]
           0 0 (mkVirtualFile "s" true 128 [("t", 1)]) "t" "./s");
    reflexivity.
Defined.

(** C6: [cd] with an argument resolves it; when resolution fails or yields
    a non-directory it prints "no such file or directory" with the raw
    argument and the state is unchanged; when it yields a directory without
    the execute bit (0o100) it prints "permission denied" with the raw
    argument and the state is unchanged; otherwise it prints nothing, the
    cursor is the resolved object afterwards, and the tree is as before. *)
Theorem C6_cd_outcomes (s : VirtualFileSystem) (fuel : nat) (arg : string)
    (rest : list string) :
  wf s -> length (heap s) <= fuel ->
  exists r, _navigate_path fuel s arg false = Ret r /\
    (r = None \/ (exists t f, r = Some t /\ heap s !! t = Some f /\ is_dir f = false) ->
     cd fuel s (arg :: rest) =
       Ret (s, ["cd: no such file or directory: " +:+ arg])) /\
    (forall t f, r = Some t -> heap s !! t = Some f -> is_dir f = true ->
       Z.land (permissions f) 64 = 0%Z ->
       cd fuel s (arg :: rest) = Ret (s, ["cd: permission denied: " +:+ arg])) /\
    (forall t f, r = Some t -> heap s !! t = Some f -> is_dir f = true ->
       Z.land (permissions f) 64 <> 0%Z ->
       exists s', cd fuel s (arg :: rest) = Ret (s', []) /\
                  cwd s' = t /\ heap s' = heap s /\ root s' = root s).
Proof.
  intros Hwf Hfuel.
  destruct (navigate_path_spec s fuel arg false Hwf Hfuel) as (r & Hnav & _).
  exists r. split; [exact Hnav|]. unfold cd. rewrite Hnav. simpl.
  split; [|split].
  - intros [->|(t & f & -> & Hf & Hdir)]; [reflexivity|].
    apply deref_Ret in Hf. rewrite Hf. simpl. now rewrite Hdir.
  - intros t f -> Hf Hdir Hx. apply deref_Ret in Hf. rewrite Hf. simpl.
    rewrite Hdir. unfold has_permission. simpl. now rewrite Hx.
  - intros t f -> Hf Hdir Hx. apply deref_Ret in Hf. rewrite Hf. simpl.
    rewrite Hdir. unfold has_permission. simpl.
    destruct (Z.eqb_spec (Z.land (permissions f) 64) 0); [contradiction|].
    eexists. split; [reflexivity|]. simpl. auto.
Qed.

(** On the tree of the tests, [cd dir1] moves the cursor from the root to
    [dir1], the object 2 of the store. *)
Lemma C6_cd_outcomes_witness :
  cwd readonly_root_state = 0 /\
  exists s', cd 6 readonly_root_state ["dir1"; "ignored"] = Ret (s', []) /\
             cwd s' = 2 /\ heap s' = heap readonly_root_state.
Proof.
  split; [reflexivity|].
  destruct (C6_cd_outcomes readonly_root_state 6 "dir1" ["ignored"]
              wf_readonly_root_state) as (r & Hnav & _ & _ & Hmove).
  { simpl. lia. }
  vm_compute in Hnav. injection Hnav as <-.
  destruct (Hmove 2 (mkVirtualFile "dir1" true 493 [("file2.txt", 3); ("subdir1", 4)]))
    as (s' & Hcd & Hcwd & Hheap & _);
    [reflexivity|reflexivity|reflexivity|simpl; discriminate|].
  exists s'. auto.
Defined.

(** C7 (counterexample): in the tree of [locked_parent_archive], after
    [cd a/b] the cursor is the non-root directory [b], reached from the
    root and held by [a]; [cd ..] is denied because [a] lacks the execute
    bit, and the cursor stays on [b]. *)
Lemma C7_parent_without_execute :
  exists s0 s1 s2 out,
    VirtualFileSystem_init locked_parent_archive = Ret s0 /\
    cd 3 s0 ["a/b"] = Ret (s1, []) /\
    cwd s1 = 2 /\ root s1 = 0 /\
    is_directory (heap s1) 2 /\
    is_child (heap s1) 0 "a" 1 /\ is_child (heap s1) 1 "b" 2 /\
    cd 3 s1 [".."] = Ret (s2, out) /\
    cwd s2 = 2 /\ out = ["cd: permission denied: .."].
Proof.
  eexists. eexists. eexists. eexists.
  split; [reflexivity|]. split; [reflexivity|].
  split; [reflexivity|]. split; [reflexivity|].
  split; [eexists; split; reflexivity|].
  split; [eexists; split; [reflexivity|simpl; auto]|].
  split; [eexists; split; [reflexivity|simpl; auto]|].
  split; [reflexivity|]. split; reflexivity.
Qed.

(** C7 (amended): resolving [..] at the root stays at the root; and from a
    cursor held by a directory [p] that is the root or is reached from it
    through directories, [..] resolves to exactly [p], so that [cd ..]
    moves the cursor to [p] when [p] has the execute bit and otherwise
    prints "permission denied" and leaves the cursor where it is. *)
Theorem C7_dotdot (s : VirtualFileSystem) (fuel : nat) :
  wf s -> length (heap s) <= fuel ->
  (forall rest, navigate_loop fuel s (root s) (".." :: rest) =
                navigate_loop fuel s (root s) rest) /\
  (cwd s = root s -> _navigate_path fuel s ".." false = Ret (Some (root s))) /\
  (forall p k fp,
     is_child (heap s) p k (cwd s) -> dir_reachable (heap s) (root s) p ->
     heap s !! p = Some fp -> is_dir fp = true ->
     _navigate_path fuel s ".." false = Ret (Some p) /\
     (Z.land (permissions fp) 64 <> 0%Z ->
      cd fuel s [".."] = Ret (set_cwd s p, [])) /\
     (Z.land (permissions fp) 64 = 0%Z ->
      cd fuel s [".."] = Ret (s, ["cd: permission denied: .."]))).
Proof.
  intros Hwf Hfuel. pose proof (wf_heap s Hwf) as Hst.
  assert (Hroot : _find_parent fuel (heap s) (root s) (root s) = Ret None).
  { apply find_parent_orphan; auto using wf_root, wf_root_top. lia. }
  split; [|split].
  - intros rest. simpl. now rewrite Hroot.
  - intros Hcwd. unfold _navigate_path. simpl. rewrite Hcwd, Hroot. reflexivity.
  - intros p k fp Hch Hreach Hfp Hdir.
    assert (Hnav : _navigate_path fuel s ".." false = Ret (Some p)).
    { unfold _navigate_path. simpl.
      rewrite (find_parent_exact (heap s) (cwd s) p k fuel (root s) Hst Hch
                 (wf_root s Hwf) ltac:(lia) Hreach).
      reflexivity. }
    split; [exact Hnav|]. unfold cd. rewrite Hnav. simpl.
    apply deref_Ret in Hfp. rewrite Hfp. simpl. rewrite Hdir.
    unfold has_permission. simpl. split; intros Hx.
    + destruct (Z.eqb_spec (Z.land (permissions fp) 64) 0);
        [contradiction|reflexivity].
    + now rewrite Hx.
Qed.

(** On the tree of the tests, [cd ..] from [dir1] returns to the root. *)
Lemma C7_dotdot_witness :
  cd 6 (set_cwd readonly_root_state 2) [".."] = Ret (readonly_root_state, []).
Proof.
  assert (Hwf : wf (set_cwd readonly_root_state 2)).
  { apply wf_set_cwd; [exact wf_readonly_root_state|simpl; lia]. }
  destruct (C7_dotdot (set_cwd readonly_root_state 2) 6 Hwf) as (_ & _ & Hup).
  { simpl. lia. }
  destruct (Hup 0 "dir1"
              (mkVirtualFile "/" true 365 [("file1.txt", 1); ("dir1", 2)]))
    as (_ & Hmove & _).
  - eexists. split; [reflexivity|]. simpl. auto.
  - constructor.
  - reflexivity.
  - reflexivity.
  - apply Hmove. simpl. discriminate.
Defined.

(** C8: the object at a path of the loaded tree has as its mode the
    external attributes of the entry that created it, the first entry
    whose path passes through that path, shifted right by 16 bits and
    masked with 0o777, or 0o755 when that value is zero; and every object
    but the root is at such a path. *)
Theorem C8_mode_from_external_attr (infolist : list ZipInfo) :
  exists s, VirtualFileSystem_init infolist = Ret s /\
    (forall ks file_info,
       ks <> [] -> first_through ks infolist = Some file_info ->
       exists n f, resolve (heap s) (root s) ks = Some n /\
                   heap s !! n = Some f /\
         let raw_mode := Z.land (Z.shiftr (external_attr file_info) 16) 511%Z in
         permissions f = if Z.eqb raw_mode 0 then 493%Z else raw_mode) /\
    (forall q f, heap s !! q = Some f -> q <> root s ->
       exists ks file_info,
         ks <> [] /\ first_through ks infolist = Some file_info /\
         resolve (heap s) (root s) ks = Some q /\
         let raw_mode := Z.land (Z.shiftr (external_attr file_info) 16) 511%Z in
         permissions f = if Z.eqb raw_mode 0 then 493%Z else raw_mode).
Proof.
  unfold VirtualFileSystem_init.
  destruct (load_zip_extends infolist [root_node] 0 wf_store_root_node)
    as (h & Hload & _ & _); [simpl; lia|].
  rewrite Hload. cbn [bind]. eexists. split; [reflexivity|]. simpl.
  assert (Hchar : forall ks, ks <> [] ->
            match first_through ks infolist with
            | Some file_info =>
                exists n f, resolve h 0 ks = Some n /\ h !! n = Some f /\
                            is_dir f = info_is_dir file_info /\
                            permissions f = entry_permissions file_info
            | None => resolve h 0 ks = None
            end).
  { intros ks Hks.
    apply (load_zip_resolve infolist [root_node] 0 h wf_store_root_node
             ltac:(simpl; lia) Hload ks).
    destruct ks; [contradiction|reflexivity]. }
  split.
  - intros ks r Hks Hfirst. specialize (Hchar ks Hks). rewrite Hfirst in Hchar.
    destruct Hchar as (n & f & Hn & Hf & _ & Hmode). exists n, f. auto.
  - intros q f Hf Hq.
    destruct (load_zip_paths infolist [root_node] 0 h wf_store_root_node
                ltac:(simpl; lia) Hload q) as (ks & Hks & Hres).
    { simpl. lia. }
    { eapply lookup_lt_Some; eauto. }
    specialize (Hchar ks Hks).
    destruct (first_through ks infolist) as [r|] eqn:Hfirst; [|congruence].
    destruct Hchar as (n & f' & Hn & Hf' & _ & Hmode).
    exists ks, r. split; [exact Hks|]. split; [exact Hfirst|].
    split; [exact Hres|].
    replace f with f' by congruence. exact Hmode.
Qed.

(** In the tree of [mixed_mode_archive] the file [a] has the mode 0o600
    that its entry stores, and the file [b], whose entry stores no mode,
    has 0o755. *)
Lemma C8_mode_from_external_attr_witness :
  exists s, VirtualFileSystem_init mixed_mode_archive = Ret s /\
    (exists n f, resolve (heap s) (root s) ["a"] = Some n /\
                 heap s !! n = Some f /\ permissions f = 384%Z) /\
    (exists n f, resolve (heap s) (root s) ["b"] = Some n /\
                 heap s !! n = Some f /\ permissions f = 493%Z).
Proof.
  destruct (C8_mode_from_external_attr mixed_mode_archive) as (s & Hinit & H & _).
  exists s. split; [exact Hinit|]. split.
  - apply (H ["a"] (mkZipInfo "a" false (unix_attr 384)));
      [discriminate|reflexivity].
  - apply (H ["b"] (mkZipInfo "b" false 0)); [discriminate|reflexivity].
Defined.

(** C9 (counterexample): in the tree of [file_first_archive] the directory
    [b] is reached from the root under the plain names [a] and [b], but
    [a] is not a directory; [_find_parent] does not look below [a], and
    [_get_path] raises instead of producing a path. *)
Lemma C9_get_path_raises :
  exists s,
    VirtualFileSystem_init file_first_archive = Ret s /\
    resolve (heap s) (root s) ["a"; "b"] = Some 3 /\
    forallb plain_name ["a"; "b"] = true /\
    _get_path 4 s 3 = Raise "AttributeError".
Proof.
  eexists. split; [reflexivity|]. split; [reflexivity|]. split; reflexivity.
Qed.

(** C9 (amended): for every object reached from the root along plain names
    (not empty, no separator, neither [.] nor [..]) through directories
    only, [_get_path] returns the separator-joined absolute path of these
    names, and resolving that text yields exactly that object; the path of
    the root is the separator alone. *)
Theorem C9_get_path_roundtrip (s : VirtualFileSystem) (fuel : nat)
    (ks : list string) (n : nat) :
  wf s -> length (heap s) <= fuel ->
  resolve_dirs (heap s) (root s) ks = Some n ->
  forallb plain_name ks = true ->
  _get_path fuel s n =
    Ret (match ks with [] => "/" | _ :: _ => abs_path ks end) /\
  _navigate_path fuel s (match ks with [] => "/" | _ :: _ => abs_path ks end) false =
    Ret (Some n).
Proof.
  intros Hwf Hfuel Hres Hplain. pose proof (wf_heap s Hwf) as Hst.
  pose proof (resolve_dirs_resolve _ _ _ _ Hres) as Hres'.
  pose proof (resolve_depth _ _ Hst _ _ Hres') as Hdepth.
  assert (Hn : n < length (heap s)).
  { apply (reachable_lt _ (root s) n Hst (wf_root s Hwf)).
    now apply resolve_reachable with ks. }
  split.
  - unfold _get_path.
    replace fuel with (length ks + (fuel - length ks)) at 1 by lia.
    rewrite (get_path_climb s fuel Hwf Hfuel ks (root s) n EmptyString
               (fuel - length ks) ltac:(intros _; constructor) Hres).
    destruct (fuel - length ks) as [|steps] eqn:E; [lia|].
    simpl. rewrite Nat.eqb_refl. simpl. rewrite string_app_nil_r.
    destruct ks as [|k rest]; reflexivity.
  - destruct ks as [|k rest].
    + injection Hres' as <-. reflexivity.
    + destruct (parts_of_abs_path k rest Hplain) as [Hstart Hparts].
      unfold _navigate_path. rewrite Hstart, Hparts.
      now apply navigate_loop_plain.
Qed.

(** On the tree of the tests, [subdir1] has the path [/dir1/subdir1]. *)
Lemma C9_get_path_roundtrip_witness :
  _get_path 6 readonly_root_state 4 = Ret "/dir1/subdir1" /\
  _navigate_path 6 readonly_root_state "/dir1/subdir1" false = Ret (Some 4).
Proof.
  apply (C9_get_path_roundtrip readonly_root_state 6 ["dir1"; "subdir1"] 4
           wf_readonly_root_state).
  - simpl. lia.
  - reflexivity.
  - reflexivity.
Defined.

(** C10 (counterexample): in the tree of [empty_segment_archive] the
    directory [d] holds a child named by the empty string; [rm d/y/]
    resolves the parent [d], finds that child under the empty basename and
    removes it, printing nothing. *)
Lemma C10_empty_name_removed :
  exists s s',
    VirtualFileSystem_init empty_segment_archive = Ret s /\
    endswith_slash "d/y/" = true /\
    rm 5 s ["d/y/"] = Ret (s', []) /\
    heap s !! 1 = Some (mkVirtualFile "d" true 493 [(EmptyString, 2); ("y", 4)]) /\
    heap s' !! 1 = Some (mkVirtualFile "d" true 493 [("y", 4)]).
Proof.
  eexists. eexists. split; [reflexivity|]. split; [reflexivity|].
  split; [reflexivity|]. split; reflexivity.
Qed.

(** C10 (amended): for an [rm] argument that ends in the separator the
    target name is the empty string, so [rm] prints "No such file or
    directory" and leaves the state unchanged whenever the resolved parent
    holds no child named by the empty string, whatever else it holds; and
    [rm] never changes which object is the root nor that object's name,
    kind and mode. *)
Theorem C10_trailing_separator (s : VirtualFileSystem) (fuel : nat)
    (path : string) (rest : list string) :
  wf s -> length (heap s) <= fuel ->
  endswith_slash path = true ->
  basename path = EmptyString /\
  exists r, _navigate_path fuel s path true = Ret r /\
    ((forall p fp, r = Some p -> heap s !! p = Some fp ->
        dict_get EmptyString (children fp) = None) ->
     rm fuel s (path :: rest) =
       Ret (s, ["rm: cannot remove '" +:+ path +:+ "': No such file or directory"])) /\
    exists s' out, rm fuel s (path :: rest) = Ret (s', out) /\
      root s' = root s /\
      exists f f', heap s !! root s = Some f /\ heap s' !! root s' = Some f' /\
                   name f' = name f /\ is_dir f' = is_dir f /\
                   permissions f' = permissions f.
Proof.
  intros Hwf Hfuel Hend. pose proof (basename_trailing_slash path Hend) as Hbase.
  split; [exact Hbase|].
  destruct (navigate_path_spec s fuel path true Hwf Hfuel) as (r & Hnav & Hvalid).
  exists r. split; [exact Hnav|].
  destruct (lookup_lt_is_Some_2 (heap s) (root s) (wf_root s Hwf)) as [f Hroot].
  assert (Hsame : exists f0 f', heap s !! root s = Some f0 /\
            heap s !! root s = Some f' /\ name f' = name f0 /\
            is_dir f' = is_dir f0 /\ permissions f' = permissions f0)
    by (exists f, f; auto).
  unfold rm. rewrite Hnav, Hbase. simpl.
  destruct r as [p|]; [|split; [reflexivity|]; exists s; eexists; auto].
  destruct (Hvalid p eq_refl) as [Hp _].
  destruct (deref_lt (heap s) p Hp) as (fp & Hfp & ->). simpl.
  split.
  - intros Hnone. unfold dict_mem. now rewrite (Hnone p fp eq_refl Hfp).
  - destruct (dict_mem EmptyString (children fp)); [|exists s; eexists; auto].
    destruct (has_permission fp "w"); [|exists s; eexists; auto].
    eexists. eexists. split; [reflexivity|]. simpl. split; [reflexivity|].
    exists f. destruct (Nat.eq_dec p (root s)) as [->|Hne].
    + eexists. rewrite list_lookup_insert_eq by exact Hp.
      split; [exact Hroot|]. split; [reflexivity|].
      replace fp with f by congruence. auto.
    + exists f. rewrite list_lookup_insert_ne by exact Hne. auto.
Qed.

(** On the tree of the tests, [rm dir1/] fails although [dir1] is there. *)
Lemma C10_trailing_separator_witness :
  rm 6 readonly_root_state ["dir1/"] =
    Ret (readonly_root_state,
         ["rm: cannot remove 'dir1/': No such file or directory"]).
Proof.
  destruct (C10_trailing_separator readonly_root_state 6 "dir1/" []
              wf_readonly_root_state) as (_ & r & Hnav & Hrm & _).
  { simpl. lia. }
  { reflexivity. }
  apply Hrm. vm_compute in Hnav. injection Hnav as <-.
  intros p fp [= <-] Hfp. simpl in Hfp. injection Hfp as <-. reflexivity.
Defined.

(** * Further properties of the code *)

(** ** Effects of commands *)

Lemma cd_effect (fuel : nat) (s s' : VirtualFileSystem) (args out : list string) :
  cd fuel s args = Ret (s', out) -> effect s s' out.
Proof.
  unfold cd. intros H. ret_cases H; injection H as <- <-; constructor.
Qed.

Lemma rm_effect (fuel : nat) (s s' : VirtualFileSystem) (args out : list string) :
  rm fuel s args = Ret (s', out) -> effect s s' out.
Proof.
  unfold rm. intros H. ret_cases H; injection H as <- <-; try constructor.
  - match goal with Hd : deref _ _ = Ret _ |- _ => now apply deref_Ret in Hd end.
  - now apply has_permission_w.
Qed.

Section ShellEffects.

Variable int_base8 : string -> option Z.

Lemma chmod_effect (fuel : nat) (s s' : VirtualFileSystem) (args out : list string) :
  chmod int_base8 fuel s args = Ret (s', out) -> effect s s' out.
Proof.
  unfold chmod. intros H. ret_cases H; injection H as <- <-; try constructor.
  - match goal with Hd : deref _ _ = Ret _ |- _ => now apply deref_Ret in Hd end.
  - now apply has_permission_w.
Qed.

Variable shlex_split : string -> option (list string).

Lemma execute_command_effect (fuel : nat) (s s' : VirtualFileSystem)
    (command_line : string) (out : list string) :
  execute_command int_base8 shlex_split fuel s command_line = Ret (s', out) ->
  effect s s' out.
Proof.
  unfold execute_command.
  destruct (shlex_split command_line) as [[|command rest]|]; [| |discriminate].
  - intros [= <- <-]. constructor.
  - unfold builtins. destruct (String.eqb command "ls").
    { intros H. rewrite (ls_state _ _ _ _ _ H). constructor. }
    destruct (String.eqb command "cd"); [apply cd_effect|].
    destruct (String.eqb command "exit"); [discriminate|].
    destruct (String.eqb command "chmod"); [apply chmod_effect|].
    destruct (String.eqb command "rm"); [apply rm_effect|].
    destruct (String.eqb command "find").
    { intros H. rewrite (find_state _ _ _ _ _ H). constructor. }
    intros [= <- <-]. constructor.
Qed.

(** A property of pairs of states that every effect respects holds between
    the start and the end of a session. *)
Lemma run_script_effects (R : VirtualFileSystem -> VirtualFileSystem -> Prop) :
  (forall s, R s s) ->
  (forall s1 s2 s3, R s1 s2 -> R s2 s3 -> R s1 s3) ->
  (forall s s' out, effect s s' out -> R s s') ->
  forall fuel script s s' out,
    run_script int_base8 shlex_split fuel s script = Ret (s', out) -> R s s'.
Proof.
  intros Hrefl Htrans Heff fuel script.
  induction script as [|line more IH]; intros s s' out; simpl.
  - intros [= <- <-]. apply Hrefl.
  - intros H. apply bind_Ret in H as ([s1 out1] & H1 & H).
    apply bind_Ret in H as ([s2 out2] & H2 & H). injection H as <- <-.
    simpl in H2. apply Htrans with s1.
    + eapply Heff, execute_command_effect, H1.
    + eapply IH, H2.
Qed.

End ShellEffects.

Lemma lookup_update (h : list VirtualFile) (p : nat) (d d' : VirtualFile) (r : nat)
    (f : VirtualFile) :
  h !! p = Some d -> h !! r = Some f ->
  (r = p /\ f = d /\ <[p := d']> h !! r = Some d') \/
  (r <> p /\ <[p := d']> h !! r = Some f).
Proof.
  intros Hp Hr. destruct (Nat.eq_dec r p) as [->|Hne].
  - left. rewrite list_lookup_insert_eq by (eapply lookup_lt_Some; eauto).
    split; [reflexivity|]. split; congruence.
  - right. now rewrite list_lookup_insert_ne by congruence.
Qed.

Lemma effect_only_shrinks (s s' : VirtualFileSystem) (out : list string) :
  effect s s' out -> only_shrinks s s'.
Proof.
  intros [out'|t|t f mode Ht Hw|p d k Hp Hw]; unfold only_shrinks; simpl;
    rewrite ?length_insert; (split; [reflexivity|]); (split; [reflexivity|]);
    intros r g Hg.
  - exists g. repeat split; auto.
  - exists g. repeat split; auto.
  - destruct (lookup_update _ t f (set_permissions f mode) r g Ht Hg)
      as [(-> & -> & ->)|(_ & ->)]; eexists; repeat split; auto.
  - destruct (lookup_update _ p d (set_children d (dict_del k (children d))) r g
                Hp Hg) as [(-> & -> & ->)|(_ & ->)]; eexists;
      (split; [reflexivity|]); simpl; repeat split; auto;
      intros e He; first [exact He|now apply dict_del_In in He].
Qed.

Lemma only_shrinks_refl (s : VirtualFileSystem) : only_shrinks s s.
Proof.
  split; [reflexivity|]. split; [reflexivity|]. intros r f Hf. exists f.
  repeat split; auto.
Qed.

Lemma only_shrinks_trans (s1 s2 s3 : VirtualFileSystem) :
  only_shrinks s1 s2 -> only_shrinks s2 s3 -> only_shrinks s1 s3.
Proof.
  intros (L1 & R1 & H1) (L2 & R2 & H2). split; [congruence|]. split; [congruence|].
  intros r f Hf. destruct (H1 r f Hf) as (f2 & Hf2 & Hn2 & Hd2 & Hc2).
  destruct (H2 r f2 Hf2) as (f3 & Hf3 & Hn3 & Hd3 & Hc3).
  exists f3. repeat split; try congruence. auto.
Qed.

Lemma effect_keeps_locked_modes (s s' : VirtualFileSystem) (out : list string) :
  effect s s' out -> keeps_locked_modes s s'.
Proof.
  intros [out'|t|t f mode Ht Hw|p d k Hp Hw]; unfold keeps_locked_modes; simpl;
    intros r g Hg Hlocked; try (exists g; auto; fail).
  - destruct (lookup_update _ t f (set_permissions f mode) r g Ht Hg)
      as [(-> & -> & _)|(_ & ->)]; [contradiction|eauto].
  - destruct (lookup_update _ p d (set_children d (dict_del k (children d))) r g
                Hp Hg) as [(-> & -> & ->)|(_ & ->)]; eauto.
Qed.

Lemma keeps_locked_modes_trans (s1 s2 s3 : VirtualFileSystem) :
  keeps_locked_modes s1 s2 -> keeps_locked_modes s2 s3 -> keeps_locked_modes s1 s3.
Proof.
  intros H1 H2 t f Hf Hlocked. destruct (H1 t f Hf Hlocked) as (f2 & Hf2 & Hp2).
  destruct (H2 t f2 Hf2) as (f3 & Hf3 & Hp3); [congruence|].
  exists f3. split; [exact Hf3|congruence].
Qed.

(** X1: whatever the commands of a script do, they create no object and
    rename none, never turn a file into a directory or back, never move
    the root, and never add an entry to any [children] mapping: each
    object's entries at the end are among those it had at the start. *)
Theorem X1_sessions_only_shrink (int_base8 : string -> option Z)
    (shlex_split : string -> option (list string)) (fuel : nat)
    (script : list string) (s s' : VirtualFileSystem) (out : list string) :
  run_script int_base8 shlex_split fuel s script = Ret (s', out) ->
  length (heap s') = length (heap s) /\ root s' = root s /\
  forall r f, heap s !! r = Some f ->
    exists f', heap s' !! r = Some f' /\ name f' = name f /\
               is_dir f' = is_dir f /\
               forall e, In e (children f') -> In e (children f).
Proof.
  apply (run_script_effects int_base8 shlex_split only_shrinks).
  - apply only_shrinks_refl.
  - apply only_shrinks_trans.
  - apply effect_only_shrinks.
Qed.

(** In the sample session the file [file2.txt] leaves [dir1], and [dir1]
    gains nothing. *)
Lemma X1_sessions_only_shrink_witness :
  exists s' out f',
    run_script plain_octal plain_split 6 test_state sample_script = Ret (s', out) /\
    heap s' !! 2 = Some f' /\ name f' = "dir1" /\ is_dir f' = true /\
    forall e, In e (children f') -> In e [("file2.txt", 3); ("subdir1", 4)].
Proof.
  eexists. eexists.
  destruct (X1_sessions_only_shrink plain_octal plain_split 6 sample_script
              test_state _ _ eq_refl) as (_ & _ & H).
  destruct (H 2 _ eq_refl) as (f' & Hf' & Hn & Hd & Hc).
  exists f'. split; [reflexivity|]. auto.
Defined.

(** X2: an object whose write bit (0o200) is clear keeps its mode through
    every script: [chmod] is gated on the target's own write bit and
    nothing else writes modes, so clearing that bit cannot be undone. *)
Theorem X2_cleared_write_bit_is_final (int_base8 : string -> option Z)
    (shlex_split : string -> option (list string)) (fuel : nat)
    (script : list string) (s s' : VirtualFileSystem) (out : list string)
    (t : nat) (f : VirtualFile) :
  run_script int_base8 shlex_split fuel s script = Ret (s', out) ->
  heap s !! t = Some f -> Z.land (permissions f) 128 = 0%Z ->
  exists f', heap s' !! t = Some f' /\ permissions f' = permissions f.
Proof.
  intros Hrun. revert t f.
  apply (run_script_effects int_base8 shlex_split keeps_locked_modes)
    with fuel script out.
  - intros s0 t f Hf _. eauto.
  - apply keeps_locked_modes_trans.
  - apply effect_keeps_locked_modes.
  - exact Hrun.
Qed.

(** With [file1.txt] at mode 0o444, [chmod 644 file1.txt] is refused and the
    file keeps its mode through the script. *)
Lemma X2_cleared_write_bit_is_final_witness :
  exists s' out f',
    run_script plain_octal plain_split 6 locked_file_state
      ["chmod 644 file1.txt"; "rm dir1/file2.txt"] = Ret (s', out) /\
    heap s' !! 1 = Some f' /\ permissions f' = 292%Z.
Proof.
  eexists. eexists.
  destruct (X2_cleared_write_bit_is_final plain_octal plain_split 6
              ["chmod 644 file1.txt"; "rm dir1/file2.txt"]
              locked_file_state _ _ 1 (mkVirtualFile "file1.txt" false 292 [])
              eq_refl eq_refl eq_refl) as (f' & Hf' & Hp).
  exists f'. split; [reflexivity|]. auto.
Defined.

(** X3: a command that changes the state prints nothing; put the other way
    round, whenever a command prints a line (an error or a listing) the
    tree and the cursor are exactly as before. *)
Theorem X3_changes_are_silent (int_base8 : string -> option Z)
    (shlex_split : string -> option (list string)) (fuel : nat)
    (s s' : VirtualFileSystem) (command_line : string) (out : list string) :
  execute_command int_base8 shlex_split fuel s command_line = Ret (s', out) ->
  s' <> s -> out = [].
Proof.
  intros H Hne. apply execute_command_effect in H.
  destruct H as [out'|t|t f mode Ht Hw|p d k Hp Hw]; [contradiction|auto..].
Qed.

(** [rm dir1/file2.txt] on the tree of the tests changes it, silently. *)
Lemma X3_changes_are_silent_witness :
  exists s',
    execute_command plain_octal plain_split 6 test_state "rm dir1/file2.txt"
      = Ret (s', []) /\
    s' <> test_state.
Proof.
  eexists.
  assert (Hne : set_heap test_state
                  (<[2 := mkVirtualFile "dir1" true 493 [("subdir1", 4)]]>
                     (heap test_state)) <> test_state) by discriminate.
  pose proof (X3_changes_are_silent plain_octal plain_split 6 test_state _
                "rm dir1/file2.txt" [] eq_refl Hne) as Hout.
  split; [reflexivity|exact Hne].
Defined.

(** X4: the tree built from any archive is a forest in which every child
    is stored under its own name, keys are unique, no object has two
    parents and nothing holds the root; a script every line of which
    [shlex.split] accepts and none of which invokes [exit] runs to
    completion on it and leaves a tree of that shape with a directory as
    root. *)
Theorem X4_tree_shape_is_kept (int_base8 : string -> option Z)
    (shlex_split : string -> option (list string))
    (infolist : list ZipInfo) (script : list string) :
  Forall (invokes shlex_split (fun command => command <> "exit")) script ->
  exists s0, VirtualFileSystem_init infolist = Ret s0 /\ wf s0 /\
    forall fuel, length (heap s0) <= fuel ->
      exists s out,
        run_script int_base8 shlex_split fuel s0 script = Ret (s, out) /\
        wf s /\ is_directory (heap s) (root s).
Proof.
  intros Hexit.
  destruct (init_spec infolist) as (s0 & Hinit & Hok & _).
  exists s0. split; [exact Hinit|]. split; [apply (ok_wf s0 Hok)|].
  intros fuel Hfuel.
  destruct (run_script_spec int_base8 shlex_split fuel script s0 Hok Hfuel Hexit)
    as (s & out & Hrun & Hok' & _).
  exists s, out. split; [exact Hrun|]. split; [apply Hok'|apply Hok'].
Qed.

(** The sample script on the tree loaded from [locked_parent_archive]. *)
Lemma X4_tree_shape_is_kept_witness :
  exists s0 s out,
    VirtualFileSystem_init locked_parent_archive = Ret s0 /\
    run_script plain_octal plain_split 3 s0 sample_script = Ret (s, out) /\ wf s.
Proof.
  destruct (X4_tree_shape_is_kept plain_octal plain_split locked_parent_archive
              sample_script) as (s0 & Hinit & _ & H).
  { repeat constructor; eexists; (split; [reflexivity|]); simpl; discriminate. }
  assert (Hlen : length (heap s0) <= 3).
  { vm_compute in Hinit. injection Hinit as <-. simpl. lia. }
  destruct (H 3 Hlen) as (s & out & Hrun & Hwf & _).
  exists s0, s, out. auto.
Defined.

(** ** Resolution of paths *)

(** X5: resolution of a target acts only on the segments that are
    neither empty nor [.]: two paths that are both absolute or both
    relative and have the same such segments, in order, resolve to the
    same target (repeated and trailing separators and [.] segments make no
    difference).  Resolution of a parent first drops the last segment,
    whatever it is, and then acts in the same way on the rest: two such
    paths have the same parent when their segments before the last agree
    in this sense, and they may have different parents otherwise. *)
Theorem X5_resolution_skips_empty_and_dot (fuel : nat) (s : VirtualFileSystem)
    (path1 path2 : string) :
  startswith_slash path1 = startswith_slash path2 ->
  (List.filter real_segment (split_slash (strip_slash path1)) =
   List.filter real_segment (split_slash (strip_slash path2)) ->
   _navigate_path fuel s path1 false = _navigate_path fuel s path2 false) /\
  (List.filter real_segment (removelast (split_slash (strip_slash path1))) =
   List.filter real_segment (removelast (split_slash (strip_slash path2))) ->
   _navigate_path fuel s path1 true = _navigate_path fuel s path2 true).
Proof.
  intros Hstart. unfold _navigate_path. rewrite Hstart. split; intros Hparts.
  - rewrite (navigate_loop_filter fuel s (split_slash (strip_slash path1))).
    rewrite (navigate_loop_filter fuel s (split_slash (strip_slash path2))).
    now rewrite Hparts.
  - destruct (split_slash_cons (strip_slash path1)) as (w1 & ws1 & E1).
    destruct (split_slash_cons (strip_slash path2)) as (w2 & ws2 & E2).
    rewrite E1, E2 in *.
    change (Nat.ltb 0 (length (w1 :: ws1))) with true.
    change (Nat.ltb 0 (length (w2 :: ws2))) with true. cbv iota.
    rewrite (navigate_loop_filter fuel s (removelast (w1 :: ws1))).
    rewrite (navigate_loop_filter fuel s (removelast (w2 :: ws2))).
    now rewrite Hparts.
Qed.

(** [dir1//./subdir1/] and [dir1/subdir1] name the same target; the
    parents of [dir1/./subdir1] and [dir1//subdir1] are the same, whereas
    [dir1/file2.txt] and [dir1/file2.txt/.], which name the same target,
    have different parents. *)
Lemma X5_resolution_skips_empty_and_dot_witness :
  _navigate_path 6 test_state "dir1//./subdir1/" false =
    _navigate_path 6 test_state "dir1/subdir1" false /\
  _navigate_path 6 test_state "dir1/./subdir1" true =
    _navigate_path 6 test_state "dir1//subdir1" true /\
  _navigate_path 6 test_state "dir1/file2.txt" false =
    _navigate_path 6 test_state "dir1/file2.txt/." false /\
  _navigate_path 6 test_state "dir1/file2.txt" true = Ret (Some 2) /\
  _navigate_path 6 test_state "dir1/file2.txt/." true = Ret (Some 3).
Proof.
  split; [|split; [|split]].
  - apply (X5_resolution_skips_empty_and_dot 6 test_state "dir1//./subdir1/"
             "dir1/subdir1"); reflexivity.
  - apply (X5_resolution_skips_empty_and_dot 6 test_state "dir1/./subdir1"
             "dir1//subdir1"); reflexivity.
  - apply (X5_resolution_skips_empty_and_dot 6 test_state "dir1/file2.txt"
             "dir1/file2.txt/."); reflexivity.
  - split; reflexivity.
Defined.

(** X6: resolution composes: walking the segments [p1 ++ p2] is walking
    [p1] and, when that yields an object, walking [p2] from it; a failure
    in [p1] is the failure of the whole. *)
Theorem X6_resolution_composes (fuel : nat) (s : VirtualFileSystem)
    (p1 p2 : list string) (cur : nat) :
  (forall m, navigate_loop fuel s cur p1 = Ret (Some m) ->
     navigate_loop fuel s cur (p1 ++ p2) = navigate_loop fuel s m p2) /\
  (navigate_loop fuel s cur p1 = Ret None ->
     navigate_loop fuel s cur (p1 ++ p2) = Ret None).
Proof.
  rewrite navigate_loop_app. split.
  - intros m ->. reflexivity.
  - intros ->. reflexivity.
Qed.

Lemma X6_resolution_composes_witness :
  navigate_loop 6 test_state 0 (["dir1"; ".."] ++ ["dir1"; "subdir1"]) =
  navigate_loop 6 test_state 0 ["dir1"; "subdir1"].
Proof.
  destruct (X6_resolution_composes 6 test_state ["dir1"; ".."] ["dir1"; "subdir1"] 0)
    as [H _].
  apply H. reflexivity.
Defined.

(** X7: an absolute path resolves to the same object wherever the cursor
    is. *)
Theorem X7_absolute_paths_ignore_cursor (fuel : nat) (s : VirtualFileSystem)
    (c : nat) (path : string) (parent : bool) :
  startswith_slash path = true ->
  _navigate_path fuel (set_cwd s c) path parent = _navigate_path fuel s path parent.
Proof.
  intros Hstart. unfold _navigate_path. rewrite Hstart. simpl.
  now apply navigate_loop_state.
Qed.

Lemma X7_absolute_paths_ignore_cursor_witness :
  _navigate_path 6 (set_cwd test_state 4) "/dir1/file2.txt" false = Ret (Some 3).
Proof.
  rewrite (X7_absolute_paths_ignore_cursor 6 test_state 4 "/dir1/file2.txt" false
             eq_refl).
  reflexivity.
Defined.

(** ** Modes play no part in resolution *)

Lemma same_shape_deref (h h' : list VirtualFile) (q : nat) :
  same_shape h h' ->
  match deref h q, deref h' q with
  | Ret f, Ret f' => children f' = children f /\ is_dir f' = is_dir f
  | Raise e, Raise e' => e = e'
  | _, _ => False
  end.
Proof.
  intros Hs. specialize (Hs q). unfold deref.
  destruct (h !! q), (h' !! q); auto.
Qed.

Lemma find_parent_loop_shape (rec rec' : nat -> outcome (option nat))
    (h h' : list VirtualFile) (cur t : nat) (vals : list nat) :
  same_shape h h' -> (forall c, rec' c = rec c) ->
  find_parent_loop rec' h' cur t vals = find_parent_loop rec h cur t vals.
Proof.
  intros Hs Hrec. induction vals as [|c vals IH]; [reflexivity|]. simpl.
  destruct (Nat.eqb c t); [reflexivity|].
  pose proof (same_shape_deref h h' c Hs) as Hc.
  destruct (deref h c) as [f| |], (deref h' c) as [f'| |]; try contradiction;
    simpl; [|congruence].
  destruct Hc as [_ ->]. rewrite Hrec, IH. reflexivity.
Qed.

Lemma find_parent_shape (h h' : list VirtualFile) (t : nat) :
  same_shape h h' ->
  forall fuel cur, _find_parent fuel h' cur t = _find_parent fuel h cur t.
Proof.
  intros Hs. induction fuel as [|fuel IH]; intros cur; [reflexivity|]. simpl.
  pose proof (same_shape_deref h h' cur Hs) as Hc.
  destruct (deref h cur) as [f| |], (deref h' cur) as [f'| |]; try contradiction;
    simpl; [|congruence].
  destruct Hc as [-> _]. now apply find_parent_loop_shape.
Qed.

Lemma navigate_loop_shape (fuel : nat) (s s' : VirtualFileSystem)
    (parts : list string) :
  same_shape (heap s) (heap s') -> root s' = root s ->
  forall cur, navigate_loop fuel s' cur parts = navigate_loop fuel s cur parts.
Proof.
  intros Hs Hr. induction parts as [|part rest IH]; intros cur; [reflexivity|].
  cbn [navigate_loop]. rewrite Hr, (find_parent_shape _ _ cur Hs).
  destruct (orb (String.eqb part EmptyString) (String.eqb part ".")); [apply IH|].
  destruct (String.eqb part "..").
  - destruct (_find_parent fuel (heap s) (root s) cur) as [[p|]| |];
      cbn [bind]; auto.
  - pose proof (same_shape_deref _ _ cur Hs) as Hc.
    destruct (deref (heap s) cur) as [f| |], (deref (heap s') cur) as [f'| |];
      try contradiction; cbn [bind]; [|congruence].
    destruct Hc as [-> _]. destruct (dict_get part (children f)); auto.
Qed.

Lemma same_shape_chmod (h : list VirtualFile) (t : nat) (f : VirtualFile) (mode : Z) :
  h !! t = Some f -> same_shape h (<[t := set_permissions f mode]> h).
Proof.
  intros Ht q. destruct (Nat.eq_dec t q) as [->|Hne].
  - rewrite list_lookup_insert_eq by (eapply lookup_lt_Some; eauto).
    rewrite Ht. simpl. auto.
  - rewrite list_lookup_insert_ne by exact Hne. destruct (h !! q); auto.
Qed.

Lemma navigate_path_chmod (fuel : nat) (s : VirtualFileSystem)
    (t : nat) (f : VirtualFile) (mode : Z) (path : string) (parent : bool) :
  heap s !! t = Some f ->
  _navigate_path fuel (set_heap s (<[t := set_permissions f mode]> (heap s)))
    path parent
  = _navigate_path fuel s path parent.
Proof.
  intros Ht. unfold _navigate_path. simpl.
  apply navigate_loop_shape; simpl; [|reflexivity].
  now apply same_shape_chmod.
Qed.

(** X8: permission bits play no part in path resolution: giving any object
    any mode changes the resolution of no path, whether of the target or
    of its parent. *)
Theorem X8_resolution_ignores_modes (fuel : nat) (s : VirtualFileSystem)
    (t : nat) (f : VirtualFile) (mode : Z) (path : string) (parent : bool) :
  heap s !! t = Some f ->
  _navigate_path fuel (set_heap s (<[t := set_permissions f mode]> (heap s)))
    path parent
  = _navigate_path fuel s path parent.
Proof.
  apply navigate_path_chmod.
Qed.

(** With [dir1] at mode 0 the file below it still resolves. *)
Lemma X8_resolution_ignores_modes_witness :
  _navigate_path 6
    (set_heap test_state
       (<[2 := mkVirtualFile "dir1" true 0 [("file2.txt", 3); ("subdir1", 4)]]>
          (heap test_state)))
    "dir1/file2.txt" false
  = Ret (Some 3).
Proof.
  exact (X8_resolution_ignores_modes 6 test_state 2
           (mkVirtualFile "dir1" true 493 [("file2.txt", 3); ("subdir1", 4)])
           0 "dir1/file2.txt" false eq_refl).
Defined.

(** X9: two [chmod]s of the same path in a row: when the first one is
    allowed and its mode keeps the write bit, the second is allowed too and
    the outcome is that of the second alone; when the first mode clears the
    write bit, the second is refused and the first mode stays. *)
Theorem X9_chmod_twice (int_base8 : string -> option Z)
    (shlex_split : string -> option (list string)) (fuel : nat)
    (s : VirtualFileSystem) (line1 line2 text1 text2 path : string)
    (mode1 mode2 : Z) (t : nat) (f : VirtualFile) :
  shlex_split (strip line1) = Some ["chmod"; text1; path] ->
  shlex_split (strip line2) = Some ["chmod"; text2; path] ->
  int_base8 text1 = Some mode1 -> int_base8 text2 = Some mode2 ->
  _navigate_path fuel s path false = Ret (Some t) ->
  heap s !! t = Some f -> Z.land (permissions f) 128 <> 0%Z ->
  (Z.land mode1 128 <> 0%Z ->
   run_script int_base8 shlex_split fuel s [line1; line2] =
     Ret (set_heap s (<[t := set_permissions f mode2]> (heap s)), [])) /\
  (Z.land mode1 128 = 0%Z ->
   run_script int_base8 shlex_split fuel s [line1; line2] =
     Ret (set_heap s (<[t := set_permissions f mode1]> (heap s)),
          ["chmod: cannot change permissions of '" +:+ path
             +:+ "': Permission denied"])).
Proof.
  intros Hl1 Hl2 H1 H2 Hnav Hf Hw.
  pose proof (lookup_lt_Some _ _ _ Hf) as Hlt.
  assert (Hfirst : chmod int_base8 fuel s [text1; path] =
            Ret (set_heap s (<[t := set_permissions f mode1]> (heap s)), [])).
  { unfold chmod. rewrite H1, Hnav. simpl.
    apply deref_Ret in Hf. rewrite Hf. simpl.
    apply has_permission_w in Hw. now rewrite Hw. }
  assert (Hsecond : forall b,
            has_permission (set_permissions f mode1) "w" = b ->
            chmod int_base8 fuel
              (set_heap s (<[t := set_permissions f mode1]> (heap s)))
              [text2; path] =
            if b
            then Ret (set_heap s (<[t := set_permissions f mode2]> (heap s)), [])
            else Ret (set_heap s (<[t := set_permissions f mode1]> (heap s)),
                      ["chmod: cannot change permissions of '" +:+ path
                         +:+ "': Permission denied"])).
  { intros b Hb. unfold chmod. rewrite H2.
    rewrite (navigate_path_chmod fuel s t f mode1 path false Hf), Hnav.
    simpl. unfold deref. rewrite list_lookup_insert_eq by exact Hlt. simpl.
    rewrite Hb. destruct b; [|reflexivity].
    unfold set_heap. simpl. now rewrite list_insert_insert_eq. }
  assert (Hexec : forall s0 line text,
            shlex_split (strip line) = Some ["chmod"; text; path] ->
            execute_command int_base8 shlex_split fuel s0 (strip line) =
            chmod int_base8 fuel s0 [text; path]).
  { intros s0 line text Hl. unfold execute_command. now rewrite Hl. }
  cbn [run_script].
  rewrite (Hexec s line1 text1 Hl1), Hfirst. cbn [bind fst snd].
  rewrite (Hexec _ line2 text2 Hl2).
  split; intros Hbit.
  - rewrite (Hsecond true); [reflexivity|].
    apply (has_permission_w (set_permissions f mode1)). exact Hbit.
  - rewrite (Hsecond false); [reflexivity|].
    unfold has_permission. simpl. now rewrite Hbit.
Qed.

Lemma X9_chmod_twice_witness :
  run_script plain_octal plain_split 6 test_state
    ["chmod 444 file1.txt"; "chmod 644 file1.txt"] =
  Ret (locked_file_state,
       ["chmod: cannot change permissions of 'file1.txt': Permission denied"]).
Proof.
  assert (Hw : Z.land 420 128 <> 0%Z) by discriminate.
  destruct (X9_chmod_twice plain_octal plain_split 6 test_state
              "chmod 444 file1.txt" "chmod 644 file1.txt"
              "444" "644" "file1.txt"
              292 420 1 (mkVirtualFile "file1.txt" false 420 [])
              eq_refl eq_refl eq_refl eq_refl eq_refl eq_refl Hw) as [_ H].
  apply H. reflexivity.
Defined.

(** ** Listing and removing *)

Lemma print_names_keys (h : list VirtualFile) (d : list (string * nat)) :
  (forall k c, In (k, c) d -> exists fc, h !! c = Some fc /\ name fc = k) ->
  print_names h (dict_values d) = Ret (dict_keys d).
Proof.
  induction d as [|[k c] d IH]; intros Hall; [reflexivity|].
  change (dict_values ((k, c) :: d)) with (c :: dict_values d).
  change (dict_keys ((k, c) :: d)) with (k :: dict_keys d).
  cbn [print_names].
  destruct (Hall k c (or_introl eq_refl)) as (fc & Hfc & Hname).
  apply deref_Ret in Hfc. rewrite Hfc. cbn [bind].
  rewrite IH; [|intros k' c' H; apply Hall; now right].
  cbn [bind]. now rewrite Hname.
Qed.

Lemma ls_listing (s : VirtualFileSystem) (t : nat) (f : VirtualFile) :
  wf s -> heap s !! t = Some f ->
  print_names (heap s) (dict_values (children f)) = Ret (dict_keys (children f)).
Proof.
  intros Hwf Hf. apply print_names_keys. intros k c HIn.
  apply (wf_names _ (wf_heap s Hwf) t k c). exists f. auto.
Qed.

(** X10: what [ls] prints.  Without an argument it lists the cursor's
    entries; with one it resolves it and answers "cannot access ... No such
    file or directory" when nothing or a non-directory is found.  A
    directory without the read bit (0o400) gives "cannot open directory"
    with the directory's own name, not the argument; a readable one gives
    the names of its entries in insertion order.  The state never changes. *)
Theorem X10_ls_outcomes (s : VirtualFileSystem) (fuel : nat) (arg : string)
    (rest : list string) :
  wf s -> length (heap s) <= fuel ->
  (forall f, heap s !! cwd s = Some f ->
     ls fuel s [] =
       Ret (s, if Z.eqb (Z.land (permissions f) 256) 0
               then ["ls: cannot open directory '" +:+ name f
                       +:+ "': Permission denied"]
               else dict_keys (children f))) /\
  exists r, _navigate_path fuel s arg false = Ret r /\
    (r = None \/ (exists t f, r = Some t /\ heap s !! t = Some f /\ is_dir f = false) ->
     ls fuel s (arg :: rest) =
       Ret (s, ["ls: cannot access '" +:+ arg +:+ "': No such file or directory"])) /\
    (forall t f, r = Some t -> heap s !! t = Some f -> is_dir f = true ->
       Z.land (permissions f) 256 = 0%Z ->
       ls fuel s (arg :: rest) =
         Ret (s, ["ls: cannot open directory '" +:+ name f
                    +:+ "': Permission denied"])) /\
    (forall t f, r = Some t -> heap s !! t = Some f -> is_dir f = true ->
       Z.land (permissions f) 256 <> 0%Z ->
       ls fuel s (arg :: rest) = Ret (s, dict_keys (children f))).
Proof.
  intros Hwf Hfuel.
  assert (Hlist : forall t f, heap s !! t = Some f ->
            bind (deref (heap s) t) (fun d =>
              if has_permission d "r"
              then bind (print_names (heap s) (dict_values (children d)))
                     (fun names => Ret (s, [] ++ names))
              else Ret (s, [] ++ ["ls: cannot open directory '" +:+ name d
                                    +:+ "': Permission denied"]))
            = Ret (s, if Z.eqb (Z.land (permissions f) 256) 0
                      then ["ls: cannot open directory '" +:+ name f
                              +:+ "': Permission denied"]
                      else dict_keys (children f))).
  { intros t f Hf. rewrite (proj2 (deref_Ret _ _ _) Hf). cbn [bind].
    unfold has_permission. simpl.
    destruct (Z.eqb (Z.land (permissions f) 256) 0); simpl; [reflexivity|].
    now rewrite (ls_listing s t f Hwf Hf). }
  split.
  - intros f Hf. exact (Hlist (cwd s) f Hf).
  - destruct (navigate_path_spec s fuel arg false Hwf Hfuel) as (r & Hnav & _).
    exists r. split; [exact Hnav|].
    unfold ls, _get_target_dir. rewrite Hnav. cbn [bind].
    split; [|split].
    + intros [->|(t & f & -> & Hf & Hdir)]; [reflexivity|].
      rewrite (proj2 (deref_Ret _ _ _) Hf). cbn [bind]. now rewrite Hdir.
    + intros t f -> Hf Hdir Hr.
      rewrite (proj2 (deref_Ret _ _ _) Hf). cbn [bind]. rewrite Hdir. cbn [bind].
      rewrite (Hlist t f Hf), Hr. reflexivity.
    + intros t f -> Hf Hdir Hr.
      rewrite (proj2 (deref_Ret _ _ _) Hf). cbn [bind]. rewrite Hdir. cbn [bind].
      rewrite (Hlist t f Hf).
      destruct (Z.eqb_spec (Z.land (permissions f) 256) 0);
        [contradiction|reflexivity].
Qed.

(** On the tree of the tests, with the root at mode 0o555: [ls dir1] lists
    its two entries in order. *)
Lemma X10_ls_outcomes_witness :
  ls 6 readonly_root_state ["dir1"] =
    Ret (readonly_root_state, ["file2.txt"; "subdir1"]).
Proof.
  destruct (X10_ls_outcomes readonly_root_state 6 "dir1" []
              wf_readonly_root_state) as (_ & r & Hnav & _ & _ & Hlist).
  { simpl. lia. }
  vm_compute in Hnav. injection Hnav as <-.
  apply (Hlist 2 (mkVirtualFile "dir1" true 493 [("file2.txt", 3); ("subdir1", 4)]));
    [reflexivity|reflexivity|reflexivity|simpl; discriminate].
Defined.

(** X11: when [rm] removes an entry, the name no longer resolves in the
    parent, every other name of the parent resolves as before, the
    remaining names keep their order, every other object of the store is
    untouched, and nothing is printed. *)
Theorem X11_rm_removes_one_entry (s : VirtualFileSystem) (fuel : nat)
    (path : string) (p c : nat) (fp : VirtualFile) :
  wf s ->
  _navigate_path fuel s path true = Ret (Some p) ->
  heap s !! p = Some fp ->
  dict_get (basename path) (children fp) = Some c ->
  Z.land (permissions fp) 128 <> 0%Z ->
  exists s' fp',
    rm fuel s [path] = Ret (s', []) /\
    heap s' !! p = Some fp' /\
    dict_get (basename path) (children fp') = None /\
    (forall k, k <> basename path ->
       dict_get k (children fp') = dict_get k (children fp)) /\
    dict_keys (children fp') =
      List.filter (fun k => negb (String.eqb k (basename path)))
        (dict_keys (children fp)) /\
    (forall q, q <> p -> heap s' !! q = heap s !! q) /\
    cwd s' = cwd s.
Proof.
  intros Hwf Hnav Hfp Hget Hw.
  pose proof (wf_keys _ (wf_heap s Hwf) p fp Hfp) as Hnd.
  exists (set_heap s
            (<[p := set_children fp (dict_del (basename path) (children fp))]>
               (heap s))),
         (set_children fp (dict_del (basename path) (children fp))).
  split.
  - unfold rm. rewrite Hnav. cbn [bind].
    rewrite (proj2 (deref_Ret _ _ _) Hfp). cbn [bind].
    unfold dict_mem. rewrite Hget.
    apply has_permission_w in Hw. now rewrite Hw.
  - simpl. split.
    { apply list_lookup_insert_eq. eapply lookup_lt_Some; eauto. }
    split; [now apply dict_del_get_same|].
    split; [intros k Hk; now apply dict_del_get_other|].
    split; [now apply dict_del_keys_filter|].
    split; [|reflexivity].
    intros q Hq. now apply list_lookup_insert_ne.
Qed.

(** [rm dir1/file2.txt] on the tree of the tests leaves [subdir1] in
    [dir1]. *)
Lemma X11_rm_removes_one_entry_witness :
  exists s' fp',
    rm 6 test_state ["dir1/file2.txt"] = Ret (s', []) /\
    heap s' !! 2 = Some fp' /\ dict_keys (children fp') = ["subdir1"].
Proof.
  assert (Hwf : wf test_state).
  { apply (wf_update readonly_root_state 0
             (mkVirtualFile "/" true 365 [("file1.txt", 1); ("dir1", 2)])
             (mkVirtualFile "/" true 493 [("file1.txt", 1); ("dir1", 2)])
             wf_readonly_root_state); try reflexivity; [auto|].
    repeat constructor; simpl; intuition discriminate. }
  assert (Hw : Z.land 493 128 <> 0%Z) by discriminate.
  destruct (X11_rm_removes_one_entry test_state 6 "dir1/file2.txt" 2 3
              (mkVirtualFile "dir1" true 493 [("file2.txt", 3); ("subdir1", 4)])
              Hwf eq_refl eq_refl eq_refl Hw)
    as (s' & fp' & Hrm & Hfp' & _ & _ & Hkeys & _).
  exists s', fp'. split; [exact Hrm|]. split; [exact Hfp'|exact Hkeys].
Defined.

(** X12: [cd] without an argument moves the cursor to the root with no
    permission test and leaves the tree as it is, whereas [cd /] is
    refused when the root directory lacks the execute bit (0o100). *)
Theorem X12_bare_cd_is_not_gated (s : VirtualFileSystem) (fuel : nat)
    (f : VirtualFile) :
  heap s !! root s = Some f -> is_dir f = true ->
  Z.land (permissions f) 64 = 0%Z ->
  (exists s', cd fuel s [] = Ret (s', []) /\
              cwd s' = root s /\ heap s' = heap s /\ root s' = root s) /\
  cd fuel s ["/"] = Ret (s, ["cd: permission denied: /"]).
Proof.
  intros Hf Hdir Hx. split.
  - eexists. split; [reflexivity|]. simpl. auto.
  - unfold cd, _navigate_path. simpl.
    rewrite (proj2 (deref_Ret _ _ _) Hf). simpl. rewrite Hdir.
    unfold has_permission. simpl. now rewrite Hx.
Qed.

(** With the cursor in [d] below a root of mode 0o600, [cd] goes to the
    root and [cd /] is refused. *)
Lemma X12_bare_cd_is_not_gated_witness :
  cwd closed_root_state = 1 /\
  (exists s', cd 2 closed_root_state [] = Ret (s', []) /\ cwd s' = 0) /\
  cd 2 closed_root_state ["/"] =
    Ret (closed_root_state, ["cd: permission denied: /"]).
Proof.
  split; [reflexivity|].
  destruct (X12_bare_cd_is_not_gated closed_root_state 2
              (mkVirtualFile "/" true 384 [("d", 1)]) eq_refl eq_refl eq_refl)
    as [(s' & Hcd & Hcwd & _) Hdenied].
  split; [|exact Hdenied]. exists s'. auto.
Defined.

(** ** What [find] prints *)

Lemma for_items_Forall (P : string -> Prop)
    (body : string * nat -> outcome (list string)) (items : list (string * nat)) :
  (forall e o, In e items -> body e = Ret o -> Forall P o) ->
  forall out, for_items body items = Ret out -> Forall P out.
Proof.
  induction items as [|e items IH]; simpl; intros Hall out.
  - intros [= <-]. constructor.
  - intros H. apply bind_Ret in H as (o & Ho & H).
    apply bind_Ret in H as (more & Hmore & H). injection H as <-.
    apply Forall_app. split.
    + apply (Hall e o); auto.
    + apply IH; [|exact Hmore]. intros e' o' He'. apply Hall. now right.
Qed.

Lemma for_items_In (body : string * nat -> outcome (list string))
    (items : list (string * nat)) (e : string * nat) :
  In e items ->
  forall out, for_items body items = Ret out ->
    exists o, body e = Ret o /\ forall line, In line o -> In line out.
Proof.
  induction items as [|e' items IH]; simpl; [tauto|]. intros HIn out H.
  apply bind_Ret in H as (o & Ho & H).
  apply bind_Ret in H as (more & Hmore & H). injection H as <-.
  destruct HIn as [->|HIn].
  - exists o. split; [exact Ho|]. intros line Hl. apply in_or_app. now left.
  - destruct (IH HIn more Hmore) as (o' & Ho' & Hincl).
    exists o'. split; [exact Ho'|]. intros line Hl. apply in_or_app. right. auto.
Qed.

Lemma find_recursive_unmatched (h : list VirtualFile) (term : string) :
  (forall q f k c, h !! q = Some f -> In (k, c) (children f) ->
     String.eqb term k = false) ->
  forall fuel cur path out,
    _find_recursive fuel h cur term path = Ret out ->
    Forall is_denied_line out.
Proof.
  intros Hnone. induction fuel as [|fuel IH]; intros cur path out; simpl;
    [discriminate|].
  intros H. apply bind_Ret in H as (d & Hd & H). apply deref_Ret in Hd.
  destruct (negb (has_permission d "x")).
  - injection H as <-. repeat constructor. now exists path.
  - revert out H. apply for_items_Forall. intros [k c] o HIn. unfold find_item.
    simpl. intros H. apply bind_Ret in H as (fc & Hfc & H).
    rewrite (Hnone cur d k c Hd HIn) in H.
    destruct (is_dir fc); [now apply IH in H|]. injection H as <-. constructor.
Qed.

(** X13: when no entry of the tree is named by the search term, [find]
    prints no path: every line it prints is a permission-denied line.  In
    particular [find] without an argument, whose term is the empty string,
    finds nothing in a tree without empty names. *)
Theorem X13_find_without_match (s s' : VirtualFileSystem) (fuel : nat)
    (args out : list string) :
  (forall q f k c, heap s !! q = Some f -> In (k, c) (children f) ->
     String.eqb (match args with [] => EmptyString | a :: _ => a end) k = false) ->
  find fuel s args = Ret (s', out) ->
  s' = s /\ Forall is_denied_line out.
Proof.
  intros Hnone H. split; [now apply find_state in H|].
  unfold find in H. apply bind_Ret in H as (o & Ho & H). injection H as _ <-.
  eapply find_recursive_unmatched; eauto.
Qed.

(** On the tree of the tests, [find] without an argument prints nothing. *)
Lemma X13_find_without_match_witness :
  find 6 test_state [] = Ret (test_state, []) /\ Forall is_denied_line [].
Proof.
  split; [reflexivity|].
  refine (proj2 (X13_find_without_match test_state test_state 6 [] [] _ eq_refl)).
  intros q f k c Hf HIn. simpl in Hf.
  do 6 (destruct q as [|q]; simpl in Hf;
        [injection Hf as <-; simpl in HIn;
         intuition (match goal with E : (_, _) = (_, _) |- _ =>
                      injection E as <- <- end; reflexivity)|]).
  discriminate.
Defined.

Lemma find_recursive_finds (h : list VirtualFile) (term : string) :
  forall fuel ks cur path n out,
    find_route h cur term ks = Some n ->
    _find_recursive fuel h cur term path = Ret out ->
    In (fold_left path_join ks path) out.
Proof.
  induction fuel as [|fuel IH]; intros ks cur path n out Hroute; simpl;
    [discriminate|].
  destruct ks as [|k rest]; [discriminate|]. simpl in Hroute.
  destruct (h !! cur) as [d|] eqn:Hd; [|discriminate].
  unfold deref. rewrite Hd. cbn [bind].
  destruct (has_permission d "x"); [|discriminate]. cbn [negb].
  destruct (dict_get k (children d)) as [c|] eqn:Hget; [|discriminate].
  destruct (h !! c) as [fc|] eqn:Hfc; [|discriminate].
  apply dict_get_In in Hget. intros Hfor.
  destruct (for_items_In _ _ (k, c) Hget out Hfor) as (o & Ho & Hincl).
  apply Hincl. unfold find_item in Ho. simpl in Ho.
  unfold deref in Ho. rewrite Hfc in Ho. cbn [bind] in Ho.
  destruct rest as [|k2 rest'].
  - destruct (String.eqb term k); [|discriminate]. simpl in Hroute.
    destruct (has_permission fc "r"); [|discriminate].
    destruct (is_dir fc).
    + apply bind_Ret in Ho as (sub & _ & Ho). injection Ho as <-. now left.
    + injection Ho as <-. now left.
  - destruct (String.eqb term k); [discriminate|]. simpl in Hroute.
    destruct (is_dir fc); [|discriminate].
    apply (IH (k2 :: rest') c (path_join path k) n o Hroute Ho).
Qed.

(** X14: [find] finds: when the names [ks] lead from the cursor through
    directories that have the execute bit and are not themselves named by
    the term, to a readable object whose name is the term, [find] prints
    the path made of [.] and these names. *)
Theorem X14_find_reports_match (s : VirtualFileSystem) (fuel : nat)
    (term : string) (rest : list string) (ks : list string) (n : nat) :
  wf s -> length (heap s) <= fuel ->
  find_route (heap s) (cwd s) term ks = Some n ->
  exists out, find fuel s (term :: rest) = Ret (s, out) /\
              In (fold_left path_join ks ".") out.
Proof.
  intros Hwf Hfuel Hroute.
  destruct (find_transition fuel s (term :: rest) Hwf Hfuel) as [out Hfind].
  exists out. split; [exact Hfind|].
  unfold find in Hfind. apply bind_Ret in Hfind as (o & Ho & H).
  injection H as <-. eapply find_recursive_finds; eauto.
Qed.

(** The repository's [test_find_existing_file]: [find file2.txt] from the
    root prints [./dir1/file2.txt]. *)
Lemma X14_find_reports_match_witness :
  exists out, find 6 readonly_root_state ["file2.txt"] = Ret (readonly_root_state, out) /\
              In "./dir1/file2.txt" out.
Proof.
  apply (X14_find_reports_match readonly_root_state 6 "file2.txt" []
           ["dir1"; "file2.txt"] 3 wf_readonly_root_state).
  - simpl. lia.
  - reflexivity.
Defined.

(** ** More on loading an archive *)

Lemma add_file_existing (file_info : ZipInfo) (h : list VirtualFile)
    (parts : list string) :
  forall cur n, resolve h cur parts = Some n ->
    _add_file h cur parts file_info = Ret h.
Proof.
  induction parts as [|k rest IH]; intros cur n; simpl; [reflexivity|].
  unfold deref. destruct (h !! cur) as [d|]; [|discriminate]. simpl.
  destruct (dict_get k (children d)) as [c|]; [apply IH|discriminate].
Qed.

Lemma load_zip_app (a b : list ZipInfo) :
  forall h rt, load_zip h rt (a ++ b) =
               bind (load_zip h rt a) (fun h' => load_zip h' rt b).
Proof.
  induction a as [|r a IH]; intros h rt; simpl; [reflexivity|].
  destruct (_add_file h rt (split_slash (strip_slash (filename r))) r);
    simpl; auto.
Qed.

Lemma load_zip_existing (h : list VirtualFile) (rt : nat) (extra : list ZipInfo) :
  (forall e, In e extra -> exists n, resolve h rt (entry_parts e) = Some n) ->
  load_zip h rt extra = Ret h.
Proof.
  induction extra as [|e extra IH]; intros Hall; simpl; [reflexivity|].
  destruct (Hall e (or_introl eq_refl)) as [n Hn]. unfold entry_parts in Hn.
  rewrite (add_file_existing e h _ rt n Hn). simpl.
  apply IH. intros e' He'. apply Hall. now right.
Qed.

Lemma entry_parts_nonempty (file_info : ZipInfo) : entry_parts file_info <> [].
Proof.
  unfold entry_parts.
  destruct (split_slash_cons (strip_slash (filename file_info))) as (w & ws & ->).
  discriminate.
Qed.

(** X15: entries whose paths are already in the tree change nothing: after
    an archive, a repeated entry, or a directory entry that follows an
    entry inside it, creates no object and alters none, whatever kind and
    mode it declares. *)
Theorem X15_late_entries_are_ignored (infolist extra : list ZipInfo) :
  (forall e, In e extra ->
     exists r, In r infolist /\ is_prefix (entry_parts e) (entry_parts r) = true) ->
  VirtualFileSystem_init (infolist ++ extra) = VirtualFileSystem_init infolist.
Proof.
  intros Hall. unfold VirtualFileSystem_init. rewrite load_zip_app.
  destruct (load_zip_extends infolist [root_node] 0 wf_store_root_node)
    as (h & Hload & _ & _); [simpl; lia|].
  rewrite Hload. cbn [bind]. rewrite load_zip_existing; [reflexivity|].
  intros e He. destruct (Hall e He) as (r & Hr & Hpre).
  assert (Hnone : resolve [root_node] 0 (entry_parts e) = None).
  { pose proof (entry_parts_nonempty e).
    destruct (entry_parts e); [contradiction|reflexivity]. }
  pose proof (load_zip_resolve infolist [root_node] 0 h wf_store_root_node
                ltac:(simpl; lia) Hload (entry_parts e) Hnone) as Hchar.
  unfold first_through in Hchar.
  destruct (List.find _ infolist) as [r'|] eqn:Hfind.
  - destruct Hchar as (n & _ & Hn & _). eauto.
  - pose proof (List.find_none _ _ Hfind r Hr) as Hr'. simpl in Hr'. congruence.
Qed.

(** The directory entry [docs/] with mode 0o700 after [docs/a.txt], and a
    second [docs/a.txt] with another mode, leave the tree as it was. *)
Lemma X15_late_entries_are_ignored_witness :
  VirtualFileSystem_init (late_dir_archive ++ late_dir_entries) =
    Ret {| heap := [ mkVirtualFile "/" true 493 [("docs", 1)];
                     mkVirtualFile "docs" false 420 [("a.txt", 2)];
                     mkVirtualFile "a.txt" false 420 [] ];
           root := 0; cwd := 0 |}.
Proof.
  rewrite (X15_late_entries_are_ignored late_dir_archive late_dir_entries).
  - reflexivity.
  - intros e [<-|[<-|[]]]; eexists; (split; [left; reflexivity|reflexivity]).
Defined.

Lemma add_file_length (file_info : ZipInfo) (parts : list string) :
  forall h cur h1, _add_file h cur parts file_info = Ret h1 ->
    length h <= length h1 <= length h + length parts.
Proof.
  induction parts as [|k rest IH]; intros h cur h1; simpl.
  - intros [= <-]. lia.
  - intros H. apply bind_Ret in H as (d & Hd & H).
    destruct (dict_get k (children d)) as [c|].
    + apply IH in H. lia.
    + apply IH in H. rewrite length_insert, length_app in H. simpl in H. lia.
Qed.

Lemma load_zip_length (infolist : list ZipInfo) :
  forall h rt h', load_zip h rt infolist = Ret h' ->
    length h <= length h' <= length h + total_segments infolist.
Proof.
  unfold total_segments.
  induction infolist as [|r more IH]; intros h rt h'; simpl.
  - intros [= <-]. lia.
  - intros H. apply bind_Ret in H as (h1 & H1 & H).
    apply add_file_length in H1. apply IH in H. unfold entry_parts in *. lia.
Qed.

(** X16: the tree never holds more objects than the root and one per path
    segment of the archive's entries; an archive without entries gives the
    root alone. *)
Theorem X16_tree_size_bound (infolist : list ZipInfo) :
  exists s, VirtualFileSystem_init infolist = Ret s /\
            1 <= length (heap s) <= 1 + total_segments infolist.
Proof.
  destruct (init_spec infolist) as (s & Hinit & _).
  exists s. split; [exact Hinit|].
  unfold VirtualFileSystem_init in Hinit.
  apply bind_Ret in Hinit as (h & Hload & H). injection H as <-. simpl.
  apply load_zip_length in Hload. simpl in Hload. lia.
Qed.

(** The empty archive gives a store of one object, the root. *)
Lemma X16_tree_size_bound_witness :
  exists s, VirtualFileSystem_init [] = Ret s /\ length (heap s) = 1.
Proof.
  destruct (X16_tree_size_bound []) as (s & Hinit & Hlen).
  exists s. split; [exact Hinit|]. unfold total_segments in Hlen. simpl in Hlen. lia.
Defined.

Lemma add_file_frame (file_info : ZipInfo) (parts : list string) :
  forall h cur h1, wf_store h -> cur < length h ->
    _add_file h cur parts file_info = Ret h1 ->
    forall q, q < cur -> h1 !! q = h !! q.
Proof.
  induction parts as [|k rest IH]; intros h cur h1 Hwf Hcur; cbn [_add_file].
  - now intros [= <-].
  - destruct (deref_lt h cur Hcur) as (d & Hd & ->). cbn [bind].
    destruct (dict_get k (children d)) as [c|] eqn:Hget.
    + intros Hadd q Hq.
      assert (Hch : is_child h cur k c).
      { exists d. split; [exact Hd|]. now apply dict_get_In. }
      apply (wf_ordered h Hwf) in Hch as [H1 H2].
      apply (IH h c h1 Hwf H2 Hadd). lia.
    + change (<[cur := set_children d (dict_set k (length h) (children d))]>
                (h ++ [mkVirtualFile k (info_is_dir file_info)
                         (entry_permissions file_info) []]))
        with (alloc_child h cur d k file_info).
      intros Hadd q Hq.
      rewrite (IH (alloc_child h cur d k file_info) (length h) h1); auto.
      * rewrite (alloc_lookup h cur d k file_info Hd Hget).
        destruct (Nat.eqb_spec q cur); [lia|].
        destruct (Nat.eqb_spec q (length h)); [lia|reflexivity].
      * now apply alloc_wf.
      * rewrite alloc_length. lia.
      * lia.
Qed.

Lemma dict_mem_keys (k : string) (d : list (string * nat)) :
  dict_mem k d = existsb (String.eqb k) (dict_keys d).
Proof.
  unfold dict_mem. induction d as [|[k' v] d IH]; simpl; [reflexivity|].
  destruct (String.eqb k k'); [reflexivity|exact IH].
Qed.

(** What [_add_file] does to the [children] of the object it starts from. *)
Lemma add_file_at_cur (file_info : ZipInfo) (h h1 : list VirtualFile) (cur : nat)
    (d : VirtualFile) (k : string) (rest : list string) :
  wf_store h -> h !! cur = Some d ->
  _add_file h cur (k :: rest) file_info = Ret h1 ->
  exists d1, h1 !! cur = Some d1 /\ permissions d1 = permissions d /\
    dict_keys (children d1) =
      if dict_mem k (children d) then dict_keys (children d)
      else dict_keys (children d) ++ [k].
Proof.
  intros Hwf Hd. pose proof (lookup_lt_Some _ _ _ Hd) as Hcur.
  cbn [_add_file]. rewrite (proj2 (deref_Ret _ _ _) Hd). cbn [bind].
  unfold dict_mem. destruct (dict_get k (children d)) as [c|] eqn:Hget.
  - intros Hadd.
    assert (Hch : is_child h cur k c).
    { exists d. split; [exact Hd|]. now apply dict_get_In. }
    apply (wf_ordered h Hwf) in Hch as [H1 H2].
    exists d. rewrite (add_file_frame file_info rest h c h1 Hwf H2 Hadd cur H1).
    auto.
  - change (<[cur := set_children d (dict_set k (length h) (children d))]>
              (h ++ [mkVirtualFile k (info_is_dir file_info)
                       (entry_permissions file_info) []]))
      with (alloc_child h cur d k file_info).
    intros Hadd.
    rewrite (add_file_frame file_info rest (alloc_child h cur d k file_info)
               (length h) h1) with (q := cur); auto.
    + rewrite (alloc_lookup h cur d k file_info Hd Hget), Nat.eqb_refl.
      eexists. split; [reflexivity|]. simpl. split; [reflexivity|].
      unfold dict_keys. now rewrite map_app.
    + now apply alloc_wf.
    + rewrite alloc_length. lia.
Qed.

Lemma load_zip_root_keys (infolist : list ZipInfo) :
  forall h rt d h', wf_store h -> h !! rt = Some d ->
    load_zip h rt infolist = Ret h' ->
    exists d', h' !! rt = Some d' /\ permissions d' = permissions d /\
      dict_keys (children d') =
        dict_keys (children d) ++
        first_occurrences (dict_keys (children d)) (map first_segment infolist).
Proof.
  induction infolist as [|r more IH]; intros h rt d h' Hwf Hd; cbn [load_zip].
  - intros [= <-]. exists d. simpl. now rewrite app_nil_r.
  - pose proof (lookup_lt_Some _ _ _ Hd) as Hrt.
    fold (entry_parts r).
    destruct (add_file_extends r (entry_parts r) h rt Hwf Hrt)
      as (h1 & Hadd & Hwf1 & _).
    rewrite Hadd. cbn [bind]. intros Hload.
    cbn [map first_occurrences].
    pose proof (entry_parts_nonempty r) as Hne.
    destruct (entry_parts r) as [|k rest] eqn:Hparts; [contradiction|].
    assert (Hk : first_segment r = k) by (unfold first_segment; now rewrite Hparts).
    rewrite Hk.
    destruct (add_file_at_cur r h h1 rt d k rest Hwf Hd Hadd)
      as (d1 & Hd1 & Hp1 & Hkeys1).
    destruct (IH h1 rt d1 h' Hwf1 Hd1 Hload) as (d' & Hd' & Hp' & Hkeys').
    exists d'. split; [exact Hd'|]. split; [congruence|].
    rewrite Hkeys', Hkeys1, dict_mem_keys.
    destruct (existsb (String.eqb k) (dict_keys (children d))); [reflexivity|].
    now rewrite <- app_assoc.
Qed.

Lemma ls_cwd_readable (s : VirtualFileSystem) (fuel : nat) (f : VirtualFile) :
  wf s -> heap s !! cwd s = Some f -> Z.land (permissions f) 256 <> 0%Z ->
  ls fuel s [] = Ret (s, dict_keys (children f)).
Proof.
  intros Hwf Hf Hr. unfold ls, _get_target_dir. cbn [bind].
  rewrite (proj2 (deref_Ret _ _ _) Hf). cbn [bind].
  unfold has_permission. simpl.
  destruct (Z.eqb_spec (Z.land (permissions f) 256) 0); [contradiction|]. simpl.
  now rewrite (ls_listing s (cwd s) f Hwf Hf).
Qed.

(** X17: listing follows the archive's order: right after start-up [ls]
    prints the first path segments of the archive's entries, each once, in
    the order of their first appearance. *)
Theorem X17_first_listing_follows_archive (infolist : list ZipInfo) (fuel : nat) :
  exists s, VirtualFileSystem_init infolist = Ret s /\
    ls fuel s [] = Ret (s, first_occurrences [] (map first_segment infolist)).
Proof.
  destruct (init_spec infolist) as (s & Hinit & Hok & Hroot & Hcwd & _).
  exists s. split; [exact Hinit|].
  pose proof Hinit as Hload. unfold VirtualFileSystem_init in Hload.
  apply bind_Ret in Hload as (h & Hload & H). injection H as <-.
  destruct (load_zip_root_keys infolist [root_node] 0 root_node h
              wf_store_root_node eq_refl Hload) as (d' & Hd' & Hp' & Hkeys).
  simpl in Hkeys. rewrite <- Hkeys.
  apply ls_cwd_readable; [apply Hok|exact Hd'|].
  rewrite Hp'. simpl. discriminate.
Qed.

Lemma X17_first_listing_follows_archive_witness :
  exists s, VirtualFileSystem_init ordered_archive = Ret s /\
            ls 0 s [] = Ret (s, ["b.txt"; "a"; "c"]).
Proof.
  exact (X17_first_listing_follows_archive ordered_archive 0).
Defined.

(** ** The prompt *)

Lemma get_path_resolved (s : VirtualFileSystem) (fuel : nat) (ks : list string)
    (n : nat) :
  wf s -> length (heap s) <= fuel ->
  resolve_dirs (heap s) (root s) ks = Some n ->
  _get_path fuel s n = Ret (match ks with [] => "/" | _ :: _ => abs_path ks end).
Proof.
  intros Hwf Hfuel Hres. pose proof (wf_heap s Hwf) as Hst.
  pose proof (resolve_dirs_resolve _ _ _ _ Hres) as Hres'.
  pose proof (resolve_depth _ _ Hst _ _ Hres') as Hdepth.
  assert (Hn : n < length (heap s)).
  { apply (reachable_lt _ (root s) n Hst (wf_root s Hwf)).
    now apply resolve_reachable with ks. }
  unfold _get_path.
  replace fuel with (length ks + (fuel - length ks)) at 1 by lia.
  rewrite (get_path_climb s fuel Hwf Hfuel ks (root s) n EmptyString
             (fuel - length ks) ltac:(intros _; constructor) Hres).
  destruct (fuel - length ks) as [|steps] eqn:E; [lia|].
  simpl. rewrite Nat.eqb_refl. simpl. rewrite string_app_nil_r.
  destruct ks as [|k rest]; reflexivity.
Qed.

(** X18: the prompt is [user@host:path$ ] with a trailing blank, where
    [path] is the absolute path of the cursor, [/] at the root, whenever
    the cursor is reached from the root through directories. *)
Theorem X18_prompt_text (shell : ShellEmulator) (fuel : nat) (ks : list string) :
  wf (fs shell) -> length (heap (fs shell)) <= fuel ->
  resolve_dirs (heap (fs shell)) (root (fs shell)) ks = Some (cwd (fs shell)) ->
  prompt fuel shell =
    Ret (user shell +:+ "@" +:+ host shell +:+ ":"
           +:+ (match ks with [] => "/" | _ :: _ => abs_path ks end) +:+ "$ ").
Proof.
  intros Hwf Hfuel Hres. unfold prompt.
  now rewrite (get_path_resolved (fs shell) fuel ks _ Hwf Hfuel Hres).
Qed.

Lemma X18_prompt_text_witness :
  prompt 6 (mkShellEmulator "testuser" "testhost" (set_cwd readonly_root_state 4)) =
    Ret "testuser@testhost:/dir1/subdir1$ ".
Proof.
  assert (Hwf : wf (set_cwd readonly_root_state 4)).
  { apply wf_set_cwd; [exact wf_readonly_root_state|simpl; lia]. }
  apply (X18_prompt_text
           (mkShellEmulator "testuser" "testhost" (set_cwd readonly_root_state 4))
           6 ["dir1"; "subdir1"] Hwf).
  - simpl. lia.
  - reflexivity.
Defined.
